(** * Suburb Explorer: the JSON-to-visualisation pipeline of [app.js]

    A shallow embedding of the pure part of [app.js]: [flattenObject] with its
    helpers [depth] and [summarize], [findNumericPairs], [computeSummary],
    the data computed by [renderTable], [formatVal] and [formatNumber]; the
    markup written by [renderSummary] with [escapeHtml]; the request URL
    built by [getSlug] and [buildUrl] and the command of [copyCurl]; the
    layout computed by [renderChart].

    Modelling choices.
    - A JavaScript number is an IEEE 754 binary64 value: [spec_float] at
      precision 53 and maximal exponent 1024, with the arithmetic of
      [SpecFloat].  The conversions between numbers and strings ([String],
      [Number], [toFixed], [toLocaleString] in the en-US locale) are computed
      on the exact value of the float.
    - A JavaScript string is a [string]; one character stands for one code
      unit.  The ellipsis [renderChart] appends to a long label is outside
      this alphabet and is kept as a flag beside the text.
    - What the page supplies is a parameter: the fields of the form for
      [buildUrl], nothing for [renderChart], whose bar widths, the one part
      that depends on the width of the page, are left out.
    - A parsed JSON object is the list of its own enumerable properties in
      the order [Object.entries] lists them; [undefined] is [None].  A
      property read ([row?.[c]], [flat["suburb"]]) looks among the own
      properties and then along the prototype chain: the members of
      [Object.prototype], [Array.prototype], [String.prototype],
      [Number.prototype] and [Boolean.prototype] are those of ECMAScript
      2024 with its Annex B, and a built-in function has the text V8 gives
      it.
    - The record built by [flattenObject] is an object: its own properties,
      an insertion-ordered list, and its prototype, threaded through the
      calls that share and mutate it.  An assignment [out[k] = v] creates
      or updates an own property, except under the key [__proto__] while
      the record inherits the accessor of [Object.prototype]: then the
      assignment stores nothing and makes [v] the prototype of the record
      when [v] is [null], an object or an array.  [entries] puts
      array-index keys first, as the language does when it enumerates an
      object.
    - A number is printed with the fewest digits that read back as the same
      number ([String]), and [toFixed] rounds the exact value.
    - [Array.prototype.sort] is a stable sort; it is computed by insertion,
      which gives the one stable arrangement a consistent comparator
      allows. *)

From Stdlib Require Import List String Ascii ZArith Bool Lia Permutation.
From Stdlib Require Import QArith Qabs Qpower Qround.
From Stdlib Require Import SpecFloat DecimalString.
From Stdlib Require Nnat Decimal DecimalPos.
Import ListNotations.

Local Open Scope list_scope.
Local Open Scope string_scope.
Local Open Scope Z_scope.

(** ** Numbers *)

Module Num.

Definition prec : Z := 53.
Definition emax : Z := 1024.

Definition number : Type := spec_float.

Definition zero : number := S754_zero false.
Definition NaN : number := S754_nan.
Definition Infinity : number := S754_infinity false.

(** The number nearest to an integer (an integer literal, a length). *)
Definition of_Z (z : Z) : number := binary_normalize prec emax z 0 false.
Definition of_nat (n : nat) : number := of_Z (Z.of_nat n).

(** The number nearest to [m * 10^j], [m >= 0], with sign [neg]: the value of
    a decimal literal. *)
Definition of_decimal (neg : bool) (m : Z) (j : Z) : number :=
  match m with
  | Zpos p =>
      if 0 <=? j
      then binary_normalize prec emax
             (if neg then - (m * 10 ^ j) else m * 10 ^ j) 0 neg
      else SFdiv prec emax (S754_finite neg p 0)
             (S754_finite false (Z.to_pos (10 ^ (- j))) 0)
  | _ => S754_zero neg
  end.

Definition abs : number -> number := SFabs.
Definition sub : number -> number -> number := SFsub prec emax.
Definition div : number -> number -> number := SFdiv prec emax.
Definition ltb : number -> number -> bool := SFltb.
Definition leb : number -> number -> bool := SFleb.
Definition eqb : number -> number -> bool := SFeqb.
(** [a >= b] and [a > b] *)
Definition geb (a b : number) : bool := SFleb b a.
Definition gtb (a b : number) : bool := SFltb b a.

(** [Number.isFinite] *)
Definition isFinite (x : number) : bool :=
  match x with
  | S754_zero _ | S754_finite _ _ _ => true
  | S754_infinity _ | S754_nan => false
  end.

(** A number is falsy when it is [0], [-0] or [NaN]. *)
Definition truthy (x : number) : bool :=
  match x with
  | S754_zero _ | S754_nan => false
  | _ => true
  end.

(** The exact value of [m * 2^e] as a fraction [(numerator, denominator)]. *)
Definition frac (m : positive) (e : Z) : Z * Z :=
  if 0 <=? e then (Zpos m * 2 ^ e, 1) else (Zpos m, 2 ^ (- e)).

(** The integer a number is, if it is one: its sign and magnitude
    ([Number.isInteger] holds exactly when this is [Some]). *)
Definition integer_value (x : number) : option (bool * Z) :=
  match x with
  | S754_zero s => Some (s, 0)
  | S754_finite s m e =>
      let '(n, d) := frac m e in
      if n mod d =? 0 then Some (s, n / d) else None
  | _ => None
  end.

Definition isInteger (x : number) : bool :=
  match integer_value x with Some _ => true | None => false end.

(** The exact value as a rational, for statements about magnitudes
    (infinities and NaN have none and are given 0). *)
Definition value (x : number) : Q :=
  match x with
  | S754_finite s m e =>
      ((if s then Zneg m else Zpos m) # 1) * Qpower 2 e
  | _ => 0%Q
  end.

(** *** Decimal rendering *)

Definition dec (z : Z) : string := NilZero.string_of_uint (N.to_uint (Z.to_N z)).

Fixpoint zeros (n : nat) : string :=
  match n with O => "" | S n' => String "0" (zeros n') end.

(** [v >= 10^k] for [v = num/den] *)
Definition ge_pow10 (num den k : Z) : bool :=
  if 0 <=? k then den * 10 ^ k <=? num else den <=? num * 10 ^ (- k).

(** The [n] with [10^(n-1) <= num/den < 10^n]. *)
Definition decimal_exponent (num den : Z) : Z :=
  let est := ((Z.log2 num - Z.log2 den) * 1233) / 4096 in
  if negb (ge_pow10 num den (est - 1)) then est - 1
  else if negb (ge_pow10 num den est) then est
  else if negb (ge_pow10 num den (est + 1)) then est + 1
  else if negb (ge_pow10 num den (est + 2)) then est + 2
  else est + 3.

(** Nearest integer to [a/b], ties to even. *)
Definition round_div (a b : Z) : Z :=
  let q := a / b in
  match Z.compare (2 * (a mod b)) b with
  | Lt => q
  | Gt => q + 1
  | Eq => if Z.even q then q else q + 1
  end.

(** Nearest integer to [(num/den) / 10^j]. *)
Definition scaled (num den j : Z) : Z :=
  if 0 <=? j then round_div num (den * 10 ^ j)
  else round_div (num * 10 ^ (- j)) den.

(** The integer part of [(num/den) / 10^j]. *)
Definition floor_scaled (num den j : Z) : Z :=
  if 0 <=? j then num / (den * 10 ^ j) else (num * 10 ^ (- j)) / den.

(** A candidate of [k] digits that was rounded up to [10^k] is the one digit
    [1] of the next decade. *)
Definition carry (k s n : Z) : Z * Z :=
  if s =? 10 ^ k then (10 ^ (k - 1), n + 1) else (s, n).

(** Does the decimal [s * 10^(n-k)] read back as [x]? *)
Definition reads_back (x : number) (k s n : Z) : bool :=
  let '(s', n') := carry k s n in eqb (of_decimal false s' (n' - k)) x.

(** The digit string [s] (with [k] digits and decimal exponent [n]) of
    Number::toString for the positive number [x = num/den]: [k] is the least
    number of digits for which a decimal reads back as [x], and [s] is, of
    the [k]-digit decimals that read back as [x], the one nearest to [x]
    (the even one of two equally near).  The decimals on either side of [x]
    are tried, the nearer first.  Seventeen digits always suffice. *)
Fixpoint shortest (fuel : nat) (k : Z) (x : number) (num den n : Z)
  : Z * Z * Z :=
  let near := scaled num den (n - k) in
  let below := floor_scaled num den (n - k) in
  let far := if near =? below then below + 1 else below in
  match fuel with
  | O => let '(s, n') := carry k near n in (s, k, n')
  | S fuel' =>
      if reads_back x k near n then let '(s, n') := carry k near n in (s, k, n')
      else if reads_back x k far n then let '(s, n') := carry k far n in (s, k, n')
      else shortest fuel' (k + 1) x num den n
  end.

Definition exponent_part (n : Z) : string :=
  "e" ++ (if 0 <=? n - 1 then "+" else "-") ++ dec (Z.abs (n - 1)).

(** Number::toString, radix 10 *)
Definition to_string (x : number) : string :=
  match x with
  | S754_nan => "NaN"
  | S754_zero _ => "0"
  | S754_infinity s => if s then "-Infinity" else "Infinity"
  | S754_finite sg m e =>
      let '(num, den) := frac m e in
      let '(s, k, n) :=
        shortest 16 1 (S754_finite false m e) num den (decimal_exponent num den) in
      let ds := dec s in
      let body :=
        if (k <=? n) && (n <=? 21) then ds ++ zeros (Z.to_nat (n - k))
        else if (0 <? n) && (n <=? 21) then
          substring 0 (Z.to_nat n) ds ++ "." ++
          substring (Z.to_nat n) (Z.to_nat (k - n)) ds
        else if (-6 <? n) && (n <=? 0) then
          "0." ++ zeros (Z.to_nat (- n)) ++ ds
        else if k =? 1 then ds ++ exponent_part n
        else substring 0 1 ds ++ "." ++ substring 1 (Z.to_nat (k - 1)) ds
             ++ exponent_part n in
      (if sg then "-" else "") ++ body
  end.

(** [Number.prototype.toFixed(fd)]: the nearest multiple of [10^-fd], ties
    upwards, printed with [fd] decimals; numbers of magnitude [10^21] and
    more are printed as [to_string] prints them. *)
Definition toFixed (fd : nat) (x : number) : string :=
  match x with
  | S754_nan => "NaN"
  | S754_infinity s => if s then "-Infinity" else "Infinity"
  | S754_zero _ =>
      match fd with O => "0" | _ => "0." ++ zeros fd end
  | S754_finite sg m e =>
      let '(num, den) := frac m e in
      if ge_pow10 num den 21 then to_string x
      else
        let n := (2 * num * 10 ^ Z.of_nat fd + den) / (2 * den) in
        let ds := dec n in
        let ds := zeros (S fd - String.length ds) ++ ds in
        let k := String.length ds in
        (if sg then "-" else "") ++
        match fd with
        | O => ds
        | _ => substring 0 (k - fd) ds ++ "." ++ substring (k - fd) fd ds
        end
  end.

(** Digits in groups of three, separated by commas. *)
Fixpoint group3 (fuel : nat) (z : Z) : string :=
  match fuel with
  | O => dec z
  | S fuel' =>
      if z <? 1000 then dec z
      else
        let r := dec (z mod 1000) in
        group3 fuel' (z / 1000) ++ "," ++ zeros (3 - String.length r) ++ r
  end.

(** [toLocaleString()] of an integer, in the en-US locale. *)
Definition integer_toLocaleString (i : bool * Z) : string :=
  let '(sg, z) := i in
  (if sg then "-" else "") ++ group3 (Z.to_nat (Z.log2 z)) z.

(** *** Reading a number from a string: [Number(s)] *)

Definition is_space (c : ascii) : bool :=
  let n := nat_of_ascii c in
  ((9 <=? n) && (n <=? 13) || (n =? 32) || (n =? 160))%nat.

Fixpoint skip_spaces (l : list ascii) : list ascii :=
  match l with
  | c :: l' => if is_space c then skip_spaces l' else l
  | [] => []
  end.

Definition trim (l : list ascii) : list ascii :=
  rev (skip_spaces (rev (skip_spaces l))).

(** The value of a digit in a radix up to 16. *)
Definition digit_value (radix : Z) (c : ascii) : option Z :=
  let n := Z.of_nat (nat_of_ascii c) in
  let d :=
    if (48 <=? n) && (n <=? 57) then n - 48
    else if (97 <=? n) && (n <=? 102) then n - 87
    else if (65 <=? n) && (n <=? 70) then n - 55
    else 16 in
  if d <? radix then Some d else None.

(** The longest run of digits at the head of [l]: its value from the
    accumulator [acc], the number of digits read, and the rest. *)
Fixpoint read_digits (radix : Z) (l : list ascii) (acc : Z) (cnt : nat)
  : Z * nat * list ascii :=
  match l with
  | c :: l' =>
      match digit_value radix c with
      | Some d => read_digits radix l' (acc * radix + d) (S cnt)
      | None => (acc, cnt, l)
      end
  | [] => (acc, cnt, [])
  end.

Definition read_sign (l : list ascii) : bool * list ascii :=
  match l with
  | c :: l' =>
      if Ascii.eqb c "-" then (true, l')
      else if Ascii.eqb c "+" then (false, l')
      else (false, l)
  | [] => (false, [])
  end.

(** A whole string of digits in the given radix, at least one. *)
Definition integer_literal (radix : Z) (l : list ascii) : number :=
  match read_digits radix l 0 0 with
  | (v, S _, []) => of_Z v
  | _ => NaN
  end.

(** The exponent part of a decimal literal, to the end of the string. *)
Definition read_exponent (l : list ascii) : option Z :=
  match l with
  | [] => Some 0
  | c :: l' =>
      if (Ascii.eqb c "e" || Ascii.eqb c "E")%bool then
        let '(sg, l'') := read_sign l' in
        match read_digits 10 l'' 0 0 with
        | (v, S _, []) => Some (if sg then - v else v)
        | _ => None
        end
      else None
  end.

Definition decimal_literal (l : list ascii) : number :=
  let '(sg, l) := read_sign l in
  if String.eqb (string_of_list_ascii l) "Infinity" then S754_infinity sg
  else
    let '(ip, ni, l) := read_digits 10 l 0 0 in
    let '(m, nf, l) :=
      match l with
      | c :: l' =>
          if Ascii.eqb c "." then read_digits 10 l' ip 0 else (ip, O, l)
      | [] => (ip, O, l)
      end in
    match (ni + nf)%nat, read_exponent l with
    | S _, Some ex => of_decimal sg m (ex - Z.of_nat nf)
    | _, _ => NaN
    end.

(** The radix a prefix [0x], [0o] or [0b] (in either case) announces. *)
Definition radix_prefix (c0 c1 : ascii) : option Z :=
  if Ascii.eqb c0 "0" then
    if (Ascii.eqb c1 "x" || Ascii.eqb c1 "X")%bool then Some 16
    else if (Ascii.eqb c1 "o" || Ascii.eqb c1 "O")%bool then Some 8
    else if (Ascii.eqb c1 "b" || Ascii.eqb c1 "B")%bool then Some 2
    else None
  else None.

(** [Number(s)] for a string [s] *)
Definition of_string (s : string) : number :=
  match trim (list_ascii_of_string s) with
  | [] => zero
  | c0 :: c1 :: l =>
      match radix_prefix c0 c1 with
      | Some radix => integer_literal radix l
      | None => decimal_literal (c0 :: c1 :: l)
      end
  | l => decimal_literal l
  end.

End Num.

(** ** JSON values *)

Unset Elimination Schemes.
Inductive json : Type :=
| JNull
| JBool (b : bool)
| JNum (n : Num.number)
| JStr (s : string)
| JArray (l : list json)
| JObject (kvs : list (string * json)).
Set Elimination Schemes.

Definition is_null (v : json) : bool :=
  match v with JNull => true | _ => false end.

(** [Array.isArray(v)] *)
Definition isArray (v : json) : bool :=
  match v with JArray _ => true | _ => false end.

(** [typeof v === "object"]: true of [null] too *)
Definition typeof_object (v : json) : bool :=
  match v with JNull | JArray _ | JObject _ => true | _ => false end.

(** [typeof v] *)
Definition typeof (v : json) : string :=
  match v with
  | JBool _ => "boolean"
  | JNum _ => "number"
  | JStr _ => "string"
  | JNull | JArray _ | JObject _ => "object"
  end.

Definition nonempty (s : string) : bool :=
  match s with EmptyString => false | String _ _ => true end.

(** Truthiness, as [if], [&&] and [||] see a value. *)
Definition truthy (v : json) : bool :=
  match v with
  | JNull => false
  | JBool b => b
  | JNum n => Num.truthy n
  | JStr s => nonempty s
  | JArray _ | JObject _ => true
  end.

(** Arrays and objects, as opposed to the leaves [null], booleans, numbers
    and strings. *)
Definition is_container (v : json) : bool :=
  match v with JArray _ | JObject _ => true | _ => false end.

(** [elements.join(sep)] of already converted elements *)
Fixpoint join (sep : string) (l : list string) : string :=
  match l with
  | [] => ""
  | [s] => s
  | s :: l' => s ++ sep ++ join sep l'
  end.

(** [String(v)] *)
Fixpoint to_String (v : json) : string :=
  match v with
  | JNull => "null"
  | JBool b => if b then "true" else "false"
  | JNum n => Num.to_string n
  | JStr s => s
  | JArray l =>
      join "," (map (fun x => if is_null x then "" else to_String x) l)
  | JObject _ => "[object Object]"
  end.

(** The text of a number used in a template literal. *)
Definition nat_text (n : nat) : string := Num.to_string (Num.of_nat n).

(** ** Objects: own properties and the prototype chain *)

(** The own enumerable properties of an object, in the order they were
    created. *)
Definition properties : Type := list (string * json).

(** The own property under [k]; [None] when there is none. *)
Fixpoint get (r : properties) (k : string) : option json :=
  match r with
  | [] => None
  | (k', v) :: r' => if String.eqb k' k then Some v else get r' k
  end.

(** Creating or updating an own property: a present key keeps its place, a
    new one goes last. *)
Fixpoint define (r : properties) (k : string) (v : json) : properties :=
  match r with
  | [] => [(k, v)]
  | (k', v') :: r' =>
      if String.eqb k' k then (k', v) :: r' else (k', v') :: define r' k v
  end.

(** The array index a property key denotes, if any: a canonical decimal
    numeral below [2^32 - 1]. *)
Definition array_index (k : string) : option Z :=
  match Num.read_digits 10 (list_ascii_of_string k) 0 0 with
  | (v, S _, []) =>
      if String.eqb (Num.dec v) k && (v <? 4294967295) then Some v else None
  | _ => None
  end.

Fixpoint insert_index (x : Z * (string * json)) (l : list (Z * (string * json)))
  : list (Z * (string * json)) :=
  match l with
  | [] => [x]
  | y :: l' => if fst x <=? fst y then x :: l else y :: insert_index x l'
  end.

(** The properties whose keys are array indices, in ascending index order. *)
Fixpoint index_entries (r : properties) : list (Z * (string * json)) :=
  match r with
  | [] => []
  | kv :: r' =>
      match array_index (fst kv) with
      | Some i => insert_index (i, kv) (index_entries r')
      | None => index_entries r'
      end
  end.

(** [Object.entries] of an object with the own properties [r]: array-index
    keys first, in ascending order, then the other keys in insertion
    order. *)
Definition entries (r : properties) : list (string * json) :=
  (map snd (index_entries r)
   ++ filter (fun kv => match array_index (fst kv) with
                        | Some _ => false | None => true end) r)%list.

(** [Object.keys] of an object with the own properties [r] *)
Definition keys (r : properties) : list string := map fst (entries r).

(** *** What a property read finds on the prototype chain *)

(** The built-in prototypes a JSON value or a plain object can inherit
    from. *)
Inductive builtin : Type := BObject | BArray | BString | BNumber | BBoolean.

(** What a property read can return: a JSON value, a built-in function
    (given by its name), or a built-in prototype object. *)
Inductive js_value : Type :=
| Data (v : json)
| Native (name : string)
| Builtin (b : builtin).

(** The name of the constructor a built-in prototype points to. *)
Definition constructor_name (b : builtin) : string :=
  match b with
  | BObject => "Object"
  | BArray => "Array"
  | BString => "String"
  | BNumber => "Number"
  | BBoolean => "Boolean"
  end.

(** The methods of the built-in prototypes, [constructor] apart. *)
Definition methods (b : builtin) : list string :=
  match b with
  | BObject =>
      ["__defineGetter__"; "__defineSetter__"; "hasOwnProperty";
       "__lookupGetter__"; "__lookupSetter__"; "isPrototypeOf";
       "propertyIsEnumerable"; "toString"; "valueOf"; "toLocaleString"]
  | BArray =>
      ["at"; "concat"; "copyWithin"; "fill"; "find"; "findIndex"; "findLast";
       "findLastIndex"; "lastIndexOf"; "pop"; "push"; "reverse"; "shift";
       "unshift"; "slice"; "sort"; "splice"; "includes"; "indexOf"; "join";
       "keys"; "entries"; "values"; "forEach"; "filter"; "flat"; "flatMap";
       "map"; "every"; "some"; "reduce"; "reduceRight"; "toLocaleString";
       "toString"; "toReversed"; "toSorted"; "toSpliced"; "with"]
  | BString =>
      ["anchor"; "at"; "big"; "blink"; "bold"; "charAt"; "charCodeAt";
       "codePointAt"; "concat"; "endsWith"; "fontcolor"; "fontsize"; "fixed";
       "includes"; "indexOf"; "isWellFormed"; "italics"; "lastIndexOf";
       "link"; "localeCompare"; "match"; "matchAll"; "normalize"; "padEnd";
       "padStart"; "repeat"; "replace"; "replaceAll"; "search"; "slice";
       "small"; "split"; "strike"; "sub"; "substr"; "substring"; "sup";
       "startsWith"; "toString"; "toWellFormed"; "trim"; "trimStart";
       "trimLeft"; "trimEnd"; "trimRight"; "toLocaleLowerCase";
       "toLocaleUpperCase"; "toLowerCase"; "toUpperCase"; "valueOf"]
  | BNumber =>
      ["toExponential"; "toFixed"; "toPrecision"; "toString"; "valueOf";
       "toLocaleString"]
  | BBoolean => ["toString"; "valueOf"]
  end.

(** The name of the function a method key holds: the key, except for the
    two aliases of [String.prototype]. *)
Definition method_name (b : builtin) (k : string) : string :=
  match b with
  | BString =>
      if String.eqb k "trimLeft" then "trimStart"
      else if String.eqb k "trimRight" then "trimEnd"
      else k
  | _ => k
  end.

(** The own property [k] of a built-in prototype.  [Array.prototype] and
    [String.prototype] have a [length] of 0; the accessor [__proto__] of
    [Object.prototype] is dealt with in [chain]. *)
Definition member (b : builtin) (k : string) : option js_value :=
  if String.eqb k "constructor" then Some (Native (constructor_name b))
  else if existsb (String.eqb k) (methods b)
  then Some (Native (method_name b k))
  else
    match b with
    | BArray | BString =>
        if String.eqb k "length" then Some (Data (JNum Num.zero)) else None
    | _ => None
    end.

(** What a read of [k] finds from the built-in prototype [b] upwards, for a
    receiver whose own prototype is [parent]: a member of [b], or a member
    of [Object.prototype], whose getter [__proto__] answers with the
    prototype of the receiver. *)
Definition chain (b : builtin) (parent : js_value) (k : string)
  : option js_value :=
  match member b k with
  | Some m => Some m
  | None =>
      match member BObject k with
      | Some m => Some m
      | None => if String.eqb k "__proto__" then Some parent else None
      end
  end.

(** The built-in prototype of a value that is not [null]. *)
Definition kind (v : json) : builtin :=
  match v with
  | JArray _ => BArray
  | JStr _ => BString
  | JNum _ => BNumber
  | JBool _ => BBoolean
  | _ => BObject
  end.

(** The own property [c] of a value: a field of an object, an element or the
    length of an array, a code unit or the length of a string. *)
Definition own_property (v : json) (c : string) : option json :=
  match v with
  | JObject kvs => get kvs c
  | JArray l =>
      if String.eqb c "length" then Some (JNum (Num.of_nat (List.length l)))
      else match array_index c with
           | Some i => nth_error l (Z.to_nat i)
           | None => None
           end
  | JStr s =>
      if String.eqb c "length" then Some (JNum (Num.of_nat (String.length s)))
      else match array_index c with
           | Some i =>
               if (Z.to_nat i <? String.length s)%nat
               then Some (JStr (substring (Z.to_nat i) 1 s)) else None
           | None => None
           end
  | _ => None
  end.

(** *** The record: the object [flattenObject] fills *)

(** The prototype of the object: [Object.prototype], as [{}] has it, [null],
    or an array or object of the data, once an assignment to [__proto__] has
    put it there. *)
Inductive prototype : Type :=
| ObjectPrototype
| NoPrototype
| ValuePrototype (v : json).

Record record : Type := { own : properties; proto : prototype }.

(** [{}] *)
Definition empty : record := {| own := []; proto := ObjectPrototype |}.

(** The setter [__proto__] of [Object.prototype]: an object or [null]
    becomes the prototype, any other value is ignored. *)
Definition set_prototype (r : record) (v : json) : record :=
  match v with
  | JNull => {| own := own r; proto := NoPrototype |}
  | JArray _ | JObject _ => {| own := own r; proto := ValuePrototype v |}
  | _ => r
  end.

(** [r[k] = v].  The object gets or updates an own property, except when
    [k] is [__proto__], the object has no such own property, and the read of
    [__proto__] along its prototype chain ends at the accessor of
    [Object.prototype]: then the setter runs and no property is stored. *)
Definition set (r : record) (k : string) (v : json) : record :=
  let stored := {| own := define (own r) k v; proto := proto r |} in
  if String.eqb k "__proto__" then
    match get (own r) k with
    | Some _ => stored
    | None =>
        match proto r with
        | ObjectPrototype => set_prototype r v
        | NoPrototype => stored
        | ValuePrototype p =>
            match own_property p k with
            | Some _ => stored
            | None => set_prototype r v
            end
        end
    end
  else stored.

(** [r[k]]; [None] is [undefined]. *)
Definition read (r : record) (k : string) : option js_value :=
  match get (own r) k with
  | Some v => Some (Data v)
  | None =>
      match proto r with
      | ObjectPrototype => chain BObject (Builtin BObject) k
      | NoPrototype => None
      | ValuePrototype p =>
          match own_property p k with
          | Some v => Some (Data v)
          | None => chain (kind p) (Data p) k
          end
      end
  end.

(** ** The flattener *)

(** [depth(s)]: the number of ['.'] in [s] *)
Fixpoint depth (s : string) : Z :=
  match s with
  | EmptyString => 0
  | String c s' => (if Ascii.eqb c "." then 1 else 0) + depth s'
  end.

Definition summarize (v : json) : string :=
  match v with
  | JArray l => "Array(" ++ nat_text (List.length l) ++ ")"
  | JObject kvs => "Object(" ++ nat_text (List.length kvs) ++ " keys)"
  | _ => to_String v
  end.

(** [prefix || "value"] *)
Definition prefix_or_value (prefix : string) : string :=
  if nonempty prefix then prefix else "value".

(** [prefix ? `${prefix}.__len` : "__len"] *)
Definition len_key (prefix : string) : string :=
  if nonempty prefix then prefix ++ ".__len" else "__len".

(** [prefix ? `${prefix}[${i}]` : `[${i}]`] *)
Definition elem_key (prefix : string) (i : nat) : string :=
  if nonempty prefix then prefix ++ "[" ++ nat_text i ++ "]"
  else "[" ++ nat_text i ++ "]".

(** [prefix ? `${prefix}.${k}` : k] *)
Definition field_key (prefix k : string) : string :=
  if nonempty prefix then prefix ++ "." ++ k else k.

(** [flattenObject], with the function called at the depth limit as a
    parameter; [out] is the object the calls share and mutate, threaded
    through them.  The loop over [obj.slice(0, 8)] walks [obj] itself and
    stops at index 8. *)
Section FlattenWith.

Variable summ : json -> string.

Fixpoint flattenObject_with (depthLimit : Z) (obj : json) (prefix : string)
    (out : record) {struct obj} : record :=
  match obj with
  | JNull => out
  | _ =>
      if depth prefix >=? depthLimit
      then set out (prefix_or_value prefix) (JStr (summ obj))
      else
        match obj with
        | JArray l =>
            (fix each (vs : list json) (i : nat) (out : record) {struct vs}
               : record :=
               match vs with
               | [] => out
               | v :: vs' =>
                   if (i <? 8)%nat then
                     let p := elem_key prefix i in
                     each vs' (S i)
                       (if typeof_object v && negb (is_null v)
                        then flattenObject_with depthLimit v p out
                        else set out p v)
                   else out
               end) l 0%nat
              (set out (len_key prefix) (JNum (Num.of_nat (List.length l))))
        | JObject kvs =>
            (fix each (kvs : list (string * json)) (out : record)
               {struct kvs} : record :=
               match kvs with
               | [] => out
               | (k, v) :: kvs' =>
                   let p := field_key prefix k in
                   each kvs'
                     (if truthy v && typeof_object v
                      then flattenObject_with depthLimit v p out
                      else set out p v)
               end) kvs out
        | _ => set out (prefix_or_value prefix) obj
        end
  end.

End FlattenWith.

(** [flattenObject(obj, depthLimit, prefix, out)] *)
Definition flattenObject : Z -> json -> string -> record -> record :=
  flattenObject_with summarize.

(** [flattenObject(obj)], with the default depth limit 4 *)
Definition flatten (obj : json) : record := flattenObject 4 obj "" empty.

(** The same function as the source writes it, by general recursion: [fuel]
    bounds the nesting of calls, and [None] means the bound was reached. *)
Fixpoint flattenObject_fuel (fuel : nat) (depthLimit : Z) (obj : json)
    (prefix : string) (out : record) : option record :=
  match fuel with
  | O => None
  | S fuel' =>
      if is_null obj then Some out
      else if depth prefix >=? depthLimit
      then Some (set out (prefix_or_value prefix) (JStr (summarize obj)))
      else
        match obj with
        | JArray l =>
            fold_left
              (fun (acc : option record) (iv : nat * json) =>
                 let '(i, v) := iv in
                 match acc with
                 | None => None
                 | Some out =>
                     let p := elem_key prefix i in
                     if typeof_object v && negb (is_null v)
                     then flattenObject_fuel fuel' depthLimit v p out
                     else Some (set out p v)
                 end)
              (combine (seq 0 8) (firstn 8 l))
              (Some (set out (len_key prefix) (JNum (Num.of_nat (List.length l)))))
        | JObject kvs =>
            fold_left
              (fun (acc : option record) (kv : string * json) =>
                 let '(k, v) := kv in
                 match acc with
                 | None => None
                 | Some out =>
                     let p := field_key prefix k in
                     if truthy v && typeof_object v
                     then flattenObject_fuel fuel' depthLimit v p out
                     else Some (set out p v)
                 end)
              kvs (Some out)
        | _ => Some (set out (prefix_or_value prefix) obj)
        end
  end.

(** The nesting height of a value: the fuel that is enough. *)
Fixpoint height (v : json) : nat :=
  match v with
  | JArray l => S (fold_right (fun x h => Nat.max (height x) h) O l)
  | JObject kvs => S (fold_right (fun kv h => Nat.max (height (snd kv)) h) O kvs)
  | _ => 1%nat
  end.

(** ** Number and cell formatting *)

Definition num_1e3 : Num.number := Num.of_Z 1000.
Definition num_1e6 : Num.number := Num.of_Z 1000000.
Definition num_1e9 : Num.number := Num.of_Z 1000000000.

Definition formatNumber (n : Num.number) : string :=
  let abs := Num.abs n in
  if Num.geb abs num_1e9 then Num.toFixed 2 (Num.div n num_1e9) ++ "B"
  else if Num.geb abs num_1e6 then Num.toFixed 2 (Num.div n num_1e6) ++ "M"
  else if Num.geb abs num_1e3 then Num.toFixed 2 (Num.div n num_1e3) ++ "k"
  else
    match Num.integer_value n with
    | Some i => Num.integer_toLocaleString i
    | None => Num.toFixed 2 n
    end.

(** The text of a number to two decimals, as the specification words it:
    the nearest hundredth to the magnitude, halves upwards, written as the
    whole part, a point and two digits, after a minus sign for a negative
    number that is not zero. *)
Definition hundredths (x : Num.number) : Z :=
  Qfloor (100 * Qabs (Num.value x) + (1 # 2)).

Definition two_decimals (x : Num.number) : string :=
  let k := hundredths x in
  (match x with S754_finite true _ _ => "-" | _ => "" end)
  ++ Num.dec (k / 100) ++ "." ++ Num.dec (k / 10 mod 10) ++ Num.dec (k mod 10).

(** The sign bit of a number. *)
Definition negative (x : Num.number) : bool :=
  match x with
  | S754_zero s | S754_infinity s | S754_finite s _ _ => s
  | S754_nan => false
  end.

Definition hex_digit (n : nat) : string :=
  substring n 1 "0123456789abcdef".

(** A string between double quotes, escaped as [JSON.stringify] escapes. *)
Fixpoint quote_chars (s : string) : string :=
  match s with
  | EmptyString => ""
  | String c s' =>
      let n := nat_of_ascii c in
      (if (n =? 34)%nat then "\" ++ String c ""
       else if (n =? 92)%nat then "\\"
       else if (n =? 8)%nat then "\b"
       else if (n =? 9)%nat then "\t"
       else if (n =? 10)%nat then "\n"
       else if (n =? 12)%nat then "\f"
       else if (n =? 13)%nat then "\r"
       else if (n <? 32)%nat
            then "\u00" ++ hex_digit (n / 16) ++ hex_digit (n mod 16)
       else String c "")
      ++ quote_chars s'
  end.

Definition quote (s : string) : string :=
  String (ascii_of_nat 34) (quote_chars s ++ String (ascii_of_nat 34) "").

(** [JSON.stringify(v)] *)
Fixpoint JSON_stringify (v : json) : string :=
  match v with
  | JNull => "null"
  | JBool b => if b then "true" else "false"
  | JNum n => if Num.isFinite n then Num.to_string n else "null"
  | JStr s => quote s
  | JArray l => "[" ++ join "," (map JSON_stringify l) ++ "]"
  | JObject kvs =>
      "{" ++ join "," (map (fun kv => quote (fst kv) ++ ":" ++ JSON_stringify (snd kv)) kvs)
      ++ "}"
  end.

(** [String(f)] for a built-in function [f], as V8 prints it. *)
Definition native_text (name : string) : string :=
  "function " ++ name ++ "() { [native code] }".

(** [JSON.stringify] of a built-in prototype: an object without enumerable
    properties, an empty array, and the wrappers of [""], [0] and [false]. *)
Definition stringify_builtin (b : builtin) : string :=
  match b with
  | BObject => "{}"
  | BArray => "[]"
  | BString => String (ascii_of_nat 34) (String (ascii_of_nat 34) "")
  | BNumber => "0"
  | BBoolean => "false"
  end.

(** [String] of a built-in prototype. *)
Definition builtin_text (b : builtin) : string :=
  match b with
  | BObject => "[object Object]"
  | BArray | BString => ""
  | BNumber => "0"
  | BBoolean => "false"
  end.

(** [formatVal(v)]; [None] is [undefined] *)
Definition formatVal (v : option js_value) : string :=
  match v with
  | None | Some (Data JNull) => ""
  | Some (Data (JNum n)) => formatNumber n
  | Some (Data (JArray l)) => JSON_stringify (JArray l)
  | Some (Data (JObject kvs)) => JSON_stringify (JObject kvs)
  | Some (Data v) => to_String v
  | Some (Native name) => native_text name
  | Some (Builtin b) => stringify_builtin b
  end.

(** ** The numeric extractor *)

Record pair : Type := { label : string; value : Num.number }.

(** [typeof v === "number" ? v : (typeof v === "string" ? Number(v) : NaN)] *)
Definition numeric (v : json) : Num.number :=
  match v with
  | JNum n => n
  | JStr s => Num.of_string s
  | _ => Num.NaN
  end.

(** The loop over [Object.entries(flat)] that fills [pairs]. *)
Fixpoint numeric_pairs (es : list (string * json)) : list pair :=
  match es with
  | [] => []
  | (k, v) :: es' =>
      let num := numeric v in
      if negb (Num.isFinite num) then numeric_pairs es'
      else if Num.eqb (Num.abs num) Num.zero then numeric_pairs es'
      else {| label := k; value := num |} :: numeric_pairs es'
  end.

(** [(a, b) => Math.abs(b.value) - Math.abs(a.value)] *)
Definition by_magnitude (a b : pair) : Num.number :=
  Num.sub (Num.abs (value b)) (Num.abs (value a)).

(** [Array.prototype.sort(cmp)]: a stable sort; [a] stays before a later [b]
    unless [cmp(a, b) > 0]. *)
Section Sort.

Context {A : Type} (cmp : A -> A -> Num.number).

Fixpoint sort_insert (x : A) (l : list A) : list A :=
  match l with
  | [] => [x]
  | y :: l' =>
      if Num.gtb (cmp x y) Num.zero then y :: sort_insert x l' else x :: l
  end.

Definition sort (l : list A) : list A := fold_right sort_insert [] l.

End Sort.

Definition findNumericPairs (data : json) : list pair :=
  let flat := flatten data in
  let pairs := numeric_pairs (entries (own flat)) in
  firstn 12 (sort by_magnitude pairs).

(** ** The summary builder *)

(** Truthiness of what a property read returns; [undefined] is falsy,
    functions and objects are truthy. *)
Definition truthy_opt (o : option js_value) : bool :=
  match o with
  | Some (Data v) => truthy v
  | Some _ => true
  | None => false
  end.

(** [a || b] *)
Definition or_else (a b : option js_value) : option js_value :=
  if truthy_opt a then a else b.

(** [String(v)], [undefined] included *)
Definition to_String_opt (o : option js_value) : string :=
  match o with
  | Some (Data v) => to_String v
  | Some (Native name) => native_text name
  | Some (Builtin b) => builtin_text b
  | None => "undefined"
  end.

(** [data[0] || {}] for an array [data] *)
Definition first_or_empty (l : list json) : json :=
  match l with
  | v :: _ => if truthy v then v else JObject []
  | [] => JObject []
  end.

(** [n.toLocaleString()] for a length [n] *)
Definition length_toLocaleString (n : nat) : string :=
  Num.integer_toLocaleString (false, Z.of_nat n).

(** The summary items, each a label and a value. *)
Definition computeSummary (data : json) : list (string * json) :=
  let out :=
    match data with
    | JArray l =>
        [("Items", JStr (length_toLocaleString (List.length l)));
         ("Fields (sample)",
          JNum (Num.of_nat
                  (List.length (keys (own (flatten (first_or_empty l)))))));
         ("Type", JStr "Array")]
    | _ =>
        if truthy data && typeof_object data then
          [("Fields",
            JStr (length_toLocaleString
                    (List.length (keys (own (flatten data))))));
           ("Type", JStr "Object")]
        else [("Type", JStr (typeof data))]
    end in
  let flat := flatten data in
  let suburb :=
    or_else (or_else (or_else (read flat "suburb") (read flat "name"))
               (read flat "area")) (Some (Data (JStr ""))) in
  if truthy_opt suburb
  then (out ++ [("Context", JStr (substring 0 48 (to_String_opt suburb)))])%list
  else out.

(** ** The table *)

(** [Object.keys(v)] of a value: the fields of an object, the indices of an
    array or of a string. *)
Definition own_keys (v : json) : list string :=
  match v with
  | JObject kvs => map fst kvs
  | JArray l => map nat_text (seq 0 (List.length l))
  | JStr s => map nat_text (seq 0 (String.length s))
  | _ => []
  end.

(** [row?.[c]]: [undefined] for [null], an own property of [row], or what
    the prototype chain of [row] has under [c]. *)
Definition prop (row : json) (c : string) : option js_value :=
  match row with
  | JNull => None
  | _ =>
      match own_property row c with
      | Some v => Some (Data v)
      | None => chain (kind row) (Builtin (kind row)) c
      end
  end.

(** [colsSet.add(k)] *)
Definition set_add (s : list string) (k : string) : list string :=
  if existsb (String.eqb k) s then s else (s ++ [k])%list.

(** [row || {}] *)
Definition row_or_empty (row : json) : json :=
  if truthy row then row else JObject [].

(** What [renderTable] puts in the table: the header cells, the text of the
    body cells row by row, and the note. *)
Record table : Type :=
  { columns : list string; rows : list (list string); note : string }.

Definition sample_size : nat := 40.

(** The columns of an array: the keys of the first 40 rows. *)
Definition table_columns (data : list json) : list string :=
  fold_left (fun s row => fold_left set_add (own_keys (row_or_empty row)) s)
    (firstn sample_size data) [].

(** [renderTable(data)]; [None] when the table section is hidden. *)
Definition renderTable (data : json) : option table :=
  match data with
  | JArray l =>
      let cols := table_columns l in
      Some {| columns := cols;
              rows := map (fun row => map (fun c => formatVal (prop row c)) cols) l;
              note := "Showing " ++ length_toLocaleString (List.length l)
                      ++ " rows, " ++ nat_text (List.length cols) ++ " columns." |}
  | _ =>
      if truthy data && typeof_object data then
        let flat := flattenObject 2 data "" empty in
        Some {| columns := ["key"; "value"];
                rows := map (fun kv => [fst kv; formatVal (Some (Data (snd kv)))])
                          (entries (own flat));
                note := nat_text (List.length (keys (own flat)))
                        ++ " fields. Nested collections are flattened." |}
      else None
  end.

(** ** Definitions used to state and prove the properties *)

(** The two loops of [flattenObject], by name. *)
Section Loops.

Variable summ : json -> string.
Variable depthLimit : Z.
Variable prefix : string.

Fixpoint each_elem (vs : list json) (i : nat) (out : record) : record :=
  match vs with
  | [] => out
  | v :: vs' =>
      if (i <? 8)%nat then
        let p := elem_key prefix i in
        each_elem vs' (S i)
          (if typeof_object v && negb (is_null v)
           then flattenObject_with summ depthLimit v p out
           else set out p v)
      else out
  end.

Fixpoint each_field (kvs : list (string * json)) (out : record) : record :=
  match kvs with
  | [] => out
  | (k, v) :: kvs' =>
      let p := field_key prefix k in
      each_field kvs'
        (if truthy v && typeof_object v
         then flattenObject_with summ depthLimit v p out
         else set out p v)
  end.

End Loops.

(** [null_at d v p q]: flattening [v] under the prefix [p] with depth limit
    [d] meets, in an object or array it expands (at any nesting), a [null]
    field or a [null] among the first eight elements, whose path is [q]. *)
Inductive null_at (d : Z) : json -> string -> string -> Prop :=
| null_field p kvs k :
    (depth p >=? d) = false -> In (k, JNull) kvs ->
    null_at d (JObject kvs) p (field_key p k)
| null_element p l i :
    (depth p >=? d) = false -> nth_error l i = Some JNull -> (i < 8)%nat ->
    null_at d (JArray l) p (elem_key p i)
| null_below_field p kvs k v q :
    (depth p >=? d) = false -> In (k, v) kvs -> is_container v = true ->
    null_at d v (field_key p k) q ->
    null_at d (JObject kvs) p q
| null_below_element p l i v q :
    (depth p >=? d) = false -> nth_error l i = Some v -> (i < 8)%nat ->
    is_container v = true ->
    null_at d v (elem_key p i) q ->
    null_at d (JArray l) p q.

(** Values built from arrays and scalars only. *)
Fixpoint arrays_only (v : json) : bool :=
  match v with
  | JObject _ => false
  | JArray l => forallb arrays_only l
  | _ => true
  end.

(** Every number in a value passes a test. *)
Fixpoint all_numbers (ok : Num.number -> bool) (v : json) : bool :=
  match v with
  | JNum n => ok n
  | JArray l => forallb (all_numbers ok) l
  | JObject kvs => forallb (fun kv => all_numbers ok (snd kv)) kvs
  | _ => true
  end.

(** Every number in a value is a binary64 number: a canonical mantissa of
    at most 53 bits and an exponent in range. *)
Definition json_valid (v : json) : bool :=
  all_numbers (valid_binary Num.prec Num.emax) v.

(** The least exponent of a binary64 number. *)
Definition emin : Z := -1074.

(** A finite number has an exponent of at least [emin] (as every binary64
    number has). *)
Definition exp_ok (x : Num.number) : bool :=
  match x with
  | S754_finite _ _ e => emin <=? e
  | _ => true
  end.

(** A finite, non-zero number with an exponent of at least [emin]. *)
Definition finite_ok (x : Num.number) : bool :=
  match x with
  | S754_finite _ _ e => emin <=? e
  | _ => false
  end.

(** The sign class of a number: positive (and not zero), or not. *)
Definition positive_number (x : Num.number) : bool :=
  match x with
  | S754_finite false _ _ | S754_infinity false => true
  | _ => false
  end.

(** The magnitude of a pair: the absolute value of its number. *)
Definition magnitude (p : pair) : Q := Qabs (Num.value (value p)).

(** Non-increasing magnitudes along a list of pairs. *)
Fixpoint descending (l : list pair) : Prop :=
  match l with
  | [] => True
  | a :: l' =>
      match l' with
      | [] => True
      | b :: _ => (magnitude b <= magnitude a)%Q
      end /\ descending l'
  end.

(** The pairs of a given magnitude. *)
Definition of_magnitude (q : Q) (l : list pair) : list pair :=
  filter (fun p => Qeq_bool (magnitude p) q) l.

(** The first of the values that is truthy. *)
Fixpoint first_truthy (l : list (option json)) : option json :=
  match l with
  | [] => None
  | Some v :: l' => if truthy v then Some v else first_truthy l'
  | None :: l' => first_truthy l'
  end.

(** The prototype of a record is [Object.prototype] or [null], and not a
    value of the data. *)
Definition plain_prototype (r : record) : Prop :=
  match proto r with ValuePrototype _ => False | _ => True end.

(** Does a value find the name [c] on its prototype chain? *)
Definition inherits (row : json) (c : string) : bool :=
  match chain (kind row) (Builtin (kind row)) c with
  | Some _ => true
  | None => false
  end.

(** The names an object inherits from [Object.prototype]. *)
Definition object_prototype_names : list string :=
  ["constructor"; "__proto__"; "__defineGetter__"; "__defineSetter__";
   "hasOwnProperty"; "__lookupGetter__"; "__lookupSetter__"; "isPrototypeOf";
   "propertyIsEnumerable"; "toString"; "valueOf"; "toLocaleString"].

(** The keys seen in the sampled rows of an array, in the order the loop of
    [renderTable] meets them. *)
Definition sampled_keys (data : list json) : list string :=
  flat_map (fun row => own_keys (row_or_empty row)) (firstn sample_size data).

(** An entry that holds a leaf. *)
Definition leaf_entry (kv : string * json) : Prop :=
  is_container (snd kv) = false.

(** Flattening [v] under a prefix leaves alone every key that does not start
    with the prefix. *)
Definition writes_under (summ : json -> string) (d : Z) (v : json) : Prop :=
  forall p out k, (forall rest, k <> p ++ rest) ->
  get (own (flattenObject_with summ d v p out)) k = get (own out) k.

(** Every number of a record has an exponent in range. *)
Definition numbers_in_range (r : record) : Prop :=
  Forall (fun kv => all_numbers exp_ok (snd kv) = true) (own r).

(** A pair as [findNumericPairs] keeps them: finite, not zero. *)
Definition pair_ok (p : pair) : Prop := finite_ok (value p) = true.


(** ** Induction on JSON values *)

Section JsonInd.

Variable P : json -> Prop.
Hypothesis Hnull : P JNull.
Hypothesis Hbool : forall b, P (JBool b).
Hypothesis Hnum : forall n, P (JNum n).
Hypothesis Hstr : forall s, P (JStr s).
Hypothesis Harray : forall l, Forall P l -> P (JArray l).
Hypothesis Hobject : forall kvs, Forall (fun kv => P (snd kv)) kvs -> P (JObject kvs).

Fixpoint json_ind (v : json) : P v :=
  match v with
  | JNull => Hnull
  | JBool b => Hbool b
  | JNum n => Hnum n
  | JStr s => Hstr s
  | JArray l =>
      Harray l
        ((fix all (l : list json) : Forall P l :=
            match l with
            | [] => Forall_nil P
            | x :: l' => Forall_cons x (json_ind x) (all l')
            end) l)
  | JObject kvs =>
      Hobject kvs
        ((fix all (kvs : list (string * json))
            : Forall (fun kv => P (snd kv)) kvs :=
            match kvs with
            | [] => Forall_nil _
            | kv :: kvs' => Forall_cons kv (json_ind (snd kv)) (all kvs')
            end) kvs)
  end.

End JsonInd.

(** ** Sample values *)

Definition num (z : Z) : json := JNum (Num.of_Z z).

(** [[{a:1,b:2},{a:3,c:4}]] *)
Definition sample_rows : list json :=
  [JObject [("a", num 1); ("b", num 2)]; JObject [("a", num 3); ("c", num 4)]].

(** [{suburb: "Testville", population: 1000}] *)
Definition sample_suburb : json :=
  JObject [("suburb", JStr "Testville"); ("population", num 1000)].

(** [{a: [{f1: 1, ..., f9: 9}]}]: an array of one object with nine fields *)
Definition sample_wide_element : json :=
  JObject
    [("a",
      JArray
        [JObject
           [("f1", num 1); ("f2", num 2); ("f3", num 3); ("f4", num 4);
            ("f5", num 5); ("f6", num 6); ("f7", num 7); ("f8", num 8);
            ("f9", num 9)]])].

(** [[[[[[[1]]]]]]]: six arrays around a number *)
Definition sample_nested_arrays : json :=
  JArray [JArray [JArray [JArray [JArray [JArray [num 1]]]]]].

(** [{a: 3, b: -7, c: "42.5", d: "hello", e: 0, f: 7, g: [7, 100]}] *)
Definition sample_numbers : json :=
  JObject
    [("a", num 3); ("b", num (-7)); ("c", JStr "42.5"); ("d", JStr "hello");
     ("e", num 0); ("f", num 7); ("g", JArray [num 7; num 100])].

(** ** Further definitions: the rest of the page *)

(** Field names without a ['.'], at every level of a value. *)
Fixpoint plain_keys (v : json) : bool :=
  match v with
  | JArray l => forallb plain_keys l
  | JObject kvs =>
      forallb (fun kv => (depth (fst kv) =? 0) && plain_keys (snd kv)) kvs
  | _ => true
  end.

(** How many separators the path of a container nested in a value can have
    beyond those of the value's own path: the most over the containers the
    walk meets, in the fields of objects and the first 8 elements of
    arrays.  A field adds a separator and those of its name, except under
    an empty path ([top]), where the name is the whole path; an element
    adds none, and its path is never empty. *)
Fixpoint need (top : bool) (v : json) : Z :=
  match v with
  | JArray l =>
      (fix each (vs : list json) (i : nat) {struct vs} : Z :=
         match vs with
         | [] => 0
         | x :: vs' =>
             if (i <? 8)%nat then Z.max (need false x) (each vs' (S i))
             else 0
         end) l 0%nat
  | JObject kvs =>
      fold_right
        (fun kv m =>
           Z.max (if is_container (snd kv)
                  then (if top then 0 else 1) + depth (fst kv)
                       + need (top && negb (nonempty (fst kv))) (snd kv)
                  else 0) m)
        0 kvs
  | _ => 0
  end.

(** The loop of [need] over the elements of an array, by name. *)
Fixpoint need_each (vs : list json) (i : nat) : Z :=
  match vs with
  | [] => 0
  | x :: vs' =>
      if (i <? 8)%nat then Z.max (need false x) (need_each vs' (S i)) else 0
  end.

(** [{a: {b: 1}}] and [{a: {b: {c: 1}}}] *)
Definition sample_two_levels : json :=
  JObject [("a", JObject [("b", num 1)])].
Definition sample_three_levels : json :=
  JObject [("a", JObject [("b", JObject [("c", num 1)])])].

(** An entry whose key has at most [d] separators. *)
Definition shallow (d : Z) (kv : string * json) : Prop := depth (fst kv) <= d.

(** *** [escapeHtml] and [renderSummary] *)

(** The double quote character. *)
Definition dquote : ascii := ascii_of_nat 34.

(** What [escapeHtml] puts for one character. *)
Definition escape_char (c : ascii) : string :=
  if Ascii.eqb c "&" then "&amp;"
  else if Ascii.eqb c "<" then "&lt;"
  else if Ascii.eqb c ">" then "&gt;"
  else if Ascii.eqb c dquote then "&quot;"
  else if Ascii.eqb c "'" then "&#39;"
  else String c EmptyString.

(** [escapeHtml(s)] for a string [s] *)
Fixpoint escapeHtml (s : string) : string :=
  match s with
  | EmptyString => EmptyString
  | String c s' => escape_char c ++ escapeHtml s'
  end.

(** The characters that open or close markup or an attribute value. *)
Definition markup_char (c : ascii) : bool :=
  (Ascii.eqb c "<" || Ascii.eqb c ">" || Ascii.eqb c dquote
   || Ascii.eqb c "'")%bool.

(** How many times a character occurs in a string. *)
Fixpoint count_char (c : ascii) (s : string) : nat :=
  match s with
  | EmptyString => O
  | String c' s' => ((if Ascii.eqb c' c then 1 else 0) + count_char c s')%nat
  end.

(** The opening tag [<div class="name">]. *)
Definition div_open (name : string) : string :=
  "<div class=" ++ String dquote (name ++ String dquote ">").

(** The line break and the indentation inside the template literal of
    [renderSummary]. *)
Definition card_break : string :=
  String (ascii_of_nat 10) "                     ".

(** The [innerHTML] of the card of one item. *)
Definition card_html (it : string * json) : string :=
  div_open "label" ++ escapeHtml (fst it) ++ "</div>" ++ card_break
  ++ div_open "value" ++ escapeHtml (to_String (snd it)) ++ "</div>".

(** What [renderSummary] leaves on the page: the cards, and whether the
    summary section is hidden. *)
Record summary_view : Type :=
  { cards : list string; summary_hidden : bool }.

Definition renderSummary (items : list (string * json)) : summary_view :=
  {| cards := map card_html items;
     summary_hidden := (List.length items =? 0)%nat |}.

(** The integers from -999 to 999. *)
Definition small_integers : list Z :=
  map (fun n => Z.of_nat n - 999) (seq 0 1999).

(** The plain decimal numeral of an integer. *)
Definition numeral (z : Z) : string := NilZero.string_of_int (Z.to_int z).

(** *** The request URL: [getSlug], [buildUrl] and [copyCurl] *)

Definition USE_PROXY : bool := true.
Definition PROXY_BASE : string := "https://mb-proxy-yourname.workers.dev".
Definition SANDBOX_BASE_DIRECT : string :=
  "https://www.microburbs.com.au/report_generator/api/sandbox/suburb".
Definition PATH_PREFIX : string := "suburb".

(** The characters [encodeURIComponent] leaves as they are: letters, digits
    and [- _ . ! ~ * ' ( )]. *)
Definition unreserved (c : ascii) : bool :=
  let n := nat_of_ascii c in
  ((65 <=? n) && (n <=? 90) || (97 <=? n) && (n <=? 122)
   || (48 <=? n) && (n <=? 57)
   || existsb (Ascii.eqb c) (list_ascii_of_string "-_.!~*'()"))%nat%bool.

Definition hex_upper (n : nat) : string :=
  substring n 1 "0123456789ABCDEF".

(** One octet, percent-encoded. *)
Definition percent (octet : nat) : string :=
  "%" ++ hex_upper (octet / 16) ++ hex_upper (octet mod 16).

(** What [encodeURIComponent] puts for one code unit: the unit itself, or
    the octets of its UTF-8 encoding, one below [U+0080] and two from there
    to [U+00FF]. *)
Definition encode_unit (c : ascii) : string :=
  let n := nat_of_ascii c in
  if unreserved c then String c EmptyString
  else if (n <? 128)%nat then percent n
  else percent (192 + n / 64) ++ percent (128 + n mod 64).

Fixpoint encodeURIComponent (s : string) : string :=
  match s with
  | EmptyString => EmptyString
  | String c s' => encode_unit c ++ encodeURIComponent s'
  end.

(** [s.trim()] *)
Definition trim (s : string) : string :=
  string_of_list_ascii (Num.trim (list_ascii_of_string s)).

(** What the functions read from the form: the text of the suburb field, the
    value of the selected endpoint option, and the text of the custom slug
    field, [None] as long as that field has not been created. *)
Record form : Type :=
  { suburb_value : string;
    endpoint_value : string;
    custom_slug_value : option string }.

Definition getSlug (f : form) : string :=
  let selected := endpoint_value f in
  if String.eqb selected "__custom__" then
    let val :=
      trim (match custom_slug_value f with
            | Some s => if nonempty s then s else ""
            | None => ""
            end) in
    if nonempty val then val else "amenity"
  else selected.

Definition buildUrl (f : form) : string :=
  let suburb :=
    trim (if nonempty (suburb_value f) then suburb_value f else "") in
  let slug := getSlug f in
  if USE_PROXY && nonempty PROXY_BASE then
    PROXY_BASE ++ "/" ++ PATH_PREFIX ++ "/" ++ encodeURIComponent slug
    ++ "?suburb=" ++ encodeURIComponent suburb
  else
    SANDBOX_BASE_DIRECT ++ "/" ++ encodeURIComponent slug
    ++ "?suburb=" ++ encodeURIComponent suburb.

(** The command [copyCurl] puts on the clipboard. *)
Definition copyCurl (f : form) : string :=
  join " " ["curl"; "-s";
            String dquote (buildUrl f ++ String dquote EmptyString)].

(** Every character of a string satisfies a test. *)
Fixpoint all_chars (P : ascii -> bool) (s : string) : bool :=
  match s with
  | EmptyString => true
  | String c s' => P c && all_chars P s'
  end.

(** The characters of an encoded component. *)
Definition component_char (c : ascii) : bool :=
  unreserved c || Ascii.eqb c "%".

(** The value of a hexadecimal digit in upper case. *)
Definition hex_value (c : ascii) : nat :=
  let n := nat_of_ascii c in
  if (n <? 58)%nat then (n - 48)%nat else (n - 55)%nat.

(** The octet at the head of a string that starts with [%XY], and what
    follows it. *)
Definition read_octet (s : string) : option (nat * string) :=
  match s with
  | String p (String a (String b rest)) =>
      if Ascii.eqb p "%" then Some ((16 * hex_value a + hex_value b)%nat, rest)
      else None
  | _ => None
  end.

(** Reading back the code unit at the head of an encoded component: the
    inverse of [encode_unit], used to show that encoding loses nothing. *)
Definition decode_unit (s : string) : option (ascii * string) :=
  match s with
  | EmptyString => None
  | String c rest =>
      if Ascii.eqb c "%" then
        match read_octet s with
        | Some (o, rest1) =>
            if (o <? 128)%nat then Some (ascii_of_nat o, rest1)
            else
              match read_octet rest1 with
              | Some (o', rest2) =>
                  Some (ascii_of_nat ((o - 192) * 64 + (o' - 128)), rest2)
              | None => None
              end
        | None => None
        end
      else Some (c, rest)
  end.

(** The characters of a request URL: those of an encoded component and the
    delimiters [: / ? =]. *)
Definition url_char (c : ascii) : bool :=
  component_char c
  || existsb (Ascii.eqb c) (list_ascii_of_string ":/?=").

(** *** The bar chart *)

Definition leftPad : Z := 180.
Definition rightPad : Z := 16.
Definition topPad : Z := 16.
Definition rowH : Z := 22.
Definition gap : Z := 8.

(** The label drawn for a key: the key, or its first 31 code units followed
    by an ellipsis (the flag) when it has more than 34. *)
Definition chart_label (s : string) : string * bool :=
  if (34 <? String.length s)%nat then (substring 0 31 s, true)
  else (s, false).

(** One bar: the corner and the height of its rectangle, its colour, the
    label drawn on its left and the text drawn on its right.  The width of
    the rectangle depends on the width of the page and is not part of the
    model. *)
Record bar : Type :=
  { bar_x : Z;
    bar_y : Z;
    bar_height : Z;
    bar_color : string;
    bar_label : string * bool;
    bar_text : string }.

(** What [renderChart] draws: the note, the height of the canvas and the
    bars from top to bottom. *)
Record chart : Type :=
  { chart_note : string; chart_height : Z; bars : list bar }.

(** The body of [pairs.forEach((p, i) => ...)]. *)
Definition draw_bar (i : nat) (p : pair) : bar :=
  let y := topPad + Z.of_nat i * (rowH + gap) in
  {| bar_x := leftPad;
     bar_y := y;
     bar_height := rowH;
     bar_color :=
       if Num.geb (value p) Num.zero then "#5b9cff" else "#ff8b5b";
     bar_label := chart_label (label p);
     bar_text := formatNumber (value p) |}.

Fixpoint draw_bars (i : nat) (pairs : list pair) : list bar :=
  match pairs with
  | [] => []
  | p :: pairs' => draw_bar i p :: draw_bars (S i) pairs'
  end.

(** [renderChart(pairs)]; [None] when the chart section is hidden. *)
Definition renderChart (pairs : list pair) : option chart :=
  if (List.length pairs =? 0)%nat then None
  else
    Some {| chart_note :=
              "Top " ++ nat_text (List.length pairs)
              ++ " numeric fields by magnitude (auto-detected).";
            chart_height :=
              topPad + (rowH + gap) * Z.of_nat (List.length pairs) + 12;
            bars := draw_bars 0 pairs |}.

(** The number of code units a drawn label has. *)
Definition label_length (l : string * bool) : nat :=
  (String.length (fst l) + (if snd l then 1 else 0))%nat.

(** The slugs of [endpointOptions], in the order of the dropdown. *)
Definition endpoint_slugs : list string :=
  ["amenity"; "demographics"; "ethnicity"; "market-insights";
   "market-insights-by-pocket"; "market-insights-by-street"; "risk-factors";
   "school-catchments"; "schools"; "similar-suburbs"; "suburb-information";
   "summary"; "zoning"; "__custom__"].

(** * Properties *)

(** ** Unfolding [flattenObject] *)

Lemma flattenObject_with_null summ d p out :
  flattenObject_with summ d JNull p out = out.
Proof. reflexivity. Qed.

Lemma flattenObject_with_limit summ d v p out :
  is_null v = false -> (depth p >=? d) = true ->
  flattenObject_with summ d v p out =
  set out (prefix_or_value p) (JStr (summ v)).
Proof. intros Hv Hd. destruct v; simpl in *; try discriminate; now rewrite Hd. Qed.

Lemma flattenObject_with_array summ d l p out :
  (depth p >=? d) = false ->
  flattenObject_with summ d (JArray l) p out =
  each_elem summ d p l 0
    (set out (len_key p) (JNum (Num.of_nat (List.length l)))).
Proof.
  intros Hd.
  change (flattenObject_with summ d (JArray l) p out)
    with (if depth p >=? d
          then set out (prefix_or_value p) (JStr (summ (JArray l)))
          else each_elem summ d p l 0
                 (set out (len_key p) (JNum (Num.of_nat (List.length l))))).
  now rewrite Hd.
Qed.

Lemma flattenObject_with_object summ d kvs p out :
  (depth p >=? d) = false ->
  flattenObject_with summ d (JObject kvs) p out = each_field summ d p kvs out.
Proof.
  intros Hd.
  change (flattenObject_with summ d (JObject kvs) p out)
    with (if depth p >=? d
          then set out (prefix_or_value p) (JStr (summ (JObject kvs)))
          else each_field summ d p kvs out).
  now rewrite Hd.
Qed.

Lemma flattenObject_with_scalar summ d v p out :
  typeof_object v = false -> (depth p >=? d) = false ->
  flattenObject_with summ d v p out = set out (prefix_or_value p) v.
Proof. intros Hv Hd. destruct v; simpl in *; try discriminate; now rewrite Hd. Qed.

(** A scalar is written under the prefix, as itself or as its summary: both
    branches of the depth test are a single write. *)
Ltac scalar_write :=
  match goal with
  | |- context [flattenObject_with _ ?d _ ?p _] =>
      cbn [flattenObject_with]; destruct (depth p >=? d)
  end.

(** ** Termination: the general-recursive function returns *)

Lemma height_pos v : (1 <= height v)%nat.
Proof. destruct v; simpl; lia. Qed.

Lemma fold_elems_fuel fuel d p l :
  Forall (fun v => forall fuel d p out, (height v <= fuel)%nat ->
            flattenObject_fuel fuel d v p out = Some (flattenObject d v p out)) l ->
  Forall (fun v => (height v <= fuel)%nat) l ->
  forall k i out, (i + k = 8)%nat ->
  fold_left
    (fun (acc : option record) (iv : nat * json) =>
       let '(i, v) := iv in
       match acc with
       | None => None
       | Some out =>
           let p := elem_key p i in
           if typeof_object v && negb (is_null v)
           then flattenObject_fuel fuel d v p out
           else Some (set out p v)
       end)
    (combine (seq i k) (firstn k l)) (Some out)
  = Some (each_elem summarize d p l i out).
Proof.
  intros IH Hh. induction l as [|v l IHl]; intros k i out Hik.
  - rewrite firstn_nil. destruct (seq i k); reflexivity.
  - inversion IH as [|? ? IHv IHl']; subst.
    inversion Hh as [|? ? Hv Hl']; subst.
    destruct k as [|k].
    + simpl. replace (i <? 8)%nat with false by (symmetry; apply Nat.ltb_ge; lia).
      reflexivity.
    + simpl. replace (i <? 8)%nat with true by (symmetry; apply Nat.ltb_lt; lia).
      destruct (typeof_object v && negb (is_null v)).
      * rewrite (IHv fuel d (elem_key p i) out Hv).
        apply IHl; auto. lia.
      * apply IHl; auto. lia.
Qed.

Lemma fold_fields_fuel fuel d p kvs :
  Forall (fun kv => forall fuel d p out, (height (snd kv) <= fuel)%nat ->
            flattenObject_fuel fuel d (snd kv) p out
            = Some (flattenObject d (snd kv) p out)) kvs ->
  Forall (fun kv => (height (snd kv) <= fuel)%nat) kvs ->
  forall out,
  fold_left
    (fun (acc : option record) (kv : string * json) =>
       let '(k, v) := kv in
       match acc with
       | None => None
       | Some out =>
           let p := field_key p k in
           if truthy v && typeof_object v
           then flattenObject_fuel fuel d v p out
           else Some (set out p v)
       end)
    kvs (Some out)
  = Some (each_field summarize d p kvs out).
Proof.
  intros IH Hh. induction kvs as [|[k v] kvs IHl]; intros out.
  - reflexivity.
  - inversion IH as [|? ? IHv IHl']; subst.
    inversion Hh as [|? ? Hv Hl']; subst.
    simpl in *.
    destruct (truthy v && typeof_object v).
    + rewrite (IHv fuel d (field_key p k) out Hv). now apply IHl.
    + now apply IHl.
Qed.

Lemma height_elems l fuel :
  (fold_right (fun x h => Nat.max (height x) h) O l <= fuel)%nat ->
  Forall (fun v => (height v <= fuel)%nat) l.
Proof.
  induction l as [|x l IH]; simpl; intros H; constructor.
  - lia.
  - apply IH. lia.
Qed.

Lemma height_fields (kvs : list (string * json)) fuel :
  (fold_right (fun kv h => Nat.max (height (snd kv)) h) O kvs <= fuel)%nat ->
  Forall (fun kv => (height (snd kv) <= fuel)%nat) kvs.
Proof.
  induction kvs as [|x l IH]; simpl; intros H; constructor.
  - lia.
  - apply IH. lia.
Qed.

Lemma flattenObject_fuel_enough v :
  forall fuel d p out, (height v <= fuel)%nat ->
  flattenObject_fuel fuel d v p out = Some (flattenObject d v p out).
Proof.
  induction v using json_ind; intros fuel d p out Hf;
    (destruct fuel as [|fuel]; [pose proof (height_pos JNull); simpl in Hf; lia|]).
  - reflexivity.
  - simpl. unfold flattenObject. simpl. destruct (depth p >=? d); reflexivity.
  - simpl. unfold flattenObject. simpl. destruct (depth p >=? d); reflexivity.
  - simpl. unfold flattenObject. simpl. destruct (depth p >=? d); reflexivity.
  - unfold flattenObject.
    destruct (depth p >=? d) eqn:Hd.
    + rewrite flattenObject_with_limit by auto. simpl. now rewrite Hd.
    + rewrite flattenObject_with_array by auto.
      cbn [flattenObject_fuel is_null]. rewrite Hd.
      apply fold_elems_fuel; auto.
      apply height_elems. simpl in Hf. lia.
  - unfold flattenObject.
    destruct (depth p >=? d) eqn:Hd.
    + rewrite flattenObject_with_limit by auto. simpl. now rewrite Hd.
    + rewrite flattenObject_with_object by auto.
      cbn [flattenObject_fuel is_null]. rewrite Hd.
      apply fold_fields_fuel; auto.
      apply height_fields. simpl in Hf. lia.
Qed.

(** C3. [flattenObject], run as the source writes it, returns a record for
    every JSON value, every depth limit, every prefix and every accumulator:
    a nesting of calls as deep as the value is high is enough, whatever the
    depth limit, so arrays nested beyond the limit are walked to the end. *)
Theorem flattenObject_total :
  forall (v : json) (depthLimit : Z) (prefix : string) (out : record)
         (extra : nat),
    flattenObject_fuel (height v + extra) depthLimit v prefix out
    = Some (flattenObject depthLimit v prefix out).
Proof.
  intros. apply flattenObject_fuel_enough. lia.
Qed.

(** ** Strings and records *)

Lemma append_nil_r (s : string) : s ++ "" = s.
Proof. induction s; simpl; congruence. Qed.

Lemma append_assoc (a b c : string) : (a ++ b) ++ c = a ++ (b ++ c).
Proof. induction a; simpl; congruence. Qed.

Lemma append_inj_l (p a b : string) : p ++ a = p ++ b -> a = b.
Proof. induction p; simpl; intros H; [assumption | injection H; auto]. Qed.

Lemma depth_app (a b : string) : depth (a ++ b) = depth a + depth b.
Proof. induction a; simpl; lia. Qed.

Lemma count_char_app c a b :
  count_char c (a ++ b) = (count_char c a + count_char c b)%nat.
Proof. induction a; simpl; lia. Qed.

Lemma len_key_not_proto p : len_key p <> "__proto__".
Proof.
  intros H. apply (f_equal (count_char "l")) in H.
  unfold len_key in H. destruct (nonempty p).
  - rewrite count_char_app in H. simpl in H. lia.
  - discriminate H.
Qed.

Lemma elem_key_not_proto p i : elem_key p i <> "__proto__".
Proof.
  intros H. apply (f_equal (count_char "[")) in H.
  unfold elem_key in H. destruct (nonempty p).
  - rewrite count_char_app in H. simpl in H. lia.
  - simpl in H. lia.
Qed.

Lemma get_define_same r k v : get (define r k v) k = Some v.
Proof.
  induction r as [|[k' v'] r IH]; simpl.
  - now rewrite String.eqb_refl.
  - destruct (String.eqb k' k) eqn:E; simpl; rewrite E; auto.
Qed.

Lemma get_define_other r k v k' :
  k' <> k -> get (define r k v) k' = get r k'.
Proof.
  intros Hk. induction r as [|[k0 v0] r IH]; simpl.
  - destruct (String.eqb_spec k k'); congruence.
  - destruct (String.eqb_spec k0 k); simpl.
    + subst. destruct (String.eqb_spec k k'); congruence.
    + destruct (String.eqb_spec k0 k'); congruence.
Qed.

Lemma define_key_in r k v : In k (map fst (define r k v)).
Proof.
  induction r as [|[k' v'] r IH]; simpl; auto.
  destruct (String.eqb_spec k' k); simpl; auto.
Qed.

Lemma define_keys_mono r k v k' :
  In k' (map fst r) -> In k' (map fst (define r k v)).
Proof.
  induction r as [|[k0 v0] r IH]; simpl; [tauto|].
  destruct (String.eqb_spec k0 k); simpl; tauto.
Qed.

Lemma define_length r k v :
  (List.length (define r k v) <= S (List.length r))%nat.
Proof.
  induction r as [|[k0 v0] r IH]; simpl; auto.
  destruct (String.eqb k0 k); simpl; lia.
Qed.

Lemma define_Forall (Q : string * json -> Prop) r k v :
  Forall Q r -> (forall k', Q (k', v)) -> Forall Q (define r k v).
Proof.
  intros Hr Hv. induction Hr as [|[k0 v0] r H0 Hr IH]; simpl.
  - constructor; auto.
  - destruct (String.eqb k0 k); constructor; auto.
Qed.

(** A write either stores an own property or leaves the own properties as
    they are (the setter of [__proto__] ran). *)
Lemma set_own r k v :
  own (set r k v) = define (own r) k v
  \/ (k = "__proto__" /\ get (own r) k = None /\ own (set r k v) = own r).
Proof.
  unfold set, set_prototype.
  destruct (String.eqb_spec k "__proto__") as [->|_]; [|now left].
  destruct (get (own r) "__proto__") eqn:Hg; [now left|].
  destruct (proto r) as [| |p]; [|now left|].
  - destruct v; simpl; auto.
  - destruct (own_property p "__proto__"); [now left|].
    destruct v; simpl; auto.
Qed.

(** Under any other key than [__proto__], a write stores an own property and
    leaves the prototype alone. *)
Lemma set_stored r k v :
  k <> "__proto__" ->
  set r k v = {| own := define (own r) k v; proto := proto r |}.
Proof.
  intros Hk. unfold set.
  destruct (String.eqb_spec k "__proto__"); [contradiction|reflexivity].
Qed.

Lemma get_set_same r k v :
  k <> "__proto__" -> get (own (set r k v)) k = Some v.
Proof.
  intros Hk. rewrite set_stored by assumption. apply get_define_same.
Qed.

Lemma get_set_other r k v k' :
  k' <> k -> get (own (set r k v)) k' = get (own r) k'.
Proof.
  intros Hk. destruct (set_own r k v) as [-> | [_ [_ ->]]]; auto.
  now apply get_define_other.
Qed.

Lemma set_key_in r k v :
  k <> "__proto__" -> In k (map fst (own (set r k v))).
Proof.
  intros Hk. rewrite set_stored by assumption. apply define_key_in.
Qed.

Lemma set_keys_mono r k v k' :
  In k' (map fst (own r)) -> In k' (map fst (own (set r k v))).
Proof.
  intros H. destruct (set_own r k v) as [-> | [_ [_ ->]]]; auto.
  now apply define_keys_mono.
Qed.

Lemma set_length r k v :
  (List.length (own (set r k v)) <= S (List.length (own r)))%nat.
Proof.
  destruct (set_own r k v) as [-> | [_ [_ ->]]]; [|lia].
  apply define_length.
Qed.

Lemma set_Forall (Q : string * json -> Prop) r k v :
  Forall Q (own r) -> (forall k', Q (k', v)) -> Forall Q (own (set r k v)).
Proof.
  intros Hr Hv. destruct (set_own r k v) as [-> | [_ [_ ->]]]; auto.
  now apply define_Forall.
Qed.

(** ** Leaves only (C4) *)

Lemma not_expanded_array v :
  typeof_object v && negb (is_null v) = false -> is_container v = false.
Proof. destruct v; simpl; congruence. Qed.

Lemma not_expanded_field v :
  truthy v && typeof_object v = false -> is_container v = false.
Proof. destruct v; simpl; try congruence; intros; reflexivity. Qed.

Lemma all_numbers_true v : all_numbers (fun _ => true) v = true.
Proof.
  induction v as [| b | n | s | l IH | kvs IH] using json_ind; simpl; auto.
  - apply forallb_forall. intros x Hx.
    rewrite Forall_forall in IH. now apply IH.
  - apply forallb_forall. intros x Hx.
    rewrite Forall_forall in IH. now apply IH.
Qed.

(** [flattenObject] changes the record by writing leaves only: leaves of the
    value, lengths and summary strings.  So an invariant of the record that
    such writes preserve is preserved by [flattenObject].  The numbers of the
    value are known to pass the test [okn]. *)
Section Invariant.

Variable okn : Num.number -> bool.
Hypothesis okn_length : forall n, okn (Num.of_nat n) = true.

Variable I : record -> Prop.
Hypothesis I_set :
  forall out k v,
    is_container v = false -> all_numbers okn v = true ->
    I out -> I (set out k v).

Variable summ : json -> string.
Variable d : Z.

Lemma each_elem_inv p l :
  Forall (fun v => all_numbers okn v = true ->
            forall p out, I out -> I (flattenObject_with summ d v p out)) l ->
  forallb (all_numbers okn) l = true ->
  forall i out, I out -> I (each_elem summ d p l i out).
Proof.
  induction 1 as [|v l Hv Hl IHl]; intros Hok i out Hout; simpl; auto.
  simpl in Hok. apply andb_prop in Hok as [Hokv Hok].
  destruct (i <? 8)%nat; auto.
  apply IHl; auto.
  destruct (typeof_object v && negb (is_null v)) eqn:E.
  - now apply Hv.
  - apply I_set; auto. now apply not_expanded_array.
Qed.

Lemma each_field_inv p (kvs : list (string * json)) :
  Forall (fun kv => all_numbers okn (snd kv) = true ->
            forall p out, I out ->
            I (flattenObject_with summ d (snd kv) p out)) kvs ->
  forallb (fun kv => all_numbers okn (snd kv)) kvs = true ->
  forall out, I out -> I (each_field summ d p kvs out).
Proof.
  induction 1 as [|[k v] kvs Hv Hl IHl]; intros Hok out Hout; simpl; auto.
  simpl in Hok. apply andb_prop in Hok as [Hokv Hok].
  apply IHl; auto.
  destruct (truthy v && typeof_object v) eqn:E.
  - now apply Hv.
  - apply I_set; auto. now apply not_expanded_field.
Qed.

Lemma flattenObject_with_inv v :
  all_numbers okn v = true ->
  forall p out, I out -> I (flattenObject_with summ d v p out).
Proof.
  induction v as [| b | n | s | l IH | kvs IH] using json_ind;
    intros Hok p out Hout.
  - assumption.
  - scalar_write; now apply I_set.
  - scalar_write; now apply I_set.
  - scalar_write; now apply I_set.
  - destruct (depth p >=? d) eqn:Hd.
    + rewrite flattenObject_with_limit by auto. now apply I_set.
    + rewrite flattenObject_with_array by auto.
      apply each_elem_inv; auto.
      apply I_set; auto. simpl. apply okn_length.
  - destruct (depth p >=? d) eqn:Hd.
    + rewrite flattenObject_with_limit by auto. now apply I_set.
    + rewrite flattenObject_with_object by auto.
      now apply each_field_inv.
Qed.

End Invariant.

(** C4. Whatever the value, the depth limit and the prefix, every entry of
    the record [flattenObject] returns holds a leaf (a number, a string, a
    boolean or [null]): no array and no object is an entry value. *)
Theorem flattenObject_leaves_only :
  forall (v : json) (depthLimit : Z) (prefix : string),
    Forall (fun kv => is_container (snd kv) = false)
      (own (flattenObject depthLimit v prefix empty)).
Proof.
  intros v d p.
  apply (flattenObject_with_inv (fun _ => true) (fun _ => eq_refl)
           (fun r => Forall leaf_entry (own r))).
  - intros out k x Hx _ Hout. apply set_Forall; auto.
  - apply all_numbers_true.
  - constructor.
Qed.

(** ** Keys are never removed *)

Lemma flattenObject_with_keys_mono summ d v :
  forall p out k, In k (map fst (own out)) ->
  In k (map fst (own (flattenObject_with summ d v p out))).
Proof.
  intros p out k Hk.
  apply (flattenObject_with_inv (fun _ => true) (fun _ => eq_refl)
           (fun r => In k (map fst (own r)))); auto.
  - intros r k' x _ _ Hr. now apply set_keys_mono.
  - apply all_numbers_true.
Qed.

Lemma each_elem_keys_mono summ d p l :
  forall i out k, In k (map fst (own out)) ->
  In k (map fst (own (each_elem summ d p l i out))).
Proof.
  induction l as [|v l IH]; intros i out k Hk; simpl; auto.
  destruct (i <? 8)%nat; auto.
  apply IH.
  destruct (typeof_object v && negb (is_null v)).
  - now apply flattenObject_with_keys_mono.
  - now apply set_keys_mono.
Qed.

Lemma each_field_keys_mono summ d p kvs :
  forall out k, In k (map fst (own out)) ->
  In k (map fst (own (each_field summ d p kvs out))).
Proof.
  induction kvs as [|[k0 v] kvs IH]; intros out k Hk; simpl; auto.
  apply IH.
  destruct (truthy v && typeof_object v).
  - now apply flattenObject_with_keys_mono.
  - now apply set_keys_mono.
Qed.

Lemma each_field_null_kept summ d p kvs k :
  field_key p k <> "__proto__" ->
  In (k, JNull) kvs ->
  forall out,
    In (field_key p k) (map fst (own (each_field summ d p kvs out))).
Proof.
  intros Hk.
  induction kvs as [|[k0 v] kvs IH]; intros Hin out; simpl in *; [tauto|].
  destruct Hin as [Heq | Hin].
  - injection Heq as -> ->. simpl.
    apply each_field_keys_mono, set_key_in, Hk.
  - now apply IH.
Qed.

Lemma each_elem_null_kept summ d p l :
  forall j i out, nth_error l j = Some JNull -> (i + j < 8)%nat ->
  In (elem_key p (i + j)) (map fst (own (each_elem summ d p l i out))).
Proof.
  induction l as [|v l IH]; intros j i out Hj Hlt.
  - destruct j; discriminate.
  - simpl. replace (i <? 8)%nat with true by (symmetry; apply Nat.ltb_lt; lia).
    destruct j as [|j]; simpl in Hj.
    + injection Hj as ->. simpl. rewrite Nat.add_0_r.
      apply each_elem_keys_mono, set_key_in, elem_key_not_proto.
    + replace (i + S j)%nat with (S i + j)%nat by lia.
      apply IH; auto. lia.
Qed.

Lemma each_field_app summ d p kvs1 kvs2 out :
  each_field summ d p (kvs1 ++ kvs2)%list out
  = each_field summ d p kvs2 (each_field summ d p kvs1 out).
Proof.
  revert out. induction kvs1 as [|[k v] kvs1 IH]; intros out; simpl; auto.
Qed.

Lemma each_elem_done summ d p l i out :
  (8 <= i)%nat -> each_elem summ d p l i out = out.
Proof.
  intros Hi. destruct l; simpl; auto.
  replace (i <? 8)%nat with false by (symmetry; apply Nat.ltb_ge; lia).
  reflexivity.
Qed.

Lemma each_elem_app summ d p l1 l2 :
  forall i out,
    each_elem summ d p (l1 ++ l2)%list i out
    = each_elem summ d p l2 (i + List.length l1) (each_elem summ d p l1 i out).
Proof.
  induction l1 as [|v l1 IH]; intros i out.
  - simpl. now rewrite Nat.add_0_r.
  - cbn [app each_elem List.length].
    destruct (i <? 8)%nat eqn:Hi.
    + rewrite IH. f_equal. lia.
    + apply Nat.ltb_ge in Hi. rewrite each_elem_done by lia. reflexivity.
Qed.

(** C5 (amended). At depth limit 0 a [null] gives the empty record; any
    other value gives the single entry ["value"], holding [summarize] of the
    value: ["Array(<n>)"] for an array, ["Object(<n> keys)"] for an object,
    and for a scalar its string form, which is the scalar itself only when
    it is a string. *)
Theorem flattenObject_depth_zero :
  forall v : json,
    flattenObject 0 v "" empty =
      match v with
      | JNull => empty
      | _ => {| own := [("value", JStr (summarize v))];
                proto := ObjectPrototype |}
      end
    /\ match v with
       | JArray l => summarize v = "Array(" ++ nat_text (List.length l) ++ ")"
       | JObject kvs =>
           summarize v = "Object(" ++ nat_text (List.length kvs) ++ " keys)"
       | JStr s => summarize v = s
       | JNum n => summarize v = Num.to_string n
       | JBool b => summarize v = if b then "true" else "false"
       | JNull => True
       end.
Proof.
  intros v. destruct v; split; reflexivity || exact I.
Qed.

(** ** Arrays do not use up the depth budget (C10) *)

Lemma depth_nat_text_small i : (i < 8)%nat -> depth (nat_text i) = 0.
Proof.
  intros Hi.
  do 8 (destruct i as [|i]; [vm_compute; reflexivity|]). lia.
Qed.

Lemma depth_elem_key p i : (i < 8)%nat -> depth (elem_key p i) = depth p.
Proof.
  intros Hi. unfold elem_key.
  destruct p as [|c p]; simpl nonempty; cbv iota.
  - rewrite !depth_app, depth_nat_text_small by assumption. reflexivity.
  - rewrite !depth_app, depth_nat_text_small by assumption.
    change (depth "[") with 0. change (depth "]") with 0. lia.
Qed.

Lemma below_limit p d : depth p = 0 -> 0 < d -> (depth p >=? d) = false.
Proof. intros -> Hd. rewrite Z.geb_leb. apply Z.leb_gt. assumption. Qed.

Lemma each_elem_arrays_only summ1 summ2 d p l :
  Forall (fun v => arrays_only v = true ->
            forall p out, depth p = 0 ->
            flattenObject_with summ1 d v p out
            = flattenObject_with summ2 d v p out) l ->
  forallb arrays_only l = true -> depth p = 0 ->
  forall i out, each_elem summ1 d p l i out = each_elem summ2 d p l i out.
Proof.
  intros IH. induction IH as [|v l Hv Hl IHl]; intros Hall Hp i out; simpl; auto.
  simpl in Hall. apply andb_prop in Hall as [Hv' Hall].
  destruct (i <? 8)%nat eqn:Hi; auto.
  apply Nat.ltb_lt in Hi.
  rewrite (Hv Hv') by (rewrite depth_elem_key; assumption).
  now apply IHl.
Qed.

Lemma flattenObject_with_arrays_only summ1 summ2 d v :
  0 < d -> arrays_only v = true ->
  forall p out, depth p = 0 ->
  flattenObject_with summ1 d v p out = flattenObject_with summ2 d v p out.
Proof.
  intros Hd.
  induction v as [| b | n | s | l IH | kvs IH] using json_ind;
    intros Hv p out Hp; try discriminate.
  - reflexivity.
  - rewrite !flattenObject_with_scalar by (auto using below_limit). reflexivity.
  - rewrite !flattenObject_with_scalar by (auto using below_limit). reflexivity.
  - rewrite !flattenObject_with_scalar by (auto using below_limit). reflexivity.
  - rewrite !flattenObject_with_array by (auto using below_limit).
    apply each_elem_arrays_only; auto.
Qed.

(** C10. For a value built from arrays and scalars only and a depth limit
    of at least 1, the record [flattenObject] returns is the same whatever
    function stands at the depth-limit branch in place of [summarize]: no
    summary placeholder is written, however deep the arrays nest. *)
Theorem flattenObject_arrays_never_summarized :
  forall (v : json) (depthLimit : Z) (out : record) (summ : json -> string),
    arrays_only v = true -> 1 <= depthLimit ->
    flattenObject_with summ depthLimit v "" out
    = flattenObject depthLimit v "" out.
Proof.
  intros v d out summ Hv Hd. unfold flattenObject.
  apply flattenObject_with_arrays_only; auto. lia.
Qed.

(** ** Which keys a call writes (C6) *)

Lemma prefix_or_value_shape p : exists rest, prefix_or_value p = p ++ rest.
Proof.
  destruct p as [|c p].
  - now exists "value".
  - exists "". cbn. now rewrite append_nil_r.
Qed.

Lemma len_key_shape p : exists rest, len_key p = p ++ rest.
Proof. destruct p as [|c p]; [now exists "__len" | now exists ".__len"]. Qed.

Lemma elem_key_shape p i : exists rest, elem_key p i = p ++ rest.
Proof. unfold elem_key. destruct p as [|c p]; eexists; reflexivity. Qed.

Lemma field_key_shape p k : exists rest, field_key p k = p ++ rest.
Proof. unfold field_key. destruct p as [|c p]; eexists; reflexivity. Qed.

Lemma len_key_not_elem p i rest : len_key p <> elem_key p i ++ rest.
Proof.
  unfold len_key, elem_key.
  destruct p as [|c p]; simpl nonempty; cbv iota.
  - discriminate.
  - rewrite append_assoc. intros H. apply append_inj_l in H. discriminate.
Qed.

Section Writes.

Variable summ : json -> string.
Variable d : Z.

Lemma each_elem_get_other_aux p l :
  Forall (writes_under summ d) l ->
  forall i out k,
    (forall j rest, (i <= j)%nat -> (j < 8)%nat -> (j < i + List.length l)%nat ->
                    k <> elem_key p j ++ rest) ->
    get (own (each_elem summ d p l i out)) k = get (own out) k.
Proof.
  induction 1 as [|v l Hv Hl IHl]; intros i out k Hk; simpl; auto.
  destruct (i <? 8)%nat eqn:Hi; auto.
  apply Nat.ltb_lt in Hi.
  rewrite IHl by (intros j rest ? ? ?; apply Hk; simpl; lia).
  destruct (typeof_object v && negb (is_null v)).
  - apply Hv. intros rest. apply Hk; simpl; lia.
  - apply get_set_other.
    rewrite <- (append_nil_r (elem_key p i)). apply Hk; simpl; lia.
Qed.

Lemma each_field_get_other_aux p (kvs : list (string * json)) :
  Forall (fun kv => writes_under summ d (snd kv)) kvs ->
  forall out k, (forall rest, k <> p ++ rest) ->
  get (own (each_field summ d p kvs out)) k = get (own out) k.
Proof.
  induction 1 as [|[k0 v] kvs Hv Hl IHl]; intros out k Hk; simpl; auto.
  rewrite IHl by assumption.
  destruct (field_key_shape p k0) as [r Hr].
  destruct (truthy v && typeof_object v).
  - apply Hv. intros rest. rewrite Hr, append_assoc. apply Hk.
  - apply get_set_other. rewrite Hr. apply Hk.
Qed.

Lemma flattenObject_with_get_other v : writes_under summ d v.
Proof.
  induction v as [| b | n | s | l IH | kvs IH] using json_ind;
    intros p out k Hk.
  - reflexivity.
  - destruct (prefix_or_value_shape p) as [r Hr].
    scalar_write; apply get_set_other; rewrite Hr; apply Hk.
  - destruct (prefix_or_value_shape p) as [r Hr].
    scalar_write; apply get_set_other; rewrite Hr; apply Hk.
  - destruct (prefix_or_value_shape p) as [r Hr].
    scalar_write; apply get_set_other; rewrite Hr; apply Hk.
  - destruct (depth p >=? d) eqn:Hd.
    + rewrite flattenObject_with_limit by auto.
      destruct (prefix_or_value_shape p) as [r Hr].
      apply get_set_other; rewrite Hr; apply Hk.
    + rewrite flattenObject_with_array by auto.
      rewrite each_elem_get_other_aux; auto.
      * destruct (len_key_shape p) as [r Hr].
        apply get_set_other; rewrite Hr; apply Hk.
      * intros j rest _ _ _. destruct (elem_key_shape p j) as [r Hr].
        rewrite Hr, append_assoc. apply Hk.
  - destruct (depth p >=? d) eqn:Hd.
    + rewrite flattenObject_with_limit by auto.
      destruct (prefix_or_value_shape p) as [r Hr].
      apply get_set_other; rewrite Hr; apply Hk.
    + rewrite flattenObject_with_object by auto.
      now apply each_field_get_other_aux.
Qed.

Lemma each_elem_get_other p l i out k :
  (forall j rest, (i <= j)%nat -> (j < 8)%nat -> (j < i + List.length l)%nat ->
                  k <> elem_key p j ++ rest) ->
  get (own (each_elem summ d p l i out)) k = get (own out) k.
Proof.
  apply each_elem_get_other_aux.
  apply Forall_forall. intros v _. apply flattenObject_with_get_other.
Qed.

Lemma each_elem_firstn p l :
  forall i out,
    each_elem summ d p l i out = each_elem summ d p (firstn (8 - i) l) i out.
Proof.
  induction l as [|v l IH]; intros i out.
  - now rewrite firstn_nil.
  - cbn [each_elem]. destruct (i <? 8)%nat eqn:Hi.
    + assert (Hlt : (i < 8)%nat) by now apply Nat.ltb_lt.
      replace (8 - i)%nat with (S (8 - S i)) by lia.
      cbn [firstn each_elem]. rewrite Hi.
      apply IH.
    + apply Nat.ltb_ge in Hi.
      replace (8 - i)%nat with 0%nat by lia. reflexivity.
Qed.

Lemma each_elem_length_leaves p l :
  forall i out,
    Forall (fun v => is_container v = false) (firstn (8 - i) l) ->
    (List.length (own (each_elem summ d p l i out))
     <= List.length (own out) + (8 - i))%nat.
Proof.
  induction l as [|v l IH]; intros i out Hl; cbn [each_elem]; [lia|].
  destruct (i <? 8)%nat eqn:Hi; [|lia].
  apply Nat.ltb_lt in Hi.
  replace (8 - i)%nat with (S (8 - S i)) in Hl by lia.
  cbn [firstn] in Hl. inversion Hl as [|? ? Hv Hl']; subst.
  replace (typeof_object v && negb (is_null v)) with false
    by (destruct v; simpl in *; congruence).
  specialize (IH (S i) (set out (elem_key p i) v) Hl').
  pose proof (set_length out (elem_key p i) v). lia.
Qed.

End Writes.

(** ** Null fields and elements (C2) *)

Lemma leaf_not_expanded v :
  is_container v = false -> truthy v && typeof_object v = false.
Proof.
  destruct v; simpl; try discriminate; auto using andb_false_r.
Qed.

Lemma container_field v :
  is_container v = true -> truthy v && typeof_object v = true.
Proof. destruct v; simpl; congruence. Qed.

Lemma container_element v :
  is_container v = true -> typeof_object v && negb (is_null v) = true.
Proof. destruct v; simpl; congruence. Qed.

Lemma null_at_kept summ d v p q :
  null_at d v p q -> q <> "__proto__" ->
  forall out, In q (map fst (own (flattenObject_with summ d v p out))).
Proof.
  induction 1 as [p kvs k Hd Hin | p l i Hd Hi Hlt
                  | p kvs k v q Hd Hin Hv _ IH
                  | p l i v q Hd Hi Hlt Hv _ IH]; intros Hq out.
  - rewrite flattenObject_with_object by assumption.
    now apply each_field_null_kept.
  - rewrite flattenObject_with_array by assumption.
    apply (each_elem_null_kept summ d p l i 0%nat); auto.
  - rewrite flattenObject_with_object by assumption.
    apply in_split in Hin as [kvs1 [kvs2 ->]].
    rewrite each_field_app. cbn [each_field].
    rewrite (container_field v Hv).
    apply each_field_keys_mono. now apply IH.
  - rewrite flattenObject_with_array by assumption.
    apply nth_error_split in Hi as [l1 [l2 [-> Hlen]]].
    rewrite each_elem_app. cbn [each_elem Nat.add]. rewrite Hlen.
    replace (i <? 8)%nat with true by (symmetry; now apply Nat.ltb_lt).
    rewrite (container_element v Hv).
    apply each_elem_keys_mono. now apply IH.
Qed.

Lemma field_key_starts p k k' rest :
  field_key p k = field_key p k' ++ rest -> k = k' ++ rest.
Proof.
  unfold field_key. destruct (nonempty p); auto.
  rewrite !append_assoc. intros H.
  apply append_inj_l in H. now apply (append_inj_l ".") in H.
Qed.

Lemma each_field_get_later summ d p kvs q :
  (forall k v rest, In (k, v) kvs -> q <> field_key p k ++ rest) ->
  forall out, get (own (each_field summ d p kvs out)) q = get (own out) q.
Proof.
  induction kvs as [|[k v] kvs IH]; intros Hq out; simpl; auto.
  rewrite IH by (intros k' v' rest Hin; apply Hq with v'; now right).
  destruct (truthy v && typeof_object v).
  - apply flattenObject_with_get_other.
    intros rest. apply Hq with v. now left.
  - apply get_set_other. rewrite <- (append_nil_r (field_key p k)).
    apply Hq with v. now left.
Qed.

Lemma elem_key_apart p i j rest :
  (i < 8)%nat -> (j < 8)%nat -> i <> j ->
  elem_key p i <> elem_key p j ++ rest.
Proof.
  intros Hi Hj Hij H.
  assert (Hd : "[" ++ nat_text i ++ "]" = ("[" ++ nat_text j ++ "]") ++ rest).
  { unfold elem_key in H. destruct (nonempty p); [|exact H].
    rewrite append_assoc in H. now apply append_inj_l in H. }
  clear H.
  do 8 (destruct i as [|i]; [
    do 8 (destruct j as [|j]; [try congruence; vm_compute in Hd; discriminate|]);
    lia|]).
  lia.
Qed.

(** C2 (amended). A [null] handed to [flattenObject] adds nothing: the
    record comes back unchanged, so a [null] root gives no entry.  A [null]
    that is a field of an object, or one of the first eight elements of an
    array, in a container that is expanded (at any nesting below the value
    flattened) is not skipped: unless its path is [__proto__], the record has
    an entry under its path.  In the record the call on its container
    returns, the entry of a [null] element holds [null], and so does the
    entry of a [null] field when no later field of the object has a key that
    the key of the [null] starts with (the entries of such a field can land on
    the same path). *)
Theorem flattenObject_null :
  (forall depthLimit prefix out,
      flattenObject depthLimit JNull prefix out = out)
  /\ (forall depthLimit v prefix path out,
         null_at depthLimit v prefix path ->
         path <> "__proto__" ->
         In path (map fst (own (flattenObject depthLimit v prefix out))))
  /\ (forall depthLimit prefix kvs1 k kvs2 out,
         (depth prefix >=? depthLimit) = false ->
         field_key prefix k <> "__proto__" ->
         (forall k' v' rest, In (k', v') kvs2 -> k <> k' ++ rest) ->
         get (own (flattenObject depthLimit
                     (JObject (kvs1 ++ (k, JNull) :: kvs2)) prefix out))
           (field_key prefix k) = Some JNull)
  /\ (forall depthLimit prefix l i out,
         (depth prefix >=? depthLimit) = false ->
         nth_error l i = Some JNull -> (i < 8)%nat ->
         get (own (flattenObject depthLimit (JArray l) prefix out))
           (elem_key prefix i) = Some JNull).
Proof.
  split; [reflexivity|]. split; [|split].
  - intros d v p q out Hnull Hq. now apply null_at_kept.
  - intros d p kvs1 k kvs2 out Hd Hk Hlater. unfold flattenObject.
    rewrite flattenObject_with_object, each_field_app by auto.
    cbn [each_field truthy andb].
    rewrite each_field_get_later.
    + now apply get_set_same.
    + intros k' v' rest Hin Heq. apply field_key_starts in Heq.
      now apply (Hlater k' v' rest).
  - intros d p l i out Hd Hi Hlt. unfold flattenObject.
    rewrite flattenObject_with_array by auto.
    apply nth_error_split in Hi as [l1 [l2 [-> Hlen]]].
    rewrite each_elem_app. cbn [each_elem Nat.add]. rewrite Hlen.
    replace (i <? 8)%nat with true by (symmetry; now apply Nat.ltb_lt).
    cbn [typeof_object is_null negb andb].
    rewrite each_elem_get_other.
    + apply get_set_same, elem_key_not_proto.
    + intros j rest Hj Hj8 _. apply elem_key_apart; lia.
Qed.

(** The path [__proto__] is apart: a [null] field of that name at the root
    gives no entry, the assignment makes [null] the prototype of the
    record. *)
Lemma null_proto_field_not_stored depthLimit out :
  0 < depthLimit ->
  get (own out) "__proto__" = None ->
  proto out = ObjectPrototype ->
  flattenObject depthLimit (JObject [("__proto__", JNull)]) "" out
  = {| own := own out; proto := NoPrototype |}.
Proof.
  intros Hd Hown Hproto.
  assert (Hlim : (depth "" >=? depthLimit) = false)
    by (cbn [depth]; rewrite Z.geb_leb; apply Z.leb_gt; lia).
  unfold flattenObject.
  rewrite flattenObject_with_object by assumption.
  cbn [each_field truthy andb field_key nonempty].
  unfold set. rewrite String.eqb_refl, Hown, Hproto. reflexivity.
Qed.

(** C6 (amended). When an array of length [n] is flattened below the depth
    limit, under any prefix and into any record: the record gets the entry
    [__len] at the array's path, equal to [n]; every other entry the call
    touches has a key that starts with the bracket-index path [prefix[i]] of
    one of the first eight elements ([i <= 7]); the elements past index 7 do
    not matter; and an array whose first eight elements are leaves adds at
    most eight element entries besides [__len].  (A container element may
    add several entries under its [prefix[i]].) *)
Theorem flattenObject_array_entries :
  forall (depthLimit : Z) (prefix : string) (l : list json) (out : record),
    (depth prefix >=? depthLimit) = false ->
    let r := flattenObject depthLimit (JArray l) prefix out in
    get (own r) (len_key prefix) = Some (JNum (Num.of_nat (List.length l)))
    /\ (forall k,
           k <> len_key prefix ->
           (forall i rest, (i < 8)%nat -> (i < List.length l)%nat ->
                           k <> elem_key prefix i ++ rest) ->
           get (own r) k = get (own out) k)
    /\ (forall l',
           List.length l' = List.length l -> firstn 8 l' = firstn 8 l ->
           flattenObject depthLimit (JArray l') prefix out = r)
    /\ (Forall (fun v => is_container v = false) (firstn 8 l) ->
        (List.length (own r) <= List.length (own out) + 9)%nat).
Proof.
  intros d p l out Hd r. subst r. unfold flattenObject.
  rewrite flattenObject_with_array by assumption.
  repeat split.
  - rewrite each_elem_get_other.
    + apply get_set_same, len_key_not_proto.
    + intros j rest _ _ _. apply len_key_not_elem.
  - intros k Hk1 Hk2. rewrite each_elem_get_other.
    + now apply get_set_other.
    + intros j rest _ H8 Hlen. apply Hk2; auto.
  - intros l' Hlen Hfirst.
    rewrite flattenObject_with_array by assumption.
    rewrite each_elem_firstn, (each_elem_firstn _ _ _ l).
    change (8 - 0)%nat with 8%nat. now rewrite Hlen, Hfirst.
  - intros Hl.
    pose proof (each_elem_length_leaves summarize d p l 0%nat
                  (set out (len_key p) (JNum (Num.of_nat (List.length l)))) Hl).
    pose proof (set_length out (len_key p) (JNum (Num.of_nat (List.length l)))).
    simpl in *. lia.
Qed.

(** ** The table (C7, X1) *)

Lemma set_add_in s k x : In x (set_add s k) <-> In x s \/ x = k.
Proof.
  unfold set_add. destruct (existsb (String.eqb k) s) eqn:E.
  - apply existsb_exists in E as [y [Hy Heq]].
    apply String.eqb_eq in Heq. subst y.
    split; [tauto | intros [H | ->]; assumption].
  - rewrite in_app_iff. simpl. intuition congruence.
Qed.

Lemma set_add_new s k : ~ In k s -> set_add s k = (s ++ [k])%list.
Proof.
  intros Hk. unfold set_add.
  destruct (existsb (String.eqb k) s) eqn:E; auto.
  apply existsb_exists in E as [y [Hy Heq]].
  apply String.eqb_eq in Heq. subst y. contradiction.
Qed.

Lemma set_add_NoDup s k : NoDup s -> NoDup (set_add s k).
Proof.
  intros Hs. unfold set_add.
  destruct (existsb (String.eqb k) s) eqn:E; auto.
  apply NoDup_app; auto.
  - constructor; [intros []|constructor].
  - intros x Hx [Heq | []]. subst x.
    assert (existsb (String.eqb k) s = true)
      by (apply existsb_exists; exists k; split; auto; apply String.eqb_refl).
    congruence.
Qed.

Lemma fold_set_add_in ks : forall acc x,
  In x (fold_left set_add ks acc) <-> In x acc \/ In x ks.
Proof.
  induction ks as [|k ks IH]; intros acc x; simpl.
  - tauto.
  - rewrite IH, set_add_in. intuition.
Qed.

Lemma fold_set_add_NoDup ks : forall acc,
  NoDup acc -> NoDup (fold_left set_add ks acc).
Proof.
  induction ks as [|k ks IH]; intros acc Hacc; simpl; auto using set_add_NoDup.
Qed.

Lemma fold_set_add_extends ks : forall acc,
  exists rest, fold_left set_add ks acc = (acc ++ rest)%list.
Proof.
  induction ks as [|k ks IH]; intros acc; simpl.
  - exists []. now rewrite app_nil_r.
  - destruct (IH (set_add acc k)) as [rest Hrest]. rewrite Hrest.
    unfold set_add. destruct (existsb (String.eqb k) acc).
    + now exists rest.
    + exists (k :: rest). now rewrite <- app_assoc.
Qed.

Lemma fold_set_add_first_seen l1 a l2 :
  ~ In a l1 ->
  exists c1 rest,
    fold_left set_add (l1 ++ a :: l2)%list [] = (c1 ++ a :: rest)%list
    /\ forall x, In x c1 <-> In x l1.
Proof.
  intros Ha. exists (fold_left set_add l1 []).
  rewrite fold_left_app. simpl.
  assert (Hc1 : forall x, In x (fold_left set_add l1 []) <-> In x l1)
    by (intros x; rewrite fold_set_add_in; simpl; tauto).
  rewrite set_add_new by (rewrite Hc1; assumption).
  destruct (fold_set_add_extends l2 (fold_left set_add l1 [] ++ [a])%list)
    as [rest Hrest].
  exists rest. split; auto.
  rewrite Hrest, <- app_assoc. reflexivity.
Qed.

Lemma table_columns_fold data :
  table_columns data = fold_left set_add (sampled_keys data) [].
Proof.
  unfold table_columns, sampled_keys.
  generalize (firstn sample_size data) as rs. generalize (@nil string) as acc.
  intros acc rs. revert acc.
  induction rs as [|r rs IH]; intros acc; simpl; auto.
  now rewrite fold_left_app, IH.
Qed.

Lemma inherits_object kvs c :
  inherits (JObject kvs) c = true <-> In c object_prototype_names.
Proof.
  unfold inherits, chain, member. cbn [kind].
  split.
  - destruct (String.eqb_spec c "constructor") as [->|_]; [left; reflexivity|].
    destruct (existsb (String.eqb c) (methods BObject)) eqn:E.
    + intros _. apply existsb_exists in E as [x [Hx Hc]].
      apply String.eqb_eq in Hc. subst x. right. right. exact Hx.
    + destruct (String.eqb_spec c "__proto__") as [->|_];
        [intros _; right; left; reflexivity|discriminate].
  - unfold object_prototype_names. simpl.
    intros H.
    repeat (destruct H as [<- | H]; [reflexivity|]). destruct H.
Qed.

(** X1. For an array, the columns of the table are the own keys of the
    first 40 rows, each once, in first-seen order (a key is preceded by
    exactly the keys met before its first occurrence); every row of the
    array, sampled or not, gives a row of cells over these columns; a cell
    whose key its row neither has as an own property nor finds on its
    prototype chain is the empty string, and so is every cell of a [null]
    row.  The names an object row finds on its chain are the twelve of
    [Object.prototype].  For [[{a:1,b:2},{a:3,c:4}]] the columns are [a],
    [b], [c] and the [b] cell of the second row is empty. *)
Theorem renderTable_array :
  (forall data : list json,
      exists t,
        renderTable (JArray data) = Some t
        /\ NoDup (columns t)
        /\ (forall k, In k (columns t) <-> In k (sampled_keys data))
        /\ (forall l1 a l2,
               sampled_keys data = (l1 ++ a :: l2)%list -> ~ In a l1 ->
               exists c1 rest,
                 columns t = (c1 ++ a :: rest)%list
                 /\ forall x, In x c1 <-> In x l1)
        /\ rows t
           = map (fun row => map (fun c => formatVal (prop row c)) (columns t))
               data
        /\ (forall i j row c,
               nth_error data i = Some row ->
               nth_error (columns t) j = Some c ->
               row = JNull
               \/ (own_property row c = None /\ inherits row c = false) ->
               exists cells,
                 nth_error (rows t) i = Some cells
                 /\ nth_error cells j = Some ""))
  /\ (forall kvs c,
         inherits (JObject kvs) c = true <-> In c object_prototype_names)
  /\ (exists t,
         renderTable (JArray sample_rows) = Some t
         /\ columns t = ["a"; "b"; "c"]
         /\ rows t = [["1"; "2"; ""]; ["3"; ""; "4"]]).
Proof.
  split; [|split].
  - intros data. eexists. split; [reflexivity|]. cbn [columns rows].
    rewrite table_columns_fold.
    repeat split.
    + apply fold_set_add_NoDup. constructor.
    + rewrite fold_set_add_in. simpl. tauto.
    + rewrite fold_set_add_in. simpl. tauto.
    + intros l1 a l2 Hks Ha. rewrite Hks. now apply fold_set_add_first_seen.
    + intros i j row c Hrow Hc Hmiss.
      assert (Hprop : prop row c = None).
      { destruct Hmiss as [-> | [Hown Hchain]]; [reflexivity|].
        unfold prop. rewrite Hown. unfold inherits in Hchain.
        destruct (chain (kind row) (Builtin (kind row)) c);
          [discriminate|]. now destruct row. }
      eexists. split.
      * apply map_nth_error. eassumption.
      * rewrite (map_nth_error _ _ _ Hc), Hprop. reflexivity.
  - apply inherits_object.
  - eexists. split; [reflexivity|]. split; vm_compute; reflexivity.
Qed.

(** ** The context item of the summary (C8) *)

Lemma or_else_chain (a b c : option json) :
  let s :=
    or_else (or_else (or_else (option_map Data a) (option_map Data b))
               (option_map Data c)) (Some (Data (JStr ""))) in
  match first_truthy [a; b; c] with
  | Some x => truthy_opt s = true /\ s = Some (Data x)
  | None => truthy_opt s = false
  end.
Proof.
  unfold or_else.
  destruct a as [a|]; [destruct (truthy a) eqn:Ea|];
    destruct b as [b|]; try destruct (truthy b) eqn:Eb;
    destruct c as [c|]; try destruct (truthy c) eqn:Ec;
    simpl; rewrite ?Ea, ?Eb, ?Ec; simpl; rewrite ?Ea, ?Eb, ?Ec; simpl;
    rewrite ?Ea, ?Eb, ?Ec; auto.
Qed.

Lemma set_plain_prototype r k v :
  is_container v = false -> plain_prototype r -> plain_prototype (set r k v).
Proof.
  unfold plain_prototype, set, set_prototype. intros Hv Hr.
  destruct (String.eqb k "__proto__"); [|exact Hr].
  destruct (get (own r) k); [exact Hr|].
  destruct (proto r) eqn:Hp; [|exact I|destruct Hr].
  destruct v; try discriminate; simpl; rewrite ?Hp; auto.
Qed.

Lemma flattenObject_plain_prototype d v p out :
  plain_prototype out -> plain_prototype (flattenObject d v p out).
Proof.
  intros Hout.
  apply (flattenObject_with_inv (fun _ => true) (fun _ => eq_refl)
           plain_prototype); auto.
  - intros r k x Hx _ Hr. now apply set_plain_prototype.
  - apply all_numbers_true.
Qed.

(** A read of a name that [Object.prototype] does not have finds an own
    property or nothing. *)
Lemma read_own r k :
  plain_prototype r -> ~ In k object_prototype_names ->
  read r k = option_map Data (get (own r) k).
Proof.
  unfold plain_prototype, read. intros Hr Hk.
  destruct (get (own r) k); [reflexivity|].
  destruct (proto r); [|reflexivity|destruct Hr].
  pose proof (inherits_object [] k) as Hin. unfold inherits in Hin.
  cbn [kind] in Hin.
  destruct (chain BObject (Builtin BObject) k); [|reflexivity].
  exfalso. apply Hk, Hin. reflexivity.
Qed.

(** C8 (amended). [computeSummary] reads [suburb], then [name], then [area]
    in the flattened record of the whole value; the first of them that is
    truthy (neither missing, [null], [false], [0], [NaN] nor the empty
    string) gives a last item ["Context"] holding the first 48 characters of
    its string form, and no other item is labelled ["Context"]; without such
    a field no item is.  For [{suburb: "Testville", population: 1000}] the
    item holds ["Testville"]. *)
Theorem computeSummary_context :
  (forall data : json,
      let flat := own (flatten data) in
      match first_truthy [get flat "suburb"; get flat "name"; get flat "area"] with
      | Some x =>
          exists base,
            computeSummary data
            = (base ++ [("Context", JStr (substring 0 48 (to_String x)))])%list
            /\ Forall (fun it => fst it <> "Context") base
      | None => Forall (fun it => fst it <> "Context") (computeSummary data)
      end)
  /\ In ("Context", JStr "Testville") (computeSummary sample_suburb).
Proof.
  split.
  - intros data flat. unfold computeSummary.
    match goal with
    | |- context [if _ then (?o ++ _)%list else _] => set (out := o)
    end.
    assert (Hout : Forall (fun it : string * json => fst it <> "Context") out).
    { subst out.
      destruct data; cbn [truthy typeof_object andb];
        rewrite ?andb_false_r;
        repeat (constructor; [cbn [fst]; discriminate|]); constructor. }
    assert (Hread : forall k,
               ~ In k object_prototype_names ->
               read (flatten data) k = option_map Data (get flat k)).
    { intros k Hk. apply read_own; [|exact Hk].
      apply flattenObject_plain_prototype. exact I. }
    rewrite !Hread
      by (unfold object_prototype_names; simpl; intuition discriminate).
    pose proof (or_else_chain (get flat "suburb") (get flat "name")
                  (get flat "area")) as Hs.
    cbv zeta in Hs.
    destruct (first_truthy [get flat "suburb"; get flat "name"; get flat "area"])
      as [x|].
    + destruct Hs as [Ht Hx]. rewrite Ht, Hx. exists out. split; auto.
    + rewrite Hs. assumption.
  - vm_compute. auto 10.
Qed.

(** ** Binary64 arithmetic: the sign of a difference *)

Section Binary64.

Local Abbreviation fexp := (SpecFloat.fexp Num.prec Num.emax).
Local Abbreviation shr_fexp := (SpecFloat.shr_fexp Num.prec Num.emax).
Local Abbreviation binary_round_aux := (SpecFloat.binary_round_aux Num.prec Num.emax).
Local Abbreviation binary_round := (SpecFloat.binary_round Num.prec Num.emax).
Local Abbreviation binary_normalize := (SpecFloat.binary_normalize Num.prec Num.emax).

Lemma fexp_eq x : fexp x = Z.max (x - 53) emin.
Proof. reflexivity. Qed.

Lemma digits2_pos_size p : digits2_pos p = Pos.size p.
Proof. induction p; simpl; congruence. Qed.

Lemma digits2_lower p : 2 ^ (Zpos (digits2_pos p) - 1) <= Zpos p.
Proof.
  rewrite digits2_pos_size.
  pose proof (Pos.size_le p) as H.
  assert (H' : 2 ^ Zpos (Pos.size p) <= 2 * Zpos p).
  { change 2 with (Zpos 2) at 1. rewrite <- Pos2Z.inj_pow.
    change (2 * Zpos p) with (Zpos p~0). now apply Pos2Z.pos_le_pos. }
  replace (Zpos (Pos.size p)) with (Zpos (Pos.size p) - 1 + 1) in H' by lia.
  rewrite Z.pow_add_r in H' by lia. lia.
Qed.

Lemma shr_1_m r : 0 <= shr_m r -> shr_m (shr_1 r) = Z.div2 (shr_m r).
Proof.
  destruct r as [m b s]. destruct m as [|[p|p|]|p]; try reflexivity.
  cbn [shr_m]. lia.
Qed.

Lemma iter_shr_1_m p :
  forall r, 0 <= shr_m r ->
  shr_m (iter_pos shr_1 p r) = shr_m r / 2 ^ Zpos p.
Proof.
  assert (Hstep : forall r, 0 <= shr_m r ->
            shr_m (shr_1 r) = shr_m r / 2 /\ 0 <= shr_m (shr_1 r)).
  { intros r Hr. rewrite shr_1_m, Z.div2_div by assumption. split; auto.
    apply Z.div_pos; lia. }
  induction p as [p IH | p IH |]; intros r Hr; simpl iter_pos.
  - destruct (Hstep r Hr) as [E1 P1].
    assert (P2 : 0 <= shr_m (iter_pos shr_1 p (shr_1 r))).
    { rewrite IH by assumption. apply Z.div_pos; lia. }
    rewrite IH, IH, E1 by assumption.
    rewrite !Z.div_div by lia.
    f_equal.
    replace (Zpos p~1) with (1 + Zpos p + Zpos p) by lia.
    rewrite !Z.pow_add_r, Z.pow_1_r by lia. ring.
  - assert (P2 : 0 <= shr_m (iter_pos shr_1 p r)).
    { rewrite IH by assumption. apply Z.div_pos; lia. }
    rewrite IH, IH by assumption.
    rewrite !Z.div_div by lia.
    f_equal.
    replace (Zpos p~0) with (Zpos p + Zpos p) by lia.
    rewrite !Z.pow_add_r by lia. ring.
  - destruct (Hstep r Hr) as [E1 _]. rewrite E1. reflexivity.
Qed.

Lemma shr_record_of_loc_m m l : shr_m (shr_record_of_loc m l) = m.
Proof. destruct l as [|[]]; reflexivity. Qed.

(** Rounding never takes the exponent below [emin]. *)
Lemma shr_fexp_exp m e l : emin <= snd (shr_fexp m e l).
Proof.
  unfold SpecFloat.shr_fexp, shr. rewrite fexp_eq.
  destruct (Z.max (Zdigits2 m + e - 53) emin - e) eqn:En; simpl snd; lia.
Qed.

(** A positive mantissa at an exponent of [emin] or more is not rounded to
    zero. *)
Lemma shr_fexp_pos p e l :
  emin <= e -> 0 < shr_m (fst (shr_fexp (Zpos p) e l)).
Proof.
  intros He. unfold SpecFloat.shr_fexp, shr. rewrite fexp_eq.
  cbn [Zdigits2].
  destruct (Z.max (Zpos (digits2_pos p) + e - 53) emin - e) as [|n|n] eqn:En;
    cbn [fst]; rewrite ?shr_record_of_loc_m; try lia.
  rewrite iter_shr_1_m by (rewrite shr_record_of_loc_m; lia).
  rewrite shr_record_of_loc_m.
  pose proof (digits2_lower p) as Hlow.
  assert (Hn : Zpos n <= Zpos (digits2_pos p) - 1) by lia.
  assert (Hpow : 2 ^ Zpos n <= 2 ^ (Zpos (digits2_pos p) - 1))
    by (apply Z.pow_le_mono_r; lia).
  apply Z.div_str_pos. split; [apply Z.pow_pos_nonneg|]; lia.
Qed.

Lemma round_nearest_even_pos m l : 0 < m -> 0 < round_nearest_even m l.
Proof.
  intros Hm. unfold round_nearest_even.
  destruct l as [|[]]; try destruct (Z.even m); lia.
Qed.

Lemma binary_round_aux_pos p e l :
  emin <= e -> positive_number (binary_round_aux false (Zpos p) e l) = true.
Proof.
  intros He. unfold SpecFloat.binary_round_aux.
  pose proof (shr_fexp_pos p e l He) as H1.
  pose proof (shr_fexp_exp (Zpos p) e l) as E1.
  destruct (shr_fexp (Zpos p) e l) as [r1 e1]. cbn [fst snd] in *.
  pose proof (round_nearest_even_pos _ (loc_of_shr_record r1) H1) as H2.
  destruct (round_nearest_even (shr_m r1) (loc_of_shr_record r1)) as [|m2|m2];
    try lia.
  pose proof (shr_fexp_pos m2 e1 loc_Exact E1) as H3.
  destruct (shr_fexp (Zpos m2) e1 loc_Exact) as [r2 e2]. cbn [fst] in H3.
  destruct (shr_m r2); try lia.
  destruct (e2 <=? Num.emax - Num.prec); reflexivity.
Qed.

Lemma binary_round_aux_exp_ok s m e l :
  exp_ok (binary_round_aux s m e l) = true.
Proof.
  unfold SpecFloat.binary_round_aux.
  destruct (shr_fexp m e l) as [r1 e1].
  pose proof (shr_fexp_exp (round_nearest_even (shr_m r1) (loc_of_shr_record r1))
                e1 loc_Exact) as E2.
  destruct (shr_fexp _ e1 loc_Exact) as [r2 e2]. cbn [snd] in E2.
  destruct (shr_m r2); try reflexivity.
  destruct (e2 <=? Num.emax - Num.prec); try reflexivity.
  simpl. now apply Z.leb_le.
Qed.

Lemma shl_align_exp m e e' : emin <= e -> emin <= e' ->
  emin <= snd (shl_align m e e').
Proof.
  intros He He'. unfold shl_align. destruct (e' - e); simpl; assumption.
Qed.

Lemma binary_round_pos p e :
  emin <= e -> positive_number (binary_round false p e) = true.
Proof.
  intros He. unfold SpecFloat.binary_round.
  pose proof (shl_align_exp p e (fexp (Zpos (digits2_pos p) + e)) He) as Hz.
  rewrite fexp_eq in *.
  destruct (shl_align p e _) as [mz ez]. cbn [snd] in Hz.
  apply binary_round_aux_pos. apply Hz. lia.
Qed.

Lemma binary_round_exp_ok s p e : exp_ok (binary_round s p e) = true.
Proof.
  unfold SpecFloat.binary_round.
  destruct (shl_align p e _) as [mz ez]. apply binary_round_aux_exp_ok.
Qed.

Lemma binary_normalize_exp_ok z e s : exp_ok (binary_normalize z e s) = true.
Proof.
  destruct z; simpl; auto using binary_round_exp_ok.
Qed.

Lemma binary_round_aux_neg m e l :
  positive_number (binary_round_aux true m e l) = false.
Proof.
  unfold SpecFloat.binary_round_aux.
  destruct (shr_fexp m e l) as [r1 e1].
  destruct (shr_fexp _ e1 loc_Exact) as [r2 e2].
  destruct (shr_m r2); try reflexivity.
  destruct (e2 <=? Num.emax - Num.prec); reflexivity.
Qed.

Lemma binary_round_neg p e : positive_number (binary_round true p e) = false.
Proof.
  unfold SpecFloat.binary_round.
  destruct (shl_align p e _) as [mz ez]. apply binary_round_aux_neg.
Qed.

Lemma iter_xO_value m d : Zpos (Pos.iter xO m d) = Zpos m * 2 ^ Zpos d.
Proof.
  induction d as [|d IH] using Pos.peano_ind.
  - simpl. lia.
  - rewrite Pos.iter_succ, Pos2Z.inj_xO, IH, Pos2Z.inj_succ, Z.pow_succ_r by lia.
    ring.
Qed.

Lemma shl_align_value m e ez :
  ez <= e -> Zpos (fst (shl_align m e ez)) = Zpos m * 2 ^ (e - ez).
Proof.
  intros Hle. unfold shl_align.
  destruct (ez - e) as [|d|d] eqn:Ed; cbn [fst]; try lia.
  - replace (e - ez) with 0 by lia. lia.
  - replace (e - ez) with (Zpos d) by lia. apply iter_xO_value.
Qed.

Lemma gtb_zero x : Num.gtb x Num.zero = positive_number x.
Proof. destruct x as [s|s| |s m e]; try destruct s; reflexivity. Qed.

(** The sign of a difference of two positive numbers is the sign of the
    difference of their values: the subtraction does not round a non-zero
    difference to zero. *)
Lemma sub_positive mx ex my ey :
  emin <= ex -> emin <= ey ->
  Num.gtb (Num.sub (S754_finite false my ey) (S754_finite false mx ex)) Num.zero
  = (Zpos mx * 2 ^ (ex - Z.min ey ex) <? Zpos my * 2 ^ (ey - Z.min ey ex)).
Proof.
  intros Hx Hy. rewrite gtb_zero.
  unfold Num.sub, SFsub, cond_Zopp.
  rewrite !shl_align_value by lia.
  set (X := Zpos mx * 2 ^ (ex - Z.min ey ex)).
  set (Y := Zpos my * 2 ^ (ey - Z.min ey ex)).
  destruct (Y - X) as [|D|D] eqn:ED; cbn [SpecFloat.binary_normalize].
  - symmetry. apply Z.ltb_ge. lia.
  - rewrite binary_round_pos by lia. symmetry. apply Z.ltb_lt. lia.
  - rewrite binary_round_neg. symmetry. apply Z.ltb_ge. lia.
Qed.

End Binary64.

(** ** Magnitudes *)

Lemma two_power_pos e : (0 < Qpower 2 e)%Q.
Proof. apply Qpower_0_lt. reflexivity. Qed.

Lemma magnitude_finite p s m e :
  value p = S754_finite s m e ->
  (magnitude p == inject_Z (Zpos m) * Qpower 2 e)%Q.
Proof.
  intros Hp. unfold magnitude. rewrite Hp. cbn [Num.value].
  rewrite Qabs_Qmult.
  rewrite (Qabs_pos (Qpower 2 e)) by (apply Qlt_le_weak, two_power_pos).
  destruct s; reflexivity.
Qed.

Lemma scale_to m e ez :
  ez <= e ->
  (inject_Z (Zpos m) * Qpower 2 e
   == inject_Z (Zpos m * 2 ^ (e - ez)) * Qpower 2 ez)%Q.
Proof.
  intros Hle.
  replace e with ((e - ez) + ez) at 1 by lia.
  rewrite Qpower_plus by discriminate.
  rewrite inject_Z_mult, Zpower_Qpower by lia.
  change (inject_Z 2) with 2%Q. ring.
Qed.

Lemma magnitude_lt a b sa ma ea sb mb eb :
  value a = S754_finite sa ma ea -> value b = S754_finite sb mb eb ->
  (magnitude a < magnitude b)%Q <->
  Zpos ma * 2 ^ (ea - Z.min eb ea) < Zpos mb * 2 ^ (eb - Z.min eb ea).
Proof.
  intros Ha Hb.
  rewrite (magnitude_finite a _ _ _ Ha), (magnitude_finite b _ _ _ Hb).
  rewrite (scale_to ma ea (Z.min eb ea)), (scale_to mb eb (Z.min eb ea)) by lia.
  rewrite Qmult_lt_r by apply two_power_pos.
  rewrite <- Zlt_Qlt. tauto.
Qed.

(** The comparator is positive exactly when the second pair is the larger
    in magnitude. *)
Lemma by_magnitude_gt a b :
  finite_ok (value a) = true -> finite_ok (value b) = true ->
  Num.gtb (by_magnitude a b) Num.zero = true <-> (magnitude a < magnitude b)%Q.
Proof.
  unfold by_magnitude.
  destruct (value a) as [| | |sa ma ea] eqn:Ha; try discriminate.
  destruct (value b) as [| | |sb mb eb] eqn:Hb; try discriminate.
  cbn [finite_ok]. intros Oa Ob.
  apply Z.leb_le in Oa, Ob.
  cbn [Num.abs SFabs].
  rewrite sub_positive by assumption.
  rewrite Z.ltb_lt. symmetry. exact (magnitude_lt a b sa ma ea sb mb eb Ha Hb).
Qed.

(** ** Number formatting (C9) *)

(** *** Decimal numerals *)

Lemma string_of_revapp x : forall y,
  NilEmpty.string_of_uint (Decimal.revapp x y)
  = NilEmpty.string_of_uint (Decimal.revapp x Decimal.Nil)
    ++ NilEmpty.string_of_uint y.
Proof.
  induction x; intros y; simpl;
    try (rewrite IHx, (IHx (_ Decimal.Nil)); simpl;
         rewrite append_assoc; reflexivity).
  reflexivity.
Qed.

Lemma to_lu_digit p (b : N) :
  (b < 10)%N ->
  DecimalPos.Unsigned.to_lu (10 * Npos p + b)
  = match b with
    | 0 => Decimal.D0 | 1 => Decimal.D1 | 2 => Decimal.D2 | 3 => Decimal.D3
    | 4 => Decimal.D4 | 5 => Decimal.D5 | 6 => Decimal.D6 | 7 => Decimal.D7
    | 8 => Decimal.D8 | _ => Decimal.D9
    end%N (DecimalPos.Unsigned.to_lu (Npos p)).
Proof.
  intros Hb.
  assert (H : forall n : nat, (n < 10)%nat ->
              DecimalPos.Unsigned.to_lu (10 * Npos p + N.of_nat n)
              = Nat.iter n Decimal.Little.succ (Decimal.D0 (DecimalPos.Unsigned.to_lu (Npos p)))).
  { induction n as [|n IH]; intros Hn.
    - rewrite N.add_0_r. apply DecimalPos.Unsigned.to_ldec_tenfold.
    - rewrite Nnat.Nat2N.inj_succ, N.add_succ_r, DecimalPos.Unsigned.to_lu_succ, IH by lia.
      reflexivity. }
  rewrite <- (Nnat.N2Nat.id b).
  assert (Hn : (N.to_nat b < 10)%nat) by lia.
  rewrite H by exact Hn.
  rewrite Nnat.N2Nat.id.
  destruct b as [|q]; [reflexivity|].
  do 9 (destruct q as [q|q|]; try (exfalso; lia); try reflexivity).
Qed.

Lemma dec_digit b : 0 <= b < 10 -> exists c, Num.dec b = String c "".
Proof.
  intros Hb.
  assert (H : b = 0 \/ b = 1 \/ b = 2 \/ b = 3 \/ b = 4 \/ b = 5 \/ b = 6
              \/ b = 7 \/ b = 8 \/ b = 9) by lia.
  repeat (destruct H as [-> | H]; [eexists; reflexivity|]).
  subst. eexists; reflexivity.
Qed.

Lemma string_of_uint_nonnil d :
  d <> Decimal.Nil -> NilZero.string_of_uint d = NilEmpty.string_of_uint d.
Proof. destruct d; try reflexivity. congruence. Qed.

Lemma revapp_nonnil x y : y <> Decimal.Nil -> Decimal.revapp x y <> Decimal.Nil.
Proof.
  revert y. induction x; intros y Hy; simpl; auto; apply IHx; discriminate.
Qed.

Lemma dec_snoc a b :
  0 < a -> 0 <= b < 10 -> Num.dec (10 * a + b) = Num.dec a ++ Num.dec b.
Proof.
  intros Ha Hb. unfold Num.dec.
  destruct a as [|p|p]; try lia.
  replace (Z.to_N (10 * Zpos p + b)) with (10 * Npos p + Z.to_N b)%N by lia.
  assert (Hnb : (Z.to_N b < 10)%N) by lia.
  pose proof (to_lu_digit p (Z.to_N b) Hnb) as Hlu.
  destruct (10 * Npos p + Z.to_N b)%N as [|q] eqn:Hq; [lia|].
  cbn [N.to_uint Z.to_N].
  unfold Pos.to_uint.
  change (Pos.to_little_uint q) with (DecimalPos.Unsigned.to_lu (Npos q)).
  change (Pos.to_little_uint p) with (DecimalPos.Unsigned.to_lu (Npos p)).
  rewrite Hlu. unfold Decimal.rev.
  set (x := DecimalPos.Unsigned.to_lu (Npos p)).
  assert (Hx : Decimal.revapp x Decimal.Nil <> Decimal.Nil).
  { subst x. exact (DecimalPos.Unsigned.to_uint_nonnil p). }
  rewrite (string_of_uint_nonnil _ Hx).
  assert (Hd : (Z.to_N b = 0 \/ Z.to_N b = 1 \/ Z.to_N b = 2 \/ Z.to_N b = 3
               \/ Z.to_N b = 4 \/ Z.to_N b = 5 \/ Z.to_N b = 6 \/ Z.to_N b = 7
               \/ Z.to_N b = 8 \/ Z.to_N b = 9)%N) by lia.
  repeat (destruct Hd as [-> | Hd];
          [cbn [Decimal.revapp];
           rewrite string_of_uint_nonnil by (apply revapp_nonnil; discriminate);
           rewrite string_of_revapp; reflexivity|]).
  rewrite Hd. cbn [Decimal.revapp].
  rewrite string_of_uint_nonnil by (apply revapp_nonnil; discriminate).
  rewrite string_of_revapp. reflexivity.
Qed.

Lemma substring_0_app a b : substring 0 (String.length a) (a ++ b) = a.
Proof. induction a as [|c a IH]; simpl; [now destruct b|now rewrite IH]. Qed.

Lemma substring_skip_app a b :
  substring (String.length a) (String.length b) (a ++ b) = b.
Proof.
  induction a as [|c a IH]; simpl; auto.
  induction b as [|c b IHb]; simpl; [reflexivity|now rewrite IHb].
Qed.

Lemma string_length_app a b :
  String.length (a ++ b) = (String.length a + String.length b)%nat.
Proof. induction a; simpl; lia. Qed.

(** The padded numeral of the hundredths, split before its last two digits. *)
Lemma point_before_last_two n :
  0 <= n ->
  let ds := Num.zeros (3 - String.length (Num.dec n)) ++ Num.dec n in
  substring 0 (String.length ds - 2) ds ++ "."
  ++ substring (String.length ds - 2) 2 ds
  = Num.dec (n / 100) ++ "." ++ Num.dec (n / 10 mod 10) ++ Num.dec (n mod 10).
Proof.
  intros Hn. cbv zeta.
  destruct (dec_digit (n mod 10)) as [u Hu]; [apply Z.mod_pos_bound; lia|].
  destruct (dec_digit (n / 10 mod 10)) as [t Ht]; [apply Z.mod_pos_bound; lia|].
  destruct (Z.lt_ge_cases n 10) as [H10 | H10].
  - (* one digit *)
    rewrite (Z.div_small n 100), (Z.div_small n 10), Z.mod_0_l by lia.
    rewrite (Z.mod_small n 10) in * by lia. rewrite Hu. reflexivity.
  - assert (Hn10 : n = 10 * (n / 10) + n mod 10) by (apply Z.div_mod; lia).
    destruct (Z.lt_ge_cases n 100) as [H100 | H100].
    + (* two digits *)
      assert (Hq : 0 < n / 10) by (apply Z.div_str_pos; lia).
      assert (Hq' : n / 10 < 10) by (apply Z.div_lt_upper_bound; lia).
      rewrite (Z.div_small n 100) by lia.
      rewrite (Z.mod_small (n / 10) 10) in * by lia.
      assert (Hdec : Num.dec n = String t (String u "")).
      { rewrite Hn10 at 1.
        rewrite dec_snoc by (try apply Z.mod_pos_bound; lia).
        rewrite Ht, Hu. reflexivity. }
      rewrite Hdec, Ht, Hu. reflexivity.
    + (* three digits or more *)
      assert (Hh : 0 < n / 100) by (apply Z.div_str_pos; lia).
      assert (Hq10 : 0 < n / 10) by (apply Z.div_str_pos; lia).
      assert (Hq : n / 10 = 10 * (n / 100) + n / 10 mod 10).
      { replace (n / 100) with (n / 10 / 10)
          by (rewrite Z.div_div by lia; reflexivity).
        apply Z.div_mod. lia. }
      assert (Hdec : Num.dec n
                     = Num.dec (n / 100) ++ String t (String u "")).
      { rewrite Hn10 at 1.
        rewrite dec_snoc by (try apply Z.mod_pos_bound; lia).
        rewrite Hq at 1.
        rewrite dec_snoc by (try apply Z.mod_pos_bound; lia).
        rewrite Ht, Hu, append_assoc. reflexivity. }
      rewrite Hdec.
      assert (Hlen : (1 <= String.length (Num.dec (n / 100)))%nat).
      { destruct (Num.dec (n / 100)) eqn:E; simpl; [|lia].
        exfalso. unfold Num.dec in E.
        destruct (Z.to_N (n / 100)) eqn:En; [lia|].
        cbn [N.to_uint] in E.
        rewrite string_of_uint_nonnil in E
          by apply DecimalPos.Unsigned.to_uint_nonnil.
        pose proof (DecimalPos.Unsigned.to_uint_nonnil p) as Hnn.
        destruct (Pos.to_uint p); simpl in E; congruence. }
      set (h := Num.dec (n / 100)) in *.
      set (w := String t (String u "")).
      assert (Hl : String.length (h ++ w) = (String.length h + 2)%nat)
        by (rewrite string_length_app; reflexivity).
      rewrite Hl.
      replace (3 - (String.length h + 2))%nat with 0%nat by lia.
      cbn [Num.zeros append]. rewrite Hl.
      replace (String.length h + 2 - 2)%nat with (String.length h) by lia.
      rewrite substring_0_app.
      change (substring (String.length h) 2 (h ++ w))
        with (substring (String.length h) (String.length w) (h ++ w)).
      rewrite substring_skip_app, Ht, Hu. reflexivity.
Qed.

(** *** The value of a number and its text to two decimals *)

Lemma abs_value_finite s m e :
  (Qabs (Num.value (S754_finite s m e)) == inject_Z (Zpos m) * Qpower 2 e)%Q.
Proof.
  cbn [Num.value]. rewrite Qabs_Qmult.
  rewrite (Qabs_pos (Qpower 2 e) (Qlt_le_weak _ _ (two_power_pos e))).
  destruct s; reflexivity.
Qed.

Lemma frac_spec m e num den :
  Num.frac m e = (num, den) ->
  0 < num /\ 0 < den /\
  (inject_Z (Zpos m) * Qpower 2 e * inject_Z den == inject_Z num)%Q.
Proof.
  unfold Num.frac. destruct (0 <=? e) eqn:He; intros H;
    pose proof (f_equal fst H) as H1; pose proof (f_equal snd H) as H2;
    cbn [fst snd] in H1, H2; subst num den; clear H.
  - apply Z.leb_le in He.
    assert (Hp : 0 < 2 ^ e) by (apply Z.pow_pos_nonneg; lia).
    split; [apply Z.mul_pos_pos; lia|]. split; [lia|].
    rewrite inject_Z_mult, Zpower_Qpower by lia.
    change (inject_Z 2) with 2%Q. change (inject_Z 1) with 1%Q. ring.
  - apply Z.leb_gt in He.
    assert (Hp : 0 < 2 ^ (- e)) by (apply Z.pow_pos_nonneg; lia).
    split; [lia|]. split; [lia|].
    rewrite Zpower_Qpower by lia. change (inject_Z 2) with 2%Q.
    rewrite <- Qmult_assoc, <- Qpower_plus by discriminate.
    replace (e + - e) with 0 by lia. change (Qpower 2 0) with 1%Q. ring.
Qed.

Lemma frac_quotient a num den :
  0 < den -> (a * inject_Z den == inject_Z num)%Q ->
  (a == inject_Z num / inject_Z den)%Q.
Proof.
  intros Hd H. rewrite <- H. field.
  intros H0. apply (inject_Z_injective den 0) in H0. lia.
Qed.

Lemma hundredths_frac s m e num den :
  Num.frac m e = (num, den) ->
  hundredths (S754_finite s m e) = (2 * num * 100 + den) / (2 * den).
Proof.
  intros Hf. destruct (frac_spec m e num den Hf) as (Hn & Hd & Hv).
  unfold hundredths.
  destruct den as [|d|d]; try lia.
  assert (Hq : (100 * Qabs (Num.value (S754_finite s m e)) + (1 # 2)
                == (2 * num * 100 + Zpos d) # (d~0))%Q).
  { rewrite abs_value_finite.
    rewrite (frac_quotient _ num (Zpos d) Hd Hv).
    rewrite (Qmake_Qdiv (2 * num * 100 + Zpos d) (d~0)).
    change (Zpos d~0) with (2 * Zpos d).
    rewrite inject_Z_plus, !inject_Z_mult.
    change (inject_Z 2) with 2%Q. change (inject_Z 100) with 100%Q.
    change (1 # 2)%Q with (1 / 2)%Q.
    field.
    intros H0. apply (inject_Z_injective (Zpos d) 0) in H0. lia. }
  rewrite (Qfloor_comp _ _ Hq).
  reflexivity.
Qed.

Lemma ge_pow10_value s m e num den k :
  Num.frac m e = (num, den) -> 0 <= k ->
  Num.ge_pow10 num den k = true
  <-> (inject_Z (10 ^ k) <= Qabs (Num.value (S754_finite s m e)))%Q.
Proof.
  intros Hf Hk. destruct (frac_spec m e num den Hf) as (Hn & Hd & Hv).
  unfold Num.ge_pow10. apply Z.leb_le in Hk. rewrite Hk.
  rewrite Z.leb_le, abs_value_finite.
  assert (Hdq : (0 < inject_Z den)%Q) by (rewrite <- (Zlt_Qlt 0); exact Hd).
  rewrite <- (Qmult_le_r _ _ (inject_Z den) Hdq), Hv.
  rewrite <- inject_Z_mult, <- Zle_Qle.
  rewrite (Z.mul_comm den). tauto.
Qed.

Lemma toFixed_two (x : Num.number) :
  Num.isFinite x = true ->
  ((Qabs (Num.value x) < inject_Z (10 ^ 21))%Q ->
   Num.toFixed 2 x = two_decimals x)
  /\ ((inject_Z (10 ^ 21) <= Qabs (Num.value x))%Q ->
      Num.toFixed 2 x = Num.to_string x).
Proof.
  destruct x as [s|s| |s m e]; try discriminate; intros _.
  - split; [reflexivity|]. intros H. exfalso. revert H. apply Qlt_not_le. reflexivity.
  - unfold Num.toFixed. destruct (Num.frac m e) as [num den] eqn:Hf.
    pose proof (ge_pow10_value s m e num den 21 Hf ltac:(lia)) as Hge.
    destruct (Num.ge_pow10 num den 21) eqn:Hg.
    + split; [|reflexivity]. intros Hlt. exfalso.
      apply (Qlt_not_le _ _ Hlt). apply Hge. reflexivity.
    + split.
      * intros _. unfold two_decimals. rewrite (hundredths_frac s m e num den Hf).
        change (10 ^ Z.of_nat 2) with 100.
        destruct (frac_spec m e num den Hf) as (Hn & Hd & _).
        assert (H0 : 0 <= (2 * num * 100 + den) / (2 * den))
          by (apply Z.div_pos; lia).
        pose proof (point_before_last_two _ H0) as Hp. cbv zeta in Hp.
        change (3 - ?a)%nat with (3 - a)%nat.
        cbv zeta. rewrite Hp. destruct s; reflexivity.
      * intros Hle. apply Hge in Hle. discriminate.
Qed.

(** *** Comparison of numbers and the order of their values *)

Lemma canonical_bounds m e :
  canonical_mantissa Num.prec Num.emax m e = true ->
  Zpos m < 2 ^ 53 /\ (emin < e -> 2 ^ 52 <= Zpos m) /\ emin <= e.
Proof.
  unfold canonical_mantissa. rewrite Z.eqb_eq, fexp_eq. intros H.
  pose proof (digits2_lower m) as Hlo.
  assert (Hup : Zpos m < 2 ^ Zpos (digits2_pos m)).
  { rewrite digits2_pos_size.
    change 2 with (Zpos 2). rewrite <- Pos2Z.inj_pow.
    apply Pos2Z.pos_lt_pos, Pos.size_gt. }
  assert (Hd : Zpos (digits2_pos m) <= 53) by lia.
  split.
  - eapply Z.lt_le_trans; [exact Hup|]. apply Z.pow_le_mono_r; lia.
  - split; [|lia]. intros He.
    replace (Zpos (digits2_pos m)) with 53 in Hlo by lia. exact Hlo.
Qed.

Lemma finite_lt_exponent m1 e1 m2 e2 :
  canonical_mantissa Num.prec Num.emax m1 e1 = true ->
  canonical_mantissa Num.prec Num.emax m2 e2 = true ->
  e1 < e2 ->
  (inject_Z (Zpos m1) * Qpower 2 e1 < inject_Z (Zpos m2) * Qpower 2 e2)%Q.
Proof.
  intros H1 H2 He.
  destruct (canonical_bounds m1 e1 H1) as (U1 & _ & L1).
  destruct (canonical_bounds m2 e2 H2) as (_ & N2 & _).
  specialize (N2 ltac:(lia)).
  rewrite (scale_to m2 e2 e1) by lia.
  rewrite Qmult_lt_r by apply two_power_pos.
  rewrite <- Zlt_Qlt.
  assert (Hp : 2 ^ 1 <= 2 ^ (e2 - e1)) by (apply Z.pow_le_mono_r; lia).
  change (2 ^ 53) with (2 ^ 52 * 2 ^ 1) in U1.
  eapply Z.lt_le_trans; [exact U1|].
  apply Z.mul_le_mono_nonneg; lia.
Qed.

Lemma SFleb_finite m1 e1 m2 e2 :
  canonical_mantissa Num.prec Num.emax m1 e1 = true ->
  canonical_mantissa Num.prec Num.emax m2 e2 = true ->
  SFleb (S754_finite false m1 e1) (S754_finite false m2 e2) = true
  <-> (inject_Z (Zpos m1) * Qpower 2 e1 <= inject_Z (Zpos m2) * Qpower 2 e2)%Q.
Proof.
  intros H1 H2. unfold SFleb, SFcompare.
  destruct (Z.compare_spec e1 e2) as [He | He | He].
  - subst e2. rewrite Qmult_le_r by apply two_power_pos.
    rewrite <- Zle_Qle.
    change (Pos.compare_cont Eq m1 m2) with (Pos.compare m1 m2).
    destruct (Pos.compare_spec m1 m2) as [Hm | Hm | Hm].
    + subst. split; [lia|reflexivity].
    + split; [lia|reflexivity].
    + split; [discriminate|lia].
  - split; [|reflexivity]. intros _.
    apply Qlt_le_weak, finite_lt_exponent; assumption.
  - split; [discriminate|]. intros H. exfalso.
    apply (Qlt_not_le _ _ (finite_lt_exponent m2 e2 m1 e1 H2 H1 He)), H.
Qed.

(** A threshold [10^j] that is a number itself. *)
Lemma geb_abs_value n j :
  valid_binary Num.prec Num.emax n = true -> Num.isFinite n = true ->
  0 <= j <= 15 ->
  Num.geb (Num.abs n) (Num.of_Z (10 ^ j)) = true
  <-> (inject_Z (10 ^ j) <= Qabs (Num.value n))%Q.
Proof.
  intros Hv Hf Hj.
  assert (Hc : exists m e,
             Num.of_Z (10 ^ j) = S754_finite false m e
             /\ canonical_mantissa Num.prec Num.emax m e = true
             /\ (inject_Z (10 ^ j) == inject_Z (Zpos m) * Qpower 2 e)%Q).
  { assert (Hcases : j = 0 \/ j = 1 \/ j = 2 \/ j = 3 \/ j = 4 \/ j = 5
                     \/ j = 6 \/ j = 7 \/ j = 8 \/ j = 9 \/ j = 10 \/ j = 11
                     \/ j = 12 \/ j = 13 \/ j = 14 \/ j = 15) by lia.
    repeat (destruct Hcases as [-> | Hcases];
            [eexists; eexists; split; [vm_compute; reflexivity|];
             split; [vm_compute; reflexivity|vm_compute; reflexivity]|]).
    subst j. eexists; eexists; split; [vm_compute; reflexivity|].
    split; vm_compute; reflexivity. }
  destruct Hc as (mc & ec & Hc & Hcan & Hval).
  rewrite Hc, Hval. unfold Num.geb.
  destruct n as [s|s| |s m e]; try discriminate.
  - cbn [Num.abs SFabs Num.value]. change (Qabs 0) with 0%Q.
    split; [discriminate|]. intros H. exfalso. revert H. apply Qlt_not_le.
    apply Qmult_lt_0_compat; [reflexivity|apply two_power_pos].
  - rewrite abs_value_finite. cbn [Num.abs SFabs].
    apply SFleb_finite; [exact Hcan|].
    cbn [valid_binary] in Hv. unfold bounded in Hv.
    apply andb_true_iff in Hv. tauto.
Qed.

Lemma value_signed s m e :
  (Num.value (S754_finite s m e)
   == (if s then - (inject_Z (Zpos m) * Qpower 2 e)
       else inject_Z (Zpos m) * Qpower 2 e))%Q.
Proof.
  cbn [Num.value]. destruct s.
  - change (Zneg m # 1)%Q with (- inject_Z (Zpos m))%Q. ring.
  - reflexivity.
Qed.

Lemma integer_value_integer s m e z :
  (Num.value (S754_finite s m e) == inject_Z z)%Q ->
  Num.integer_value (S754_finite s m e) = Some (s, Z.abs z).
Proof.
  intros Hz. cbn [Num.integer_value].
  destruct (Num.frac m e) as [num den] eqn:Hf.
  destruct (frac_spec m e num den Hf) as (Hn & Hd & Hv).
  assert (Ha : (inject_Z (Z.abs z) == inject_Z (Zpos m) * Qpower 2 e)%Q).
  { rewrite <- abs_value_finite with (s := s). rewrite Hz. reflexivity. }
  rewrite <- Ha, <- inject_Z_mult in Hv.
  apply (inject_Z_injective (Z.abs z * den) num) in Hv. subst num.
  rewrite Z.mod_mul, Z.div_mul by lia. reflexivity.
Qed.

Lemma integer_value_fraction s m e :
  (forall z, ~ (Num.value (S754_finite s m e) == inject_Z z)%Q) ->
  Num.integer_value (S754_finite s m e) = None.
Proof.
  intros Hno. cbn [Num.integer_value].
  destruct (Num.frac m e) as [num den] eqn:Hf.
  destruct (frac_spec m e num den Hf) as (Hn & Hd & Hv).
  destruct (num mod den =? 0) eqn:Hm; [|reflexivity].
  exfalso. apply Z.eqb_eq in Hm.
  assert (Hq : num = num / den * den).
  { rewrite (Z.div_mod num den) at 1 by lia. rewrite Hm. ring. }
  rewrite Hq, inject_Z_mult in Hv.
  assert (Hdq : (0 < inject_Z den)%Q) by (rewrite <- (Zlt_Qlt 0); exact Hd).
  assert (Hv' : (inject_Z (Zpos m) * Qpower 2 e == inject_Z (num / den))%Q).
  { apply Qmult_inj_r with (z := inject_Z den); [|exact Hv].
    intros H0. rewrite H0 in Hdq. revert Hdq. apply Qlt_irrefl. }
  apply (Hno (if s then - (num / den) else num / den)).
  rewrite value_signed. destruct s; rewrite Hv'; [|reflexivity].
  rewrite inject_Z_opp. reflexivity.
Qed.

Lemma group3_small fuel z : z < 1000 -> Num.group3 fuel z = Num.dec z.
Proof.
  intros Hz. destruct fuel; [reflexivity|].
  cbn [Num.group3]. apply Z.ltb_lt in Hz. rewrite Hz. reflexivity.
Qed.

Lemma value_abs_integer n z :
  (Num.value n == inject_Z z)%Q ->
  (Qabs (Num.value n) < inject_Z (10 ^ 3))%Q -> Z.abs z < 1000.
Proof.
  intros Hz Hlt. rewrite Hz in Hlt.
  change (Qabs (inject_Z z)) with (inject_Z (Z.abs z)) in Hlt.
  rewrite <- Zlt_Qlt in Hlt. exact Hlt.
Qed.

(** C9 (amended). [formatNumber] maps 1500 to ["1.50k"], 2500000 to
    ["2.50M"], 42 to ["42"] and 3.14159 to ["3.14"].  For a finite number
    [n]: with a magnitude of at least [10^9] the text is [toFixed(2)] of
    the number [n / 1e9], followed by ["B"]; failing that, at least [10^6],
    likewise with [n / 1e6] and ["M"]; failing that, at least [10^3],
    likewise with [n / 1e3] and ["k"]; below [10^3], an integer is written
    in decimal digits without decimals, after a minus sign when negative,
    and any other number to two decimals.  [toFixed(2)] of a finite number
    of magnitude below [10^21] is its text to two decimals ([two_decimals]:
    the nearest hundredth, halves away from zero); from [10^21] on it is
    the text [String] gives.  [NaN] is written ["NaN"] and the infinities
    ["InfinityB"] and ["-InfinityB"]. *)
Theorem formatNumber_rules :
  formatNumber (Num.of_Z 1500) = "1.50k"
  /\ formatNumber (Num.of_Z 2500000) = "2.50M"
  /\ formatNumber (Num.of_Z 42) = "42"
  /\ formatNumber (Num.of_decimal false 314159 (-5)) = "3.14"
  /\ (forall n : Num.number,
      valid_binary Num.prec Num.emax n = true -> Num.isFinite n = true ->
      ((inject_Z (10 ^ 9) <= Qabs (Num.value n))%Q ->
       formatNumber n = Num.toFixed 2 (Num.div n num_1e9) ++ "B")
      /\ ((inject_Z (10 ^ 6) <= Qabs (Num.value n))%Q ->
          (Qabs (Num.value n) < inject_Z (10 ^ 9))%Q ->
          formatNumber n = Num.toFixed 2 (Num.div n num_1e6) ++ "M")
      /\ ((inject_Z (10 ^ 3) <= Qabs (Num.value n))%Q ->
          (Qabs (Num.value n) < inject_Z (10 ^ 6))%Q ->
          formatNumber n = Num.toFixed 2 (Num.div n num_1e3) ++ "k")
      /\ ((Qabs (Num.value n) < inject_Z (10 ^ 3))%Q ->
          forall z, (Num.value n == inject_Z z)%Q ->
          formatNumber n
          = (if negative n then "-" else "") ++ Num.dec (Z.abs z))
      /\ ((Qabs (Num.value n) < inject_Z (10 ^ 3))%Q ->
          (forall z, ~ (Num.value n == inject_Z z)%Q) ->
          formatNumber n = two_decimals n))
  /\ (forall q : Num.number,
      Num.isFinite q = true ->
      ((Qabs (Num.value q) < inject_Z (10 ^ 21))%Q ->
       Num.toFixed 2 q = two_decimals q)
      /\ ((inject_Z (10 ^ 21) <= Qabs (Num.value q))%Q ->
          Num.toFixed 2 q = Num.to_string q))
  /\ formatNumber Num.NaN = "NaN"
  /\ formatNumber Num.Infinity = "InfinityB"
  /\ formatNumber (S754_infinity true) = "-InfinityB".
Proof.
  do 4 (split; [vm_compute; reflexivity|]).
  split; [|split; [exact toFixed_two|repeat split; vm_compute; reflexivity]].
  intros n Hv Hf.
  pose proof (geb_abs_value n 9 Hv Hf ltac:(lia)) as H9.
  pose proof (geb_abs_value n 6 Hv Hf ltac:(lia)) as H6.
  pose proof (geb_abs_value n 3 Hv Hf ltac:(lia)) as H3.
  change (Num.of_Z (10 ^ 9)) with num_1e9 in H9.
  change (Num.of_Z (10 ^ 6)) with num_1e6 in H6.
  change (Num.of_Z (10 ^ 3)) with num_1e3 in H3.
  assert (N9 : (Qabs (Num.value n) < inject_Z (10 ^ 9))%Q ->
               Num.geb (Num.abs n) num_1e9 = false).
  { intros Hlt. destruct (Num.geb (Num.abs n) num_1e9); [|reflexivity].
    exfalso. apply (Qlt_not_le _ _ Hlt), H9. reflexivity. }
  assert (N6 : (Qabs (Num.value n) < inject_Z (10 ^ 6))%Q ->
               Num.geb (Num.abs n) num_1e6 = false).
  { intros Hlt. destruct (Num.geb (Num.abs n) num_1e6); [|reflexivity].
    exfalso. apply (Qlt_not_le _ _ Hlt), H6. reflexivity. }
  assert (N3 : (Qabs (Num.value n) < inject_Z (10 ^ 3))%Q ->
               Num.geb (Num.abs n) num_1e3 = false).
  { intros Hlt. destruct (Num.geb (Num.abs n) num_1e3); [|reflexivity].
    exfalso. apply (Qlt_not_le _ _ Hlt), H3. reflexivity. }
  assert (L36 : (inject_Z (10 ^ 3) < inject_Z (10 ^ 6))%Q) by reflexivity.
  assert (L69 : (inject_Z (10 ^ 6) < inject_Z (10 ^ 9))%Q) by reflexivity.
  unfold formatNumber. cbv zeta.
  split; [|split; [|split; [|split]]].
  - intros Hge. apply H9 in Hge. rewrite Hge. reflexivity.
  - intros Hge Hlt. apply H6 in Hge. rewrite (N9 Hlt), Hge. reflexivity.
  - intros Hge Hlt. apply H3 in Hge.
    rewrite (N9 (Qlt_trans _ _ _ Hlt L69)), (N6 Hlt), Hge. reflexivity.
  - intros Hlt z Hz.
    rewrite (N9 (Qlt_trans _ _ _ (Qlt_trans _ _ _ Hlt L36) L69)),
            (N6 (Qlt_trans _ _ _ Hlt L36)), (N3 Hlt).
    pose proof (value_abs_integer n z Hz Hlt) as Hsmall.
    destruct n as [s|s| |s m e]; try discriminate.
    + cbn [Num.value] in Hz.
      assert (z = 0) by (apply (inject_Z_injective z 0); symmetry; exact Hz).
      subst z. reflexivity.
    + rewrite (integer_value_integer s m e z Hz).
      cbn [Num.integer_toLocaleString negative].
      rewrite group3_small by exact Hsmall. reflexivity.
  - intros Hlt Hno.
    rewrite (N9 (Qlt_trans _ _ _ (Qlt_trans _ _ _ Hlt L36) L69)),
            (N6 (Qlt_trans _ _ _ Hlt L36)), (N3 Hlt).
    destruct n as [s|s| |s m e]; try discriminate.
    + exfalso. apply (Hno 0). reflexivity.
    + rewrite (integer_value_fraction s m e Hno).
      apply toFixed_two; [reflexivity|].
      apply (Qlt_trans _ _ _ Hlt). reflexivity.
Qed.

(** C9, as stated, fails: the quotient of [1e30] by [1e9] is [1e21], and
    its text has an exponent and no decimals; [NaN] and [Infinity] have no
    decimals either. *)
Lemma quotient_not_two_decimals :
  formatNumber (Num.of_decimal false 1 30) = "1e+21B"
  /\ formatNumber Num.NaN = "NaN"
  /\ formatNumber Num.Infinity = "InfinityB".
Proof. vm_compute. auto. Qed.

(** ** The numbers of the flattened record *)

Lemma of_Z_exp_ok z : exp_ok (Num.of_Z z) = true.
Proof. apply binary_normalize_exp_ok. Qed.

Lemma of_decimal_exp_ok neg m j : exp_ok (Num.of_decimal neg m j) = true.
Proof.
  unfold Num.of_decimal. destruct m as [|p|p]; try reflexivity.
  destruct (0 <=? j).
  - apply binary_normalize_exp_ok.
  - unfold SFdiv.
    destruct (SFdiv_core_binary _ _ _ _ _ _) as [[mz ez] lz].
    apply binary_round_aux_exp_ok.
Qed.

Lemma integer_literal_exp_ok radix l : exp_ok (Num.integer_literal radix l) = true.
Proof.
  unfold Num.integer_literal.
  destruct (Num.read_digits radix l 0 0) as [[v [|n]] [|c r]];
    auto using of_Z_exp_ok.
Qed.

Lemma decimal_literal_exp_ok l : exp_ok (Num.decimal_literal l) = true.
Proof.
  unfold Num.decimal_literal.
  destruct (Num.read_sign l) as [sg l1].
  destruct (String.eqb _ _); [reflexivity|].
  destruct (Num.read_digits 10 l1 0 0) as [[ip ni] l2].
  destruct (match l2 with
            | [] => (ip, 0%nat, l2)
            | c :: l' =>
                if Ascii.eqb c "." then Num.read_digits 10 l' ip 0
                else (ip, 0%nat, l2)
            end) as [[m nf] l3].
  destruct (ni + nf)%nat; [reflexivity|].
  destruct (Num.read_exponent l3); [apply of_decimal_exp_ok | reflexivity].
Qed.

Lemma of_string_exp_ok s : exp_ok (Num.of_string s) = true.
Proof.
  unfold Num.of_string.
  destruct (Num.trim _) as [|c0 [|c1 l]]; auto using decimal_literal_exp_ok.
  destruct (Num.radix_prefix c0 c1);
    auto using decimal_literal_exp_ok, integer_literal_exp_ok.
Qed.

Lemma valid_exp_ok x : valid_binary Num.prec Num.emax x = true -> exp_ok x = true.
Proof.
  destruct x as [| | |s m e]; auto.
  unfold valid_binary, bounded, canonical_mantissa. intros H.
  apply andb_prop in H as [H _]. apply Z.eqb_eq in H.
  rewrite fexp_eq in H. apply Z.leb_le. lia.
Qed.

Lemma all_numbers_impl (ok1 ok2 : Num.number -> bool) v :
  (forall x, ok1 x = true -> ok2 x = true) ->
  all_numbers ok1 v = true -> all_numbers ok2 v = true.
Proof.
  intros Himp.
  induction v as [| b | n | s | l IH | kvs IH] using json_ind; simpl; auto.
  - rewrite !forallb_forall. intros H x Hx.
    rewrite Forall_forall in IH. apply IH; auto.
  - rewrite !forallb_forall. intros H x Hx.
    rewrite Forall_forall in IH. apply IH; auto.
Qed.

Lemma flattenObject_numbers_in_range d v p :
  json_valid v = true -> numbers_in_range (flattenObject d v p empty).
Proof.
  intros Hv.
  apply (flattenObject_with_inv exp_ok (fun n => of_Z_exp_ok _) numbers_in_range).
  - intros out k x _ Hx Hout. apply set_Forall; auto.
  - revert Hv. apply all_numbers_impl, valid_exp_ok.
  - constructor.
Qed.

Lemma insert_index_In x l y : In y (insert_index x l) -> y = x \/ In y l.
Proof.
  induction l as [|z l IH]; simpl.
  - intuition.
  - destruct (fst x <=? fst z); simpl; intuition.
Qed.

Lemma index_entries_In r ikv : In ikv (index_entries r) -> In (snd ikv) r.
Proof.
  induction r as [|kv r IH]; simpl; [tauto|].
  destruct (array_index (fst kv)); auto.
  intros H. apply insert_index_In in H as [-> | H]; auto.
Qed.

Lemma entries_In r kv : In kv (entries r) -> In kv r.
Proof.
  unfold entries. rewrite in_app_iff, in_map_iff, filter_In.
  intros [[ikv [<- H]] | [H _]]; auto using index_entries_In.
Qed.

Lemma finite_ok_intro x :
  exp_ok x = true -> Num.isFinite x = true ->
  Num.eqb (Num.abs x) Num.zero = false ->
  finite_ok x = true /\ Num.eqb x Num.zero = false.
Proof.
  destruct x as [s|s| |s m e]; try discriminate.
  intros H _ _. split; [assumption | destruct s; reflexivity].
Qed.

Lemma numeric_exp_ok v :
  all_numbers exp_ok v = true -> exp_ok (numeric v) = true.
Proof. destruct v; simpl; auto using of_string_exp_ok. Qed.

Lemma numeric_pairs_kept es :
  Forall (fun kv => all_numbers exp_ok (snd kv) = true) es ->
  Forall (fun p => finite_ok (value p) = true
                   /\ Num.isFinite (value p) = true
                   /\ Num.eqb (value p) Num.zero = false)
    (numeric_pairs es).
Proof.
  induction 1 as [|[k v] es Hv Hes IH]; simpl; [constructor|].
  destruct (Num.isFinite (numeric v)) eqn:Hf; simpl; auto.
  destruct (Num.eqb (Num.abs (numeric v)) Num.zero) eqn:Hz; auto.
  constructor; auto. simpl.
  destruct (finite_ok_intro _ (numeric_exp_ok v Hv) Hf Hz). auto.
Qed.

(** ** The stable sort by magnitude *)

Lemma sort_insert_perm {A} (cmp : A -> A -> Num.number) x l :
  Permutation (sort_insert cmp x l) (x :: l).
Proof.
  induction l as [|y l IH]; simpl; auto.
  destruct (Num.gtb (cmp x y) Num.zero); auto.
  rewrite IH. apply perm_swap.
Qed.

Lemma sort_perm {A} (cmp : A -> A -> Num.number) l :
  Permutation (sort cmp l) l.
Proof.
  induction l as [|x l IH]; simpl; auto.
  rewrite sort_insert_perm. now constructor.
Qed.

Lemma descending_cons a l :
  descending l ->
  (forall b l', l = b :: l' -> (magnitude b <= magnitude a)%Q) ->
  descending (a :: l).
Proof.
  intros Hl Hhead. simpl. split; auto.
  destruct l as [|b l']; auto. eapply Hhead; reflexivity.
Qed.

Lemma descending_tail a l : descending (a :: l) -> descending l.
Proof. simpl. tauto. Qed.

Lemma descending_head a b l :
  descending (a :: b :: l) -> (magnitude b <= magnitude a)%Q.
Proof. simpl. tauto. Qed.

Lemma sort_insert_descending x l :
  pair_ok x -> Forall pair_ok l -> descending l ->
  descending (sort_insert by_magnitude x l).
Proof.
  intros Hx Hl. induction Hl as [|y l Hy Hl IH]; intros Hd.
  - simpl. auto.
  - cbn [sort_insert].
    destruct (Num.gtb (by_magnitude x y) Num.zero) eqn:E.
    + apply by_magnitude_gt in E; auto.
      apply descending_cons.
      * apply IH. eapply descending_tail; eauto.
      * intros b l' Hb. destruct l as [|z l0]; cbn [sort_insert] in Hb.
        -- injection Hb as <- _. now apply Qlt_le_weak.
        -- destruct (Num.gtb (by_magnitude x z) Num.zero);
             injection Hb as <- _.
           ++ eapply descending_head; eauto.
           ++ now apply Qlt_le_weak.
    + apply descending_cons; auto.
      intros b l' Hb. injection Hb as <- _.
      apply Qnot_lt_le. intros Hlt.
      apply by_magnitude_gt in Hlt; auto. congruence.
Qed.

Lemma sort_ok l : Forall pair_ok l -> Forall pair_ok (sort by_magnitude l).
Proof.
  intros Hl. eapply Permutation_Forall; [|exact Hl].
  symmetry. apply sort_perm.
Qed.

Lemma sort_descending l :
  Forall pair_ok l -> descending (sort by_magnitude l).
Proof.
  induction 1 as [|x l Hx Hl IH]; simpl; auto.
  apply sort_insert_descending; auto using sort_ok.
Qed.

Lemma sort_insert_of_magnitude q x l :
  pair_ok x -> Forall pair_ok l ->
  of_magnitude q (sort_insert by_magnitude x l) = of_magnitude q (x :: l).
Proof.
  intros Hx Hl. induction Hl as [|y l Hy Hl IH].
  - reflexivity.
  - cbn [sort_insert].
    destruct (Num.gtb (by_magnitude x y) Num.zero) eqn:E; auto.
    apply by_magnitude_gt in E; auto.
    unfold of_magnitude in *. cbn [filter] in *. rewrite IH.
    destruct (Qeq_bool (magnitude y) q) eqn:Ey;
      destruct (Qeq_bool (magnitude x) q) eqn:Ex; auto.
    apply Qeq_bool_iff in Ey, Ex. rewrite Ex, Ey in E.
    now apply Qlt_irrefl in E.
Qed.

Lemma sort_of_magnitude q l :
  Forall pair_ok l -> of_magnitude q (sort by_magnitude l) = of_magnitude q l.
Proof.
  induction 1 as [|x l Hx Hl IH]; auto.
  cbn [sort fold_right]. fold (sort by_magnitude l).
  rewrite sort_insert_of_magnitude by auto using sort_ok.
  unfold of_magnitude in *. cbn [filter]. now rewrite IH.
Qed.

Lemma descending_firstn n : forall l, descending l -> descending (firstn n l).
Proof.
  induction n as [|n IH]; intros l Hl; [exact I|].
  destruct l as [|a l]; [exact I|].
  cbn [firstn]. apply descending_cons.
  - apply IH. eapply descending_tail; eauto.
  - intros b l' Hb. destruct n; [discriminate|].
    destruct l as [|b' l0]; [discriminate|].
    cbn [firstn] in Hb. injection Hb as <- _.
    eapply descending_head; eauto.
Qed.

Lemma of_magnitude_firstn q n l :
  exists rest, of_magnitude q l = (of_magnitude q (firstn n l) ++ rest)%list.
Proof.
  exists (of_magnitude q (skipn n l)).
  unfold of_magnitude. rewrite <- filter_app, firstn_skipn. reflexivity.
Qed.

Lemma firstn_incl {A} n (l : list A) x : In x (firstn n l) -> In x l.
Proof.
  intros H. rewrite <- (firstn_skipn n l). apply in_or_app. now left.
Qed.

(** C1. For every JSON value (its numbers binary64 numbers),
    [findNumericPairs] returns at most 12 pairs, none with a zero or a
    non-finite value, in non-increasing order of absolute value, and pairs of
    equal absolute value come in the order in which the entries of the
    flattened record are enumerated: for each magnitude, the pairs returned
    are the first of the candidates of that magnitude, in their order. *)
Theorem findNumericPairs_ranked :
  forall v : json,
    json_valid v = true ->
    let r := findNumericPairs v in
    (List.length r <= 12)%nat
    /\ Forall (fun p => Num.isFinite (value p) = true
                        /\ Num.eqb (value p) Num.zero = false) r
    /\ descending r
    /\ forall q, exists rest,
         of_magnitude q (numeric_pairs (entries (own (flatten v))))
         = (of_magnitude q r ++ rest)%list.
Proof.
  intros v Hv r. subst r. unfold findNumericPairs.
  set (cands := numeric_pairs (entries (own (flatten v)))).
  assert (Hkept : Forall (fun p => finite_ok (value p) = true
                                   /\ Num.isFinite (value p) = true
                                   /\ Num.eqb (value p) Num.zero = false) cands).
  { apply numeric_pairs_kept. apply Forall_forall. intros kv Hkv.
    apply entries_In in Hkv.
    pose proof (flattenObject_numbers_in_range 4 v "" Hv) as Hr.
    unfold numbers_in_range in Hr. rewrite Forall_forall in Hr. now apply Hr. }
  assert (Hok : Forall pair_ok cands)
    by (eapply Forall_impl; [|exact Hkept]; intros p Hp; apply Hp).
  repeat split.
  - apply firstn_le_length.
  - apply Forall_forall. intros p Hp.
    apply firstn_incl in Hp.
    apply (Permutation_in _ (sort_perm by_magnitude cands)) in Hp.
    rewrite Forall_forall in Hkept. apply Hkept in Hp. tauto.
  - apply descending_firstn, sort_descending, Hok.
  - intros q. rewrite <- (sort_of_magnitude q cands Hok).
    apply of_magnitude_firstn.
Qed.

Lemma findNumericPairs_ranked_witness :
  json_valid sample_numbers = true
  /\ (List.length (findNumericPairs sample_numbers) <= 12)%nat
  /\ descending (findNumericPairs sample_numbers)
  /\ map label (findNumericPairs sample_numbers)
     = ["g[1]"; "c"; "b"; "f"; "g[0]"; "a"; "g.__len"].
Proof.
  assert (H : json_valid sample_numbers = true) by (vm_compute; reflexivity).
  destruct (findNumericPairs_ranked sample_numbers H) as [H1 [_ [H3 _]]].
  refine (conj H (conj H1 (conj H3 _))).
  vm_compute. reflexivity.
Defined.

(** ** Concrete runs *)

(** C2, as stated, fails: a [null] field and a [null] array element each
    give an entry of the record. *)
Lemma null_field_not_skipped :
  own (flatten (JObject [("a", JNull)])) = [("a", JNull)]
  /\ get (own (flatten (JArray [JNull]))) "[0]" = Some JNull.
Proof. split; vm_compute; reflexivity. Qed.

Lemma flattenObject_null_witness :
  In "a.b[0]"
    (map fst
       (own (flattenObject 4
               (JObject [("a", JObject [("b", JArray [JNull])])]) "" empty)))
  /\ get (own (flattenObject 4
                 (JObject ([("b", num 1)] ++ ("a", JNull) :: [("c", num 2)]))
                 "" empty)) "a"
     = Some JNull
  /\ get (own (flattenObject 4 (JArray [JNull; num 1]) "" empty)) "[0]"
     = Some JNull.
Proof.
  destruct flattenObject_null as [_ [Hkept [Hfield Helem]]].
  split; [|split].
  - apply Hkept; [|discriminate].
    apply (null_below_field 4 "" _ "a" (JObject [("b", JArray [JNull])]));
      [reflexivity | now left | reflexivity |].
    apply (null_below_field 4 "a" _ "b" (JArray [JNull]));
      [reflexivity | now left | reflexivity |].
    change "a.b[0]" with (elem_key (field_key "a" "b") 0).
    apply null_element; [reflexivity | reflexivity | lia].
  - apply (Hfield 4 "" [("b", num 1)] "a" [("c", num 2)] empty);
      [reflexivity | discriminate |].
    intros k' v' rest [H | []]. injection H as <- _. discriminate.
  - apply (Helem 4 "" [JNull; num 1] 0%nat empty);
      [reflexivity | reflexivity | lia].
Defined.

(** C5, as stated, fails: at depth limit 0 a [null] gives no entry, and the
    number 42 gives the string ["42"], not the number. *)
Lemma depth_zero_number_not_raw :
  flattenObject 0 JNull "" empty = empty
  /\ own (flattenObject 0 (num 42) "" empty) = [("value", JStr "42")]
  /\ own (flattenObject 0 (num 42) "" empty) <> [("value", num 42)].
Proof.
  split; [reflexivity|]. split; [vm_compute; reflexivity|].
  vm_compute. discriminate.
Qed.

(** C6, as stated, fails: an array of one object with nine fields gives nine
    entries under the bracket-index path of its element. *)
Lemma wide_element_nine_entries :
  List.length
    (filter (fun kv => String.prefix "a[" (fst kv)) (own (flatten sample_wide_element)))
  = 9%nat.
Proof. vm_compute. reflexivity. Qed.

Lemma flattenObject_array_entries_witness :
  let l := map num [1; 2; 3; 4; 5; 6; 7; 8; 9; 10] in
  let l' := map num [1; 2; 3; 4; 5; 6; 7; 8; 90; 100] in
  let r := flattenObject 4 (JArray l) "a" empty in
  get (own r) "a.__len" = Some (num 10)
  /\ get (own r) "a[8]" = None
  /\ flattenObject 4 (JArray l') "a" empty = r
  /\ (List.length (own r) <= 9)%nat.
Proof.
  intros l l' r.
  assert (Hd : (depth "a" >=? 4) = false) by reflexivity.
  destruct (flattenObject_array_entries 4 "a" l empty Hd)
    as [Hlen [Hother [Hsame Hcount]]].
  split; [exact Hlen|]. split; [|split].
  - apply (Hother "a[8]").
    + discriminate.
    + intros i rest Hi _.
      do 8 (destruct i as [|i]; [vm_compute; discriminate|]). lia.
  - apply (Hsame l'); reflexivity.
  - apply Hcount. repeat constructor.
Defined.

(** C7. The cell of a key that is missing from its row is not always the
    empty string: the second row of [[{toString:1},{x:4}]] has no key
    [toString], and its cell under that column shows the function the row
    inherits from [Object.prototype]. *)
Lemma inherited_cell_not_empty :
  exists t,
    renderTable
      (JArray [JObject [("toString", num 1)]; JObject [("x", num 4)]])
    = Some t
    /\ columns t = ["toString"; "x"]
    /\ own_property (JObject [("x", num 4)]) "toString" = None
    /\ rows t
       = [["1"; ""]; ["function toString() { [native code] }"; "4"]].
Proof.
  eexists. split; [reflexivity|]. repeat split; vm_compute; reflexivity.
Qed.

Lemma renderTable_array_witness :
  exists t,
    renderTable (JArray sample_rows) = Some t
    /\ (exists cells,
           nth_error (rows t) 1 = Some cells /\ nth_error cells 1 = Some "")
    /\ (exists c1 rest,
           columns t = (c1 ++ "c" :: rest)%list
           /\ forall x, In x c1 <-> In x ["a"; "b"; "a"]).
Proof.
  destruct (proj1 renderTable_array sample_rows)
    as [t [Ht [_ [_ [Horder [_ Hcell]]]]]].
  exists t. split; [exact Ht|]. split.
  - apply (Hcell 1%nat 1%nat (JObject [("a", num 3); ("c", num 4)]) "b").
    + reflexivity.
    + vm_compute in Ht. injection Ht as <-. reflexivity.
    + right. split; reflexivity.
  - apply (Horder ["a"; "b"; "a"] "c" []).
    + reflexivity.
    + simpl. intros [H | [H | [H | []]]]; discriminate.
Defined.

(** C8, as stated, fails: a field [suburb] holding 0 is present and its
    string form ["0"] is not empty, yet it is passed over for [name]; and a
    record whose only match is [area] holding [false] gets no ["Context"]
    item. *)
Lemma falsy_match_passed_over :
  get (own (flatten (JObject [("suburb", num 0); ("name", JStr "Testville")])))
    "suburb" = Some (num 0)
  /\ to_String (num 0) = "0"
  /\ computeSummary (JObject [("suburb", num 0); ("name", JStr "Testville")])
     = [("Fields", JStr "2"); ("Type", JStr "Object");
        ("Context", JStr "Testville")]
  /\ computeSummary (JObject [("area", JBool false)])
     = [("Fields", JStr "1"); ("Type", JStr "Object")].
Proof. repeat split; vm_compute; reflexivity. Qed.

Lemma computeSummary_context_witness :
  exists base,
    computeSummary sample_suburb
    = (base ++ [("Context", JStr "Testville")])%list.
Proof.
  pose proof (proj1 computeSummary_context sample_suburb) as H.
  vm_compute in H. destruct H as [base [H _]].
  exists base. vm_compute. exact H.
Defined.

Lemma formatNumber_rules_witness :
  formatNumber (Num.of_Z 3000000000)
  = Num.toFixed 2 (Num.div (Num.of_Z 3000000000) num_1e9) ++ "B"
  /\ formatNumber (Num.of_Z 2500000)
     = Num.toFixed 2 (Num.div (Num.of_Z 2500000) num_1e6) ++ "M"
  /\ formatNumber (Num.of_Z 1500)
     = Num.toFixed 2 (Num.div (Num.of_Z 1500) num_1e3) ++ "k"
  /\ formatNumber (Num.of_Z (-42)) = "-" ++ Num.dec 42
  /\ Num.toFixed 2 (Num.div (Num.of_Z 1500) num_1e3)
     = two_decimals (Num.div (Num.of_Z 1500) num_1e3)
  /\ Num.toFixed 2 (Num.of_decimal false 1 21)
     = Num.to_string (Num.of_decimal false 1 21).
Proof.
  destruct formatNumber_rules as (_ & _ & _ & _ & H & F & _).
  destruct (H (Num.of_Z 3000000000) ltac:(vm_compute; reflexivity)
              ltac:(vm_compute; reflexivity)) as [HB _].
  destruct (H (Num.of_Z 2500000) ltac:(vm_compute; reflexivity)
              ltac:(vm_compute; reflexivity)) as [_ [HM _]].
  destruct (H (Num.of_Z 1500) ltac:(vm_compute; reflexivity)
              ltac:(vm_compute; reflexivity)) as [_ [_ [Hk _]]].
  destruct (H (Num.of_Z (-42)) ltac:(vm_compute; reflexivity)
              ltac:(vm_compute; reflexivity)) as [_ [_ [_ [Hi _]]]].
  destruct (F (Num.div (Num.of_Z 1500) num_1e3) ltac:(vm_compute; reflexivity))
    as [Fs _].
  destruct (F (Num.of_decimal false 1 21) ltac:(vm_compute; reflexivity))
    as [_ Fl].
  split; [|split; [|split; [|split; [|split]]]].
  - exact (HB ltac:(vm_compute; discriminate)).
  - exact (HM ltac:(vm_compute; discriminate) ltac:(vm_compute; reflexivity)).
  - exact (Hk ltac:(vm_compute; discriminate) ltac:(vm_compute; reflexivity)).
  - exact (Hi ltac:(vm_compute; reflexivity) (-42) ltac:(vm_compute; reflexivity)).
  - exact (Fs ltac:(vm_compute; reflexivity)).
  - exact (Fl ltac:(vm_compute; discriminate)).
Defined.

Lemma flattenObject_arrays_never_summarized_witness :
  flattenObject_with (fun _ => "?") 1 sample_nested_arrays "" empty
  = flattenObject 1 sample_nested_arrays "" empty.
Proof.
  apply flattenObject_arrays_never_summarized; [reflexivity | lia].
Defined.

(** * Further properties *)

(** ** The keys of the flattened record *)

Lemma define_keys_In r k v x :
  In x (map fst (define r k v)) -> x = k \/ In x (map fst r).
Proof.
  induction r as [|[k' v'] r IH]; simpl.
  - intuition.
  - destruct (String.eqb k' k); simpl; intuition.
Qed.

Lemma define_keys_NoDup r k v :
  NoDup (map fst r) -> NoDup (map fst (define r k v)).
Proof.
  induction r as [|[k' v'] r IH]; simpl; intros H.
  - constructor; [intros []|constructor].
  - inversion H as [|? ? Hk' Hr]; subst.
    destruct (String.eqb_spec k' k); simpl.
    + constructor; assumption.
    + constructor; auto.
      intros Hin. apply define_keys_In in Hin as [-> | Hin]; auto.
Qed.

Lemma set_keys_In r k v x :
  In x (map fst (own (set r k v))) -> x = k \/ In x (map fst (own r)).
Proof.
  destruct (set_own r k v) as [-> | [_ [_ ->]]]; auto.
  apply define_keys_In.
Qed.

Lemma set_keys_NoDup r k v :
  NoDup (map fst (own r)) -> NoDup (map fst (own (set r k v))).
Proof.
  destruct (set_own r k v) as [-> | [_ [_ ->]]]; auto.
  apply define_keys_NoDup.
Qed.

(** ** The depth limit bounds the depth of the keys *)

Lemma define_Forall_at (Q : string * json -> Prop) r k v :
  Forall Q r -> Q (k, v) -> Forall Q (define r k v).
Proof.
  intros Hr Hv. induction Hr as [|[k0 v0] r H0 Hr IH]; simpl.
  - constructor; auto.
  - destruct (String.eqb_spec k0 k); constructor; auto. now subst.
Qed.

Lemma set_Forall_at (Q : string * json -> Prop) r k v :
  Forall Q (own r) -> Q (k, v) -> Forall Q (own (set r k v)).
Proof.
  intros Hr Hv. destruct (set_own r k v) as [-> | [_ [_ ->]]]; auto.
  now apply define_Forall_at.
Qed.

Lemma depth_prefix_or_value p d :
  0 <= d -> depth p <= d -> depth (prefix_or_value p) <= d.
Proof. destruct p; simpl; auto. Qed.

Lemma depth_len_key p d :
  0 <= d -> depth p < d -> depth (len_key p) <= d.
Proof.
  intros Hd Hp. destruct p as [|c p].
  - assumption.
  - unfold len_key. cbn [nonempty]. rewrite depth_app.
    change (depth ".__len") with 1. lia.
Qed.

Lemma depth_field_key p k : depth (field_key p k) <= depth p + 1 + depth k.
Proof.
  destruct p as [|c p].
  - unfold field_key. cbn [nonempty depth]. lia.
  - unfold field_key. cbn [nonempty]. rewrite !depth_app.
    change (depth ".") with 1. lia.
Qed.

Lemma depth_nonneg s : 0 <= depth s.
Proof. induction s as [|c s IH]; simpl; [lia|]. destruct (Ascii.eqb c "."); lia. Qed.

Section DepthBound.

Variable summ : json -> string.
Variable d : Z.
Hypothesis d_nonneg : 0 <= d.

Lemma flattenObject_with_shallow v :
  plain_keys v = true ->
  forall p out, depth p <= d -> Forall (shallow d) (own out) ->
  Forall (shallow d) (own (flattenObject_with summ d v p out)).
Proof.
  induction v as [| b | n | s | l IH | kvs IH] using json_ind;
    intros Hv p out Hp Hout.
  - assumption.
  - scalar_write; apply set_Forall_at; auto;
      now apply depth_prefix_or_value.
  - scalar_write; apply set_Forall_at; auto;
      now apply depth_prefix_or_value.
  - scalar_write; apply set_Forall_at; auto;
      now apply depth_prefix_or_value.
  - destruct (depth p >=? d) eqn:Hd.
    + rewrite flattenObject_with_limit by auto.
      apply set_Forall_at; auto. now apply depth_prefix_or_value.
    + rewrite flattenObject_with_array by auto.
      rewrite Z.geb_leb in Hd. apply Z.leb_gt in Hd.
      assert (Hstart : Forall (shallow d)
                (own (set out (len_key p)
                        (JNum (Num.of_nat (List.length l))))))
        by (apply set_Forall_at; auto; now apply depth_len_key).
      revert Hstart.
      generalize (set out (len_key p) (JNum (Num.of_nat (List.length l)))).
      generalize 0%nat. simpl in Hv. clear Hout.
      induction IH as [|x l Hx Hl IHl]; intros i acc Hacc; simpl; auto.
      simpl in Hv. apply andb_prop in Hv as [Hvx Hvl].
      destruct (i <? 8)%nat eqn:Hi; auto.
      apply Nat.ltb_lt in Hi.
      assert (Hk : depth (elem_key p i) <= d)
        by (rewrite depth_elem_key by assumption; lia).
      apply IHl; auto.
      destruct (typeof_object x && negb (is_null x)).
      * now apply Hx.
      * now apply set_Forall_at.
  - destruct (depth p >=? d) eqn:Hd.
    + rewrite flattenObject_with_limit by auto.
      apply set_Forall_at; auto. now apply depth_prefix_or_value.
    + rewrite flattenObject_with_object by auto.
      rewrite Z.geb_leb in Hd. apply Z.leb_gt in Hd.
      revert out Hout. simpl in Hv.
      induction IH as [|[k x] kvs Hx Hl IHl]; intros acc Hacc; simpl; auto.
      simpl in Hv. apply andb_prop in Hv as [Hvx Hvl].
      apply andb_prop in Hvx as [Hk Hvx]. apply Z.eqb_eq in Hk.
      assert (Hkey : depth (field_key p k) <= d)
        by (pose proof (depth_field_key p k); lia).
      apply IHl; auto.
      destruct (truthy x && typeof_object x).
      * now apply Hx.
      * now apply set_Forall_at.
Qed.

End DepthBound.

(** X2. When no field name of the value contains a ['.'], every key of the
    record [flattenObject] builds from the root has at most [depthLimit]
    separators ['.'], for any depth limit that is not negative. *)
Theorem flattenObject_keys_shallow :
  forall (v : json) (depthLimit : Z),
    plain_keys v = true -> 0 <= depthLimit ->
    Forall (fun kv => depth (fst kv) <= depthLimit)
      (own (flattenObject depthLimit v "" empty)).
Proof.
  intros v d Hv Hd.
  apply (flattenObject_with_shallow summarize d Hd v Hv); [exact Hd|constructor].
Qed.

Lemma flattenObject_keys_shallow_witness :
  Forall (fun kv => depth (fst kv) <= 4) (own (flattenObject 4 sample_wide_element "" empty)).
Proof.
  apply flattenObject_keys_shallow; [reflexivity | lia].
Defined.

(** ** Values that fit the depth limit are flattened in full *)

Lemma fold_max_nonneg {A} (f : A -> Z) l :
  0 <= fold_right (fun x m => Z.max (f x) m) 0 l.
Proof. induction l; cbn [fold_right]; lia. Qed.

Lemma need_array top l : need top (JArray l) = need_each l 0.
Proof. reflexivity. Qed.

Lemma need_each_nonneg l : forall i, 0 <= need_each l i.
Proof.
  induction l as [|x l IH]; intros i; cbn [need_each]; [lia|].
  destruct (i <? 8)%nat; [|lia]. specialize (IH (S i)). lia.
Qed.

Lemma need_nonneg top v : 0 <= need top v.
Proof.
  destruct v as [| | | | l | kvs]; try (simpl; lia).
  - rewrite need_array. apply need_each_nonneg.
  - apply (fold_max_nonneg
             (fun kv : string * json =>
                if is_container (snd kv)
                then (if top then 0 else 1) + depth (fst kv)
                     + need (top && negb (nonempty (fst kv))) (snd kv)
                else 0)).
Qed.

Lemma nonempty_elem_key p i : nonempty (elem_key p i) = true.
Proof. unfold elem_key. destruct p; reflexivity. Qed.

Lemma expanded_array_container v :
  typeof_object v && negb (is_null v) = true -> is_container v = true.
Proof. destruct v; simpl; congruence. Qed.

Lemma expanded_field_container v :
  truthy v && typeof_object v = true -> is_container v = true.
Proof. destruct v; simpl; try congruence; rewrite ?andb_false_r; congruence. Qed.

Section Fits.

Variables summ1 summ2 : json -> string.
Variable d : Z.

Lemma each_elem_fits p l :
  Forall (fun v => forall p out,
            depth p + need (negb (nonempty p)) v < d ->
            flattenObject_with summ1 d v p out
            = flattenObject_with summ2 d v p out) l ->
  forall i out, depth p + need_each l i < d ->
  each_elem summ1 d p l i out = each_elem summ2 d p l i out.
Proof.
  induction 1 as [|v l Hv Hl IHl]; intros i out Hfit; simpl; auto.
  cbn [need_each] in Hfit.
  destruct (i <? 8)%nat eqn:Hi; auto.
  apply Nat.ltb_lt in Hi.
  rewrite IHl by lia.
  destruct (typeof_object v && negb (is_null v)); auto.
  rewrite Hv; auto.
  rewrite nonempty_elem_key, depth_elem_key by assumption.
  cbn [negb]. lia.
Qed.

Lemma each_field_fits p (kvs : list (string * json)) :
  Forall (fun kv => forall p out,
            depth p + need (negb (nonempty p)) (snd kv) < d ->
            flattenObject_with summ1 d (snd kv) p out
            = flattenObject_with summ2 d (snd kv) p out) kvs ->
  depth p
  + fold_right
      (fun kv m =>
         Z.max (if is_container (snd kv)
                then (if negb (nonempty p) then 0 else 1) + depth (fst kv)
                     + need (negb (nonempty p) && negb (nonempty (fst kv)))
                         (snd kv)
                else 0) m)
      0 kvs < d ->
  forall out, each_field summ1 d p kvs out = each_field summ2 d p kvs out.
Proof.
  induction 1 as [|[k v] kvs Hv Hl IHl]; intros Hfit out; simpl; auto.
  cbn [fold_right fst snd] in Hfit.
  rewrite IHl by lia.
  destruct (truthy v && typeof_object v) eqn:E; auto.
  apply expanded_field_container in E. rewrite E in Hfit.
  simpl in Hv. rewrite Hv; auto.
  destruct p as [|c p].
  - cbn [nonempty negb andb depth] in Hfit.
    unfold field_key. cbn [nonempty]. lia.
  - cbn [nonempty negb andb] in Hfit.
    unfold field_key. cbn [nonempty]. rewrite !depth_app.
    change (depth ".") with 1.
    change (nonempty (String c p ++ "." ++ k)) with true.
    cbn [negb]. lia.
Qed.

Lemma flattenObject_with_fits v :
  forall p out, depth p + need (negb (nonempty p)) v < d ->
  flattenObject_with summ1 d v p out = flattenObject_with summ2 d v p out.
Proof.
  induction v as [| b | n | s | l IH | kvs IH] using json_ind;
    intros p out Hfit.
  - reflexivity.
  - assert (Hd : (depth p >=? d) = false)
      by (rewrite Z.geb_leb; apply Z.leb_gt; simpl in Hfit; lia).
    now rewrite !flattenObject_with_scalar.
  - assert (Hd : (depth p >=? d) = false)
      by (rewrite Z.geb_leb; apply Z.leb_gt; simpl in Hfit; lia).
    now rewrite !flattenObject_with_scalar.
  - assert (Hd : (depth p >=? d) = false)
      by (rewrite Z.geb_leb; apply Z.leb_gt; simpl in Hfit; lia).
    now rewrite !flattenObject_with_scalar.
  - assert (Hd : (depth p >=? d) = false)
      by (rewrite Z.geb_leb; apply Z.leb_gt;
          pose proof (need_nonneg (negb (nonempty p)) (JArray l)); lia).
    rewrite !flattenObject_with_array by assumption.
    apply each_elem_fits; [assumption|].
    rewrite need_array in Hfit. exact Hfit.
  - assert (Hd : (depth p >=? d) = false)
      by (rewrite Z.geb_leb; apply Z.leb_gt;
          pose proof (need_nonneg (negb (nonempty p)) (JObject kvs)); lia).
    rewrite !flattenObject_with_object by assumption.
    now apply each_field_fits.
Qed.

End Fits.

(** X3. A value whose nested containers all sit at paths with fewer
    separators than the depth limit is flattened without the depth-limit
    branch ever being taken: the record is the same whatever function
    stands in place of [summarize], so no placeholder is written.  [need]
    counts the separators as the keys have them: [{a: {b: 1}}] needs none
    and fits the limit 1, [{a: {b: {c: 1}}}] needs one and at the limit 1
    gets a placeholder. *)
Theorem flattenObject_fits_limit :
  (forall (v : json) (depthLimit : Z) (out : record) (summ : json -> string),
      v = JNull \/ need true v < depthLimit ->
      flattenObject_with summ depthLimit v "" out
      = flattenObject depthLimit v "" out)
  /\ need true sample_two_levels = 0
  /\ need true sample_three_levels = 1
  /\ own (flattenObject 1 sample_three_levels "" empty)
     = [("a.b", JStr "Object(1 keys)")].
Proof.
  split; [|vm_compute; auto].
  intros v d out summ [-> | Hfit]; [reflexivity|].
  apply flattenObject_with_fits. simpl. lia.
Qed.

Lemma flattenObject_fits_limit_witness :
  flattenObject_with (fun _ => "?") 1 sample_two_levels "" empty
  = flattenObject 1 sample_two_levels "" empty
  /\ flattenObject_with (fun _ => "?") 4 sample_wide_element "" empty
     = flattenObject 4 sample_wide_element "" empty.
Proof.
  destruct flattenObject_fits_limit as [H _].
  split; apply H; right; vm_compute; reflexivity.
Defined.

(** ** Where the numeric pairs come from *)

Lemma insert_index_perm x l : Permutation (insert_index x l) (x :: l).
Proof.
  induction l as [|y l IH]; simpl; auto.
  destruct (fst x <=? fst y); auto.
  rewrite IH. apply perm_swap.
Qed.

Lemma index_entries_perm r :
  Permutation (map snd (index_entries r))
    (filter (fun kv => match array_index (fst kv) with
                       | Some _ => true | None => false end) r).
Proof.
  induction r as [|kv r IH]; simpl; auto.
  destruct (array_index (fst kv)); auto.
  rewrite insert_index_perm. simpl. now constructor.
Qed.

Lemma filter_split_perm {A} (f : A -> bool) l :
  Permutation (filter f l ++ filter (fun x => negb (f x)) l) l.
Proof.
  induction l as [|x l IH]; simpl; auto.
  destruct (f x); simpl.
  - now constructor.
  - rewrite <- Permutation_middle. now constructor.
Qed.

Lemma entries_perm r : Permutation (entries r) r.
Proof.
  unfold entries. rewrite index_entries_perm.
  rewrite <- (filter_split_perm
                (fun kv : string * json =>
                   match array_index (fst kv) with
                   | Some _ => true | None => false end) r) at 3.
  apply Permutation_app_head.
  match goal with
  | |- Permutation (filter ?f r) (filter ?g r) =>
      rewrite (filter_ext f g); [reflexivity|]
  end.
  intros kv. destruct (array_index (fst kv)); reflexivity.
Qed.

Lemma get_In r k v : NoDup (map fst r) -> In (k, v) r -> get r k = Some v.
Proof.
  induction r as [|[k0 v0] r IH]; simpl; [tauto|].
  intros Hnd [Heq | Hin].
  - injection Heq as -> ->. now rewrite String.eqb_refl.
  - inversion Hnd as [|? ? Hk0 Hr]; subst.
    destruct (String.eqb_spec k0 k) as [->|_]; auto.
    exfalso. apply Hk0. apply (in_map fst) in Hin. exact Hin.
Qed.

Lemma numeric_pairs_In es p :
  In p (numeric_pairs es) ->
  exists v, In (label p, v) es /\ value p = numeric v.
Proof.
  induction es as [|[k v] es IH]; simpl; [tauto|].
  destruct (Num.isFinite (numeric v)); simpl;
    [|intros H; destruct (IH H) as [x [? ?]]; eauto].
  destruct (Num.eqb (Num.abs (numeric v)) Num.zero);
    [intros H; destruct (IH H) as [x [? ?]]; eauto|].
  intros [<- | H]; simpl; eauto.
  destruct (IH H) as [x [? ?]]; eauto.
Qed.

Lemma numeric_pairs_complete es k v :
  In (k, v) es ->
  Num.isFinite (numeric v) = true ->
  Num.eqb (Num.abs (numeric v)) Num.zero = false ->
  In {| label := k; value := numeric v |} (numeric_pairs es).
Proof.
  intros Hin Hf Hz.
  induction es as [|[k0 v0] es IH]; simpl in *; [tauto|].
  destruct Hin as [Heq | Hin].
  - injection Heq as -> ->. rewrite Hf, Hz. simpl. now left.
  - destruct (Num.isFinite (numeric v0)); simpl; auto.
    destruct (Num.eqb (Num.abs (numeric v0)) Num.zero); simpl; auto.
Qed.

Lemma numeric_pairs_labels es x :
  In x (map label (numeric_pairs es)) -> In x (map fst es).
Proof.
  rewrite !in_map_iff. intros [p [<- Hp]].
  destruct (numeric_pairs_In es p Hp) as [v [Hv _]].
  exists (label p, v). auto.
Qed.

Lemma numeric_pairs_NoDup es :
  NoDup (map fst es) -> NoDup (map label (numeric_pairs es)).
Proof.
  induction es as [|[k v] es IH]; simpl; intros H; [constructor|].
  inversion H as [|? ? Hk Hes]; subst.
  destruct (Num.isFinite (numeric v)); simpl; auto.
  destruct (Num.eqb (Num.abs (numeric v)) Num.zero); simpl; auto.
  constructor; auto. intros Hin. apply Hk. now apply numeric_pairs_labels.
Qed.

Lemma firstn_NoDup {A} n (l : list A) : NoDup l -> NoDup (firstn n l).
Proof.
  intros H. rewrite <- (firstn_skipn n l) in H.
  now apply NoDup_app_remove_r in H.
Qed.

Lemma flatten_keys_NoDup data : NoDup (map fst (own (flatten data))).
Proof.
  apply (flattenObject_with_inv (fun _ => true) (fun _ => eq_refl)
           (fun r => NoDup (map fst (own r)))).
  - intros r k x _ _ Hr. now apply set_keys_NoDup.
  - apply all_numbers_true.
  - constructor.
Qed.

(** X4. Every pair [findNumericPairs] returns comes from an entry of the
    flattened record: its label is a key of the record and its value is the
    number stored under that key, or the number read from the string stored
    there.  No two pairs have the same label. *)
Theorem findNumericPairs_from_entries :
  (forall data p,
      In p (findNumericPairs data) ->
      exists v, get (own (flatten data)) (label p) = Some v /\ value p = numeric v)
  /\ (forall data, NoDup (map label (findNumericPairs data))).
Proof.
  split.
  - intros data p Hp. unfold findNumericPairs in Hp.
    apply firstn_incl in Hp.
    apply (Permutation_in _ (sort_perm by_magnitude _)) in Hp.
    destruct (numeric_pairs_In _ _ Hp) as [v [Hin Hv]].
    exists v. split; auto.
    apply get_In; [apply flatten_keys_NoDup|].
    now apply (Permutation_in _ (entries_perm _)).
  - intros data. unfold findNumericPairs.
    rewrite <- firstn_map. apply firstn_NoDup.
    eapply Permutation_NoDup.
    + apply Permutation_map. symmetry. apply sort_perm.
    + apply numeric_pairs_NoDup.
      eapply Permutation_NoDup.
      * apply Permutation_map. symmetry. apply entries_perm.
      * apply flatten_keys_NoDup.
Qed.

Lemma findNumericPairs_from_entries_witness :
  exists v,
    get (own (flatten sample_numbers)) "c" = Some v
    /\ Num.of_decimal false 425 (-1) = numeric v.
Proof.
  apply (proj1 findNumericPairs_from_entries sample_numbers
           {| label := "c"; value := Num.of_decimal false 425 (-1) |}).
  vm_compute. auto.
Defined.

(** ** The pairs left out are the smallest *)

Lemma descending_below_head l : forall a,
  descending (a :: l) ->
  forall x, In x l -> (magnitude x <= magnitude a)%Q.
Proof.
  induction l as [|b l IHl]; intros a Hd x Hx; [destruct Hx|].
  pose proof (descending_head _ _ _ Hd) as Hba.
  destruct Hx as [<- | Hx]; auto.
  eapply Qle_trans; [|exact Hba].
  apply IHl; auto. eapply descending_tail; eauto.
Qed.

Lemma descending_split l1 : forall l2,
  descending (l1 ++ l2) ->
  forall p q, In p l1 -> In q l2 -> (magnitude q <= magnitude p)%Q.
Proof.
  induction l1 as [|a l1 IH]; intros l2 Hd p q Hp Hq; [destruct Hp|].
  destruct Hp as [<- | Hp].
  - apply (descending_below_head (l1 ++ l2) a Hd).
    apply in_or_app. now right.
  - apply (IH l2); auto. eapply descending_tail. exact Hd.
Qed.

(** X5. [findNumericPairs] splits the candidates (the entries of the
    flattened record whose number is finite and not zero) into the pairs it
    returns and the pairs it leaves out; a pair left out is never larger in
    magnitude than a pair returned, and nothing is left out when there are
    at most 12 candidates. *)
Theorem findNumericPairs_largest :
  forall data : json,
    json_valid data = true ->
    exists rest,
      Permutation (findNumericPairs data ++ rest)
        (numeric_pairs (entries (own (flatten data))))
      /\ (forall k v,
             In (k, v) (own (flatten data)) ->
             Num.isFinite (numeric v) = true ->
             Num.eqb (Num.abs (numeric v)) Num.zero = false ->
             In {| label := k; value := numeric v |}
                (findNumericPairs data ++ rest))
      /\ (forall p q,
             In p (findNumericPairs data) -> In q rest ->
             (magnitude q <= magnitude p)%Q)
      /\ ((List.length (numeric_pairs (entries (own (flatten data)))) <= 12)%nat ->
          rest = []).
Proof.
  intros data Hv. unfold findNumericPairs.
  set (cands := numeric_pairs (entries (own (flatten data)))).
  exists (skipn 12 (sort by_magnitude cands)).
  assert (Hok : Forall pair_ok cands).
  { eapply Forall_impl; [|apply numeric_pairs_kept].
    - intros p Hp. apply Hp.
    - apply Forall_forall. intros kv Hkv. apply entries_In in Hkv.
      pose proof (flattenObject_numbers_in_range 4 data "" Hv) as Hr.
      unfold numbers_in_range in Hr. rewrite Forall_forall in Hr.
      now apply Hr. }
  assert (Hperm : Permutation
                    (firstn 12 (sort by_magnitude cands)
                     ++ skipn 12 (sort by_magnitude cands)) cands)
    by (rewrite firstn_skipn; apply sort_perm).
  split; [exact Hperm|]. split; [|split].
  - intros k v Hin Hf Hz.
    apply (Permutation_in _ (Permutation_sym Hperm)).
    apply numeric_pairs_complete; auto.
    now apply (Permutation_in _ (Permutation_sym (entries_perm _))).
  - apply descending_split. rewrite firstn_skipn.
    now apply sort_descending.
  - intros Hlen. apply skipn_all2.
    rewrite (Permutation_length (sort_perm by_magnitude cands)). exact Hlen.
Qed.

Lemma findNumericPairs_largest_witness :
  exists rest,
    Permutation (findNumericPairs sample_numbers ++ rest)
      (numeric_pairs (entries (own (flatten sample_numbers))))
    /\ rest = [].
Proof.
  assert (H : json_valid sample_numbers = true) by (vm_compute; reflexivity).
  destruct (findNumericPairs_largest sample_numbers H)
    as [rest [Hperm [_ [_ Hall]]]].
  exists rest. split; [exact Hperm|].
  apply Hall. vm_compute. repeat constructor.
Defined.

(** ** The shape of the summary *)

Lemma flatten_array_get l k :
  k <> "__len" -> (forall rest, k <> String "[" rest) ->
  get (own (flatten (JArray l))) k = None.
Proof.
  intros Hlen Hbr. unfold flatten, flattenObject.
  rewrite flattenObject_with_array by reflexivity.
  rewrite each_elem_get_other.
  - rewrite get_set_other by assumption. reflexivity.
  - intros j rest _ _ _. apply Hbr.
Qed.

Lemma no_context (flat : record) :
  plain_prototype flat ->
  get (own flat) "suburb" = None -> get (own flat) "name" = None ->
  get (own flat) "area" = None ->
  truthy_opt
    (or_else (or_else (or_else (read flat "suburb") (read flat "name"))
                (read flat "area")) (Some (Data (JStr "")))) = false.
Proof.
  intros Hp H1 H2 H3.
  rewrite !read_own
    by (auto; unfold object_prototype_names; simpl; intuition discriminate).
  rewrite H1, H2, H3. reflexivity.
Qed.

(** X6. The summary of an array is always the three items [Items],
    [Fields (sample)] and [Type] = ["Array"], and the summary of a scalar or
    [null] is the single item [Type]: for these values no [Context] item is
    ever produced, because no key of their flattened record is [suburb],
    [name] or [area]. *)
Theorem computeSummary_without_context :
  (forall l : list json,
      computeSummary (JArray l)
      = [("Items", JStr (length_toLocaleString (List.length l)));
         ("Fields (sample)",
          JNum (Num.of_nat
                  (List.length (keys (own (flatten (first_or_empty l)))))));
         ("Type", JStr "Array")])
  /\ (forall v : json,
         is_container v = false ->
         computeSummary v = [("Type", JStr (typeof v))]).
Proof.
  split.
  - intros l. unfold computeSummary.
    rewrite no_context; [reflexivity| | | |];
      try (apply flatten_array_get; discriminate).
    apply flattenObject_plain_prototype. exact I.
  - intros v Hv. destruct v; try discriminate; unfold computeSummary;
      cbn [truthy typeof_object andb]; rewrite ?andb_false_r;
      (rewrite no_context; [reflexivity| | | |]);
      try (apply flattenObject_plain_prototype; exact I);
      unfold flatten, flattenObject; simpl; reflexivity.
Qed.

Lemma computeSummary_without_context_witness :
  computeSummary (num 7) = [("Type", JStr "number")].
Proof.
  apply (proj2 computeSummary_without_context). reflexivity.
Defined.

(** ** [escapeHtml] *)

Lemma escape_char_clean c x :
  markup_char x = true -> count_char x (escape_char c) = 0%nat.
Proof.
  unfold markup_char, escape_char. intros Hx.
  destruct (Ascii.eqb_spec c "&");
    [|destruct (Ascii.eqb_spec c "<");
      [|destruct (Ascii.eqb_spec c ">");
        [|destruct (Ascii.eqb_spec c dquote);
          [|destruct (Ascii.eqb_spec c "'")]]]].
  1-5: repeat (apply orb_prop in Hx as [Hx | Hx]);
       apply Ascii.eqb_eq in Hx; subst x; reflexivity.
  simpl. destruct (Ascii.eqb_spec c x); auto. subst x.
  repeat (apply orb_prop in Hx as [Hx | Hx]);
    apply Ascii.eqb_eq in Hx; congruence.
Qed.

Lemma escape_char_plain c :
  Ascii.eqb c "&" = false -> markup_char c = false ->
  escape_char c = String c EmptyString.
Proof.
  unfold markup_char, escape_char. intros -> H.
  repeat (apply orb_false_elim in H as [H ?]).
  now rewrite H, H0, H1, H2.
Qed.

Lemma escape_char_inj c1 c2 r1 r2 :
  escape_char c1 ++ r1 = escape_char c2 ++ r2 -> c1 = c2 /\ r1 = r2.
Proof.
  unfold escape_char.
  destruct (Ascii.eqb_spec c1 "&");
    [|destruct (Ascii.eqb_spec c1 "<");
      [|destruct (Ascii.eqb_spec c1 ">");
        [|destruct (Ascii.eqb_spec c1 dquote);
          [|destruct (Ascii.eqb_spec c1 "'")]]]];
  (destruct (Ascii.eqb_spec c2 "&");
    [|destruct (Ascii.eqb_spec c2 "<");
      [|destruct (Ascii.eqb_spec c2 ">");
        [|destruct (Ascii.eqb_spec c2 dquote);
          [|destruct (Ascii.eqb_spec c2 "'")]]]]);
  subst; simpl; intros H;
  try discriminate H;
  try (injection H; intros; subst; split; congruence).
Qed.

Lemma escapeHtml_clean s c :
  markup_char c = true -> count_char c (escapeHtml s) = 0%nat.
Proof.
  intros Hc. induction s as [|a s IH]; simpl; auto.
  rewrite count_char_app, IH, escape_char_clean by assumption. reflexivity.
Qed.

(** X7. The text [escapeHtml] returns contains none of the characters [<],
    [>], the double quote and the single quote; a text without these and without [&] is returned
    unchanged; and different texts are escaped to different texts. *)
Theorem escapeHtml_safe :
  (forall s c, markup_char c = true -> count_char c (escapeHtml s) = 0%nat)
  /\ (forall s,
         count_char "&" s = 0%nat ->
         (forall c, markup_char c = true -> count_char c s = 0%nat) ->
         escapeHtml s = s)
  /\ (forall s1 s2, escapeHtml s1 = escapeHtml s2 -> s1 = s2).
Proof.
  split; [|split].
  - intros s c Hc. now apply escapeHtml_clean.
  - induction s as [|a s IH]; simpl; auto.
    intros Hamp Hmark.
    destruct (Ascii.eqb a "&") eqn:Ea; [discriminate|].
    assert (Ha : markup_char a = false).
    { destruct (markup_char a) eqn:E; auto.
      specialize (Hmark a E). simpl in Hmark.
      rewrite Ascii.eqb_refl in Hmark. discriminate. }
    rewrite escape_char_plain by assumption. simpl. f_equal.
    apply IH; auto.
    intros c Hc. specialize (Hmark c Hc). simpl in Hmark. lia.
  - induction s1 as [|a s1 IH]; intros [|b s2] H; simpl in H.
    + reflexivity.
    + exfalso. unfold escape_char in H.
      repeat match type of H with
             | context [if ?t then _ else _] => destruct t
             end; discriminate.
    + exfalso. unfold escape_char in H.
      repeat match type of H with
             | context [if ?t then _ else _] => destruct t
             end; discriminate.
    + apply escape_char_inj in H as [-> H]. f_equal. now apply IH.
Qed.

Lemma escapeHtml_safe_witness :
  count_char "<" (escapeHtml "<b>R&D</b>") = 0%nat
  /\ escapeHtml "Testville" = "Testville"
  /\ "a<b" = "a<b".
Proof.
  destruct escapeHtml_safe as [Hclean [Hsame Hinj]].
  split; [|split].
  - apply Hclean. reflexivity.
  - apply Hsame; [reflexivity|].
    intros c Hc. unfold markup_char in Hc.
    repeat (apply orb_prop in Hc as [Hc | Hc]);
      apply Ascii.eqb_eq in Hc; subst c; reflexivity.
  - apply Hinj. reflexivity.
Defined.

(** ** The summary cards *)

Lemma computeSummary_length data :
  (1 <= List.length (computeSummary data) <= 4)%nat.
Proof.
  unfold computeSummary.
  match goal with
  | |- context [if truthy_opt ?s then _ else _] => destruct (truthy_opt s)
  end;
  destruct data; cbn [truthy typeof_object andb];
    try match goal with
        | |- context [if ?b then _ else _] => destruct b
        end;
    rewrite ?length_app; cbn [List.length]; lia.
Qed.

Lemma card_html_markup it :
  count_char "<" (card_html it) = 4%nat
  /\ count_char ">" (card_html it) = 4%nat
  /\ count_char dquote (card_html it) = 4%nat.
Proof.
  unfold card_html.
  repeat split;
    rewrite !count_char_app, !escapeHtml_clean by reflexivity; reflexivity.
Qed.

(** X8. [renderSummary] writes one card per item, and whatever the label and
    the value of an item are, the markup of its card has exactly four [<],
    four [>] and four double quotes, those of its own two [div] elements: no
    text of an item opens or closes a tag or an attribute.  The summary is
    hidden only for an empty list of items, which [computeSummary] never
    returns: a response always gives between one and four cards. *)
Theorem renderSummary_cards :
  (forall items,
      List.length (cards (renderSummary items)) = List.length items
      /\ (summary_hidden (renderSummary items) = true <-> items = [])
      /\ Forall (fun html =>
                   count_char "<" html = 4%nat
                   /\ count_char ">" html = 4%nat
                   /\ count_char dquote html = 4%nat)
           (cards (renderSummary items)))
  /\ (forall data,
         summary_hidden (renderSummary (computeSummary data)) = false
         /\ (1 <= List.length (cards (renderSummary (computeSummary data))) <= 4)%nat).
Proof.
  split.
  - intros items. unfold renderSummary. cbn [cards summary_hidden].
    split; [apply length_map|]. split.
    + destruct items; simpl; split; congruence.
    + apply Forall_forall. intros html Hin.
      apply in_map_iff in Hin as [it [<- _]]. apply card_html_markup.
  - intros data. unfold renderSummary. cbn [cards summary_hidden].
    rewrite length_map. pose proof (computeSummary_length data) as H.
    split; [|exact H].
    destruct (computeSummary data); simpl in *; [lia|reflexivity].
Qed.

(** ** The table of an object, and the shape of every table *)

Lemma flattenObject_keys_NoDup d v p :
  NoDup (map fst (own (flattenObject d v p empty))).
Proof.
  apply (flattenObject_with_inv (fun _ => true) (fun _ => eq_refl)
           (fun r => NoDup (map fst (own r)))).
  - intros r k x _ _ Hr. now apply set_keys_NoDup.
  - apply all_numbers_true.
  - constructor.
Qed.

Lemma get_Some_In r k v : get r k = Some v -> In (k, v) r.
Proof.
  induction r as [|[k0 v0] r IH]; simpl; [discriminate|].
  destruct (String.eqb_spec k0 k) as [->|_].
  - intros [= ->]. now left.
  - intros H. right. now apply IH.
Qed.

(** X9. [renderTable] hides the table exactly for the values that are
    neither an array nor an object.  Every table it builds is a grid: each
    row has as many cells as there are columns.  The table of an object has
    the two columns [key] and [value] and one row for each entry of the
    record flattened with depth limit 2, holding the key and the formatted
    value; no two rows have the same key. *)
Theorem renderTable_grid :
  (forall data, renderTable data = None <-> is_container data = false)
  /\ (forall data t,
         renderTable data = Some t ->
         Forall (fun cells => List.length cells = List.length (columns t))
           (rows t))
  /\ (forall kvs,
         let flat := own (flattenObject 2 (JObject kvs) "" empty) in
         exists t,
           renderTable (JObject kvs) = Some t
           /\ columns t = ["key"; "value"]
           /\ List.length (rows t) = List.length flat
           /\ NoDup (map (hd "") (rows t))
           /\ (forall k v,
                  get flat k = Some v ->
                  In [k; formatVal (Some (Data v))] (rows t))
           /\ (forall cells,
                  In cells (rows t) ->
                  exists k v,
                    get flat k = Some v
                    /\ cells = [k; formatVal (Some (Data v))])).
Proof.
  split; [|split].
  - intros data. unfold renderTable.
    destruct data; cbn [truthy typeof_object is_container andb];
      rewrite ?andb_false_r; split; congruence.
  - intros data t Ht. apply Forall_forall. intros cells Hin.
    unfold renderTable in Ht.
    destruct data; cbn [truthy typeof_object andb] in Ht;
      rewrite ?andb_false_r in Ht; try discriminate;
      injection Ht as <-; cbn [rows columns] in *;
      apply in_map_iff in Hin as [x [<- _]].
    + apply length_map.
    + reflexivity.
  - intros kvs flat.
    pose proof (flattenObject_keys_NoDup 2 (JObject kvs) "") as Hnd.
    fold flat in Hnd.
    pose proof (entries_perm flat) as Hperm.
    eexists. split; [reflexivity|]. cbn [rows columns]. fold flat.
    split; [reflexivity|]. split; [|split; [|split]].
    + rewrite length_map. now apply Permutation_length.
    + rewrite map_map. cbn [hd].
      apply (Permutation_NoDup (l := map fst flat)); auto.
      apply Permutation_map. now symmetry.
    + intros k v Hget. apply get_Some_In in Hget.
      apply in_map_iff. exists (k, v). split; [reflexivity|].
      apply (Permutation_in _ (Permutation_sym Hperm)). exact Hget.
    + intros cells Hin. apply in_map_iff in Hin as [[k v] [<- Hin]].
      exists k, v. split; [|reflexivity].
      apply get_In; auto. apply (Permutation_in _ Hperm). exact Hin.
Qed.

Lemma renderTable_grid_witness :
  Forall (fun cells => List.length cells = 3%nat)
    [["1"; "2"; ""]; ["3"; ""; "4"]].
Proof.
  destruct renderTable_grid as [_ [Hgrid _]].
  exact (Hgrid (JArray sample_rows) _ ltac:(vm_compute; reflexivity)).
Defined.

(** ** [formatNumber] at the edges *)

Lemma small_integers_all (P : Z -> bool) :
  forallb P small_integers = true ->
  forall z, -1000 < z < 1000 -> P z = true.
Proof.
  intros H z Hz. rewrite forallb_forall in H. apply H.
  unfold small_integers. apply in_map_iff.
  exists (Z.to_nat (z + 999)). split; [lia|].
  apply in_seq. lia.
Qed.

(** X10. [formatNumber] prints an integer of magnitude below 1000 as its
    plain decimal numeral, with no suffix, separator or decimals.  A number
    that is not finite falls through or into the first rule: [NaN] is
    printed as ["NaN"], and an infinity as ["InfinityB"] or
    ["-InfinityB"]. *)
Theorem formatNumber_small_and_non_finite :
  (forall z, -1000 < z < 1000 -> formatNumber (Num.of_Z z) = numeral z)
  /\ (forall n,
         Num.isFinite n = false ->
         formatNumber n
         = match n with
           | S754_infinity true => "-InfinityB"
           | S754_infinity false => "InfinityB"
           | _ => "NaN"
           end).
Proof.
  split.
  - intros z Hz. apply String.eqb_eq.
    apply (small_integers_all
             (fun z => String.eqb (formatNumber (Num.of_Z z)) (numeral z)));
      [vm_compute; reflexivity | exact Hz].
  - intros n Hn. destruct n as [s|s| |s m e]; try discriminate.
    + destruct s; vm_compute; reflexivity.
    + vm_compute. reflexivity.
Qed.

Lemma formatNumber_small_and_non_finite_witness :
  formatNumber (Num.of_Z (-7)) = "-7"
  /\ formatNumber Num.Infinity = "InfinityB".
Proof.
  destruct formatNumber_small_and_non_finite as [Hsmall Hnonfinite].
  split.
  - exact (Hsmall (-7) ltac:(lia)).
  - exact (Hnonfinite Num.Infinity ltac:(reflexivity)).
Defined.

(** ** The request URL *)

Lemma all_chars_app P a b :
  all_chars P (a ++ b) = all_chars P a && all_chars P b.
Proof.
  induction a as [|c a IH]; simpl; auto. now rewrite IH, andb_assoc.
Qed.

Lemma all_chars_count P s c :
  all_chars P s = true -> P c = false -> count_char c s = 0%nat.
Proof.
  intros Hs Hc. induction s as [|a s IH]; simpl in *; auto.
  apply andb_prop in Hs as [Ha Hs].
  destruct (Ascii.eqb_spec a c); [congruence|]. now apply IH.
Qed.

Lemma encode_unit_chars c : all_chars component_char (encode_unit c) = true.
Proof. destruct c as [[] [] [] [] [] [] [] []]; reflexivity. Qed.

Lemma encode_unit_length c :
  (1 <= String.length (encode_unit c) <= 6)%nat.
Proof. destruct c as [[] [] [] [] [] [] [] []]; simpl; lia. Qed.

Lemma encode_unit_unreserved c :
  unreserved c = true -> encode_unit c = String c EmptyString.
Proof. intros H. unfold encode_unit. now rewrite H. Qed.

Lemma decode_encode_unit c r : decode_unit (encode_unit c ++ r) = Some (c, r).
Proof. destruct c as [[] [] [] [] [] [] [] []]; reflexivity. Qed.

Lemma encodeURIComponent_chars s :
  all_chars component_char (encodeURIComponent s) = true.
Proof.
  induction s as [|c s IH]; simpl; auto.
  now rewrite all_chars_app, encode_unit_chars, IH.
Qed.

Lemma encodeURIComponent_inj s1 :
  forall s2, encodeURIComponent s1 = encodeURIComponent s2 -> s1 = s2.
Proof.
  induction s1 as [|a s1 IH]; intros [|b s2] H; simpl in H.
  - reflexivity.
  - apply (f_equal decode_unit) in H.
    rewrite decode_encode_unit in H. discriminate.
  - apply (f_equal decode_unit) in H.
    rewrite decode_encode_unit in H. discriminate.
  - apply (f_equal decode_unit) in H.
    rewrite !decode_encode_unit in H. injection H as -> H.
    f_equal. now apply IH.
Qed.

Lemma encodeURIComponent_unreserved s :
  all_chars unreserved s = true -> encodeURIComponent s = s.
Proof.
  induction s as [|c s IH]; simpl; auto.
  intros H. apply andb_prop in H as [Hc Hs].
  rewrite encode_unit_unreserved by assumption. simpl. f_equal. auto.
Qed.

(** X11. [encodeURIComponent] returns letters, digits, the marks
    [- _ . ! ~ * ' ( )] and [%] only; a text of letters, digits and these
    marks is returned unchanged; a code unit becomes between one and six
    characters; and different texts are encoded differently. *)
Theorem encodeURIComponent_component :
  (forall s, all_chars component_char (encodeURIComponent s) = true)
  /\ (forall s, all_chars unreserved s = true -> encodeURIComponent s = s)
  /\ (forall s,
         (String.length s <= String.length (encodeURIComponent s)
          <= 6 * String.length s)%nat)
  /\ (forall s1 s2, encodeURIComponent s1 = encodeURIComponent s2 -> s1 = s2).
Proof.
  split; [|split; [|split]].
  - apply encodeURIComponent_chars.
  - apply encodeURIComponent_unreserved.
  - induction s as [|c s IH]; simpl; [lia|].
    rewrite string_length_app. pose proof (encode_unit_length c). lia.
  - intros s1 s2. apply encodeURIComponent_inj.
Qed.

Lemma encodeURIComponent_component_witness :
  encodeURIComponent "a-b_c" = "a-b_c".
Proof.
  destruct encodeURIComponent_component as [_ [Hsame _]].
  exact (Hsame "a-b_c" ltac:(reflexivity)).
Defined.

(** *** [trim] *)

Lemma skip_spaces_suffix l :
  exists pre, l = (pre ++ Num.skip_spaces l)%list
              /\ forallb Num.is_space pre = true.
Proof.
  induction l as [|c l [pre [Hl Hpre]]]; simpl.
  - exists []. auto.
  - destruct (Num.is_space c) eqn:Hc.
    + exists (c :: pre). simpl. rewrite Hc, Hpre. split; [now f_equal|auto].
    + exists []. auto.
Qed.

Lemma skip_spaces_head l c l' :
  Num.skip_spaces l = c :: l' -> Num.is_space c = false.
Proof.
  induction l as [|a l IH]; simpl; [discriminate|].
  destruct (Num.is_space a) eqn:Ha; auto.
  intros [= -> _]. exact Ha.
Qed.

Lemma skip_spaces_blank l :
  forallb Num.is_space l = true -> Num.skip_spaces l = [].
Proof.
  induction l as [|a l IH]; simpl; auto.
  intros H. apply andb_prop in H as [-> H]. auto.
Qed.

Lemma skip_spaces_fixed c l :
  Num.is_space c = false -> Num.skip_spaces (c :: l) = c :: l.
Proof. intros H. simpl. now rewrite H. Qed.

Lemma trim_ends l :
  Num.trim l = []
  \/ exists c mid d,
       (Num.trim l = [c] \/ Num.trim l = (c :: mid ++ [d])%list)
       /\ Num.is_space c = false /\ Num.is_space d = false.
Proof.
  unfold Num.trim.
  destruct (Num.skip_spaces l) as [|c l1] eqn:H1; [left; reflexivity|].
  pose proof (skip_spaces_head _ _ _ H1) as Hc.
  destruct (Num.skip_spaces (rev (c :: l1))) as [|d l2] eqn:H2;
    [left; reflexivity|].
  pose proof (skip_spaces_head _ _ _ H2) as Hd.
  destruct (skip_spaces_suffix (rev (c :: l1))) as [pre [Hsplit _]].
  rewrite H2 in Hsplit. right.
  (* rev (c :: l1) = pre ++ d :: l2, so d :: l2 ends with c *)
  apply (f_equal (@rev ascii)) in Hsplit.
  rewrite rev_involutive, rev_app_distr in Hsplit.
  simpl (rev (d :: l2)) in *.
  destruct (rev l2) as [|x xs] eqn:Hr.
  - simpl in Hsplit. injection Hsplit as <- _.
    exists c, [], c. simpl. auto.
  - simpl in Hsplit. injection Hsplit as <- Hrest.
    exists c, xs, d. split; [right; reflexivity|auto].
Qed.

Lemma trim_blank l : forallb Num.is_space l = true -> Num.trim l = [].
Proof.
  intros H. unfold Num.trim. now rewrite (skip_spaces_blank l H).
Qed.

Lemma string_of_list_nil l :
  string_of_list_ascii l = EmptyString -> l = [].
Proof. destruct l; simpl; [auto|discriminate]. Qed.

Lemma forallb_rev {A} (P : A -> bool) l :
  forallb P l = true -> forallb P (rev l) = true.
Proof.
  rewrite !forallb_forall. intros H x Hx. apply H. now apply in_rev.
Qed.

(** What [trim] removes is white space, at both ends. *)
Lemma trim_split l :
  exists pre post,
    l = (pre ++ Num.trim l ++ post)%list
    /\ forallb Num.is_space pre = true /\ forallb Num.is_space post = true.
Proof.
  destruct (skip_spaces_suffix l) as [pre [Hl Hpre]].
  destruct (skip_spaces_suffix (rev (Num.skip_spaces l))) as [q [Hr Hq]].
  exists pre, (rev q). split; [|split; [exact Hpre|now apply forallb_rev]].
  unfold Num.trim. rewrite <- rev_app_distr, <- Hr, rev_involutive.
  exact Hl.
Qed.

Lemma string_of_list_app l1 l2 :
  string_of_list_ascii (l1 ++ l2)
  = string_of_list_ascii l1 ++ string_of_list_ascii l2.
Proof. induction l1 as [|c l1 IH]; simpl; [reflexivity|now rewrite IH]. Qed.

Lemma all_chars_of_list P l :
  all_chars P (string_of_list_ascii l) = forallb P l.
Proof. induction l as [|c l IH]; simpl; [reflexivity|now rewrite IH]. Qed.

(** X12. [getSlug] returns the value of the selected option, except for the
    option [__custom__]: then it returns the text of the custom field with
    the white space at both ends removed, and ["amenity"] when nothing is
    left of it or the field does not exist.  The text of the field is white
    space, then what is returned (or nothing, when ["amenity"] is), then
    white space.  So the slug is never empty when no option has an empty
    value, and a custom slug neither starts nor ends with white space. *)
Theorem getSlug_custom :
  forall f,
    (endpoint_value f <> "" -> getSlug f <> "")
    /\ (endpoint_value f <> "__custom__" -> getSlug f = endpoint_value f)
    /\ (endpoint_value f = "__custom__" ->
        (match custom_slug_value f with
         | Some s => forallb Num.is_space (list_ascii_of_string s) = true
         | None => True
         end ->
         getSlug f = "amenity")
        /\ (exists c mid d,
             (getSlug f = String c EmptyString
              \/ getSlug f
                 = String c (string_of_list_ascii (mid ++ [d])%list))
             /\ Num.is_space c = false /\ Num.is_space d = false)
        /\ (forall s, custom_slug_value f = Some s ->
            exists pre core post,
              s = pre ++ core ++ post
              /\ all_chars Num.is_space pre = true
              /\ all_chars Num.is_space post = true
              /\ ((core = "" /\ getSlug f = "amenity")
                  \/ (getSlug f = core
                      /\ exists c mid d,
                           (core = String c EmptyString
                            \/ core
                               = String c
                                   (string_of_list_ascii (mid ++ [d])%list))
                           /\ Num.is_space c = false
                           /\ Num.is_space d = false)))).
Proof.
  intros f. unfold getSlug. split; [|split].
  - intros Hne.
    destruct (String.eqb (endpoint_value f) "__custom__"); [|exact Hne].
    match goal with
    | |- context [nonempty ?v] => destruct v eqn:Hv
    end; simpl; discriminate.
  - intros Hne. apply String.eqb_neq in Hne. rewrite Hne. reflexivity.
  - intros ->. rewrite String.eqb_refl. unfold trim. split; [|split].
    + intros Hblank.
      assert (Hnil : Num.trim
                       (list_ascii_of_string
                          match custom_slug_value f with
                          | Some s => if nonempty s then s else ""
                          | None => ""
                          end) = []).
      { destruct (custom_slug_value f) as [s|]; [|reflexivity].
        destruct s; [reflexivity|]. cbn [nonempty]. now apply trim_blank. }
      rewrite Hnil. reflexivity.
    + match goal with
      | |- context [Num.trim ?l] =>
          destruct (trim_ends l) as [Hnil | [c [mid [d [Hshape [Hc Hd]]]]]]
      end.
      * rewrite Hnil. simpl. exists "a"%char, ["m"; "e"; "n"; "i"; "t"]%char, "y"%char.
        split; [right; reflexivity|split; reflexivity].
      * exists c, mid, d. split; [|auto].
        destruct Hshape as [-> | ->]; simpl; auto.
    + intros s Hs. rewrite Hs.
      replace (if nonempty s then s else "") with s by (now destruct s).
      destruct (trim_split (list_ascii_of_string s))
        as (pre & post & Hsplit & Hpre & Hpost).
      exists (string_of_list_ascii pre),
             (string_of_list_ascii (Num.trim (list_ascii_of_string s))),
             (string_of_list_ascii post).
      split; [|split; [|split]].
      * rewrite <- !string_of_list_app, <- Hsplit.
        symmetry. apply string_of_list_ascii_of_string.
      * now rewrite all_chars_of_list.
      * now rewrite all_chars_of_list.
      * destruct (trim_ends (list_ascii_of_string s))
          as [Hnil | [c [mid [d [Hshape [Hc Hd]]]]]].
        -- left. rewrite Hnil. split; reflexivity.
        -- right. split.
           ++ destruct Hshape as [-> | ->]; reflexivity.
           ++ exists c, mid, d. split; [|auto].
              destruct Hshape as [-> | ->]; simpl; auto.
Qed.

Lemma getSlug_custom_witness :
  getSlug {| suburb_value := "Belmont North";
             endpoint_value := "__custom__";
             custom_slug_value := Some "   " |} = "amenity"
  /\ getSlug {| suburb_value := "Belmont North";
                endpoint_value := "school";
                custom_slug_value := None |} = "school".
Proof.
  destruct (getSlug_custom {| suburb_value := "Belmont North";
                              endpoint_value := "__custom__";
                              custom_slug_value := Some "   " |})
    as [_ [_ Hcustom]].
  destruct (Hcustom eq_refl) as [Hblank _].
  destruct (getSlug_custom {| suburb_value := "Belmont North";
                              endpoint_value := "school";
                              custom_slug_value := None |})
    as [_ [Hplain _]].
  split.
  - exact (Hblank eq_refl).
  - exact (Hplain ltac:(discriminate)).
Defined.

(** *** [buildUrl] and [copyCurl] *)

Lemma all_chars_impl (P Q : ascii -> bool) s :
  (forall c, P c = true -> Q c = true) ->
  all_chars P s = true -> all_chars Q s = true.
Proof.
  intros HPQ. induction s as [|c s IH]; simpl; auto.
  intros H. apply andb_prop in H as [Hc Hs]. now rewrite (HPQ c Hc), IH.
Qed.

Lemma encodeURIComponent_url_chars s :
  all_chars url_char (encodeURIComponent s) = true.
Proof.
  apply (all_chars_impl component_char); [|apply encodeURIComponent_chars].
  intros c Hc. unfold url_char. now rewrite Hc.
Qed.

Lemma encodeURIComponent_count s c :
  component_char c = false -> count_char c (encodeURIComponent s) = 0%nat.
Proof.
  intros Hc. now apply (all_chars_count component_char);
    [apply encodeURIComponent_chars|].
Qed.

Lemma buildUrl_eq f :
  buildUrl f
  = "https://mb-proxy-yourname.workers.dev/suburb/"
    ++ encodeURIComponent (getSlug f)
    ++ "?suburb=" ++ encodeURIComponent (trim (suburb_value f)).
Proof.
  unfold buildUrl. cbn [USE_PROXY PROXY_BASE nonempty andb].
  destruct (suburb_value f); reflexivity.
Qed.

Lemma buildUrl_url_chars f : all_chars url_char (buildUrl f) = true.
Proof.
  rewrite buildUrl_eq.
  rewrite !all_chars_app, !encodeURIComponent_url_chars. reflexivity.
Qed.

(** X13. The request URL is the worker's address, the path [/suburb/], the
    encoded slug, [?suburb=] and the encoded suburb with the white space at
    its ends removed.  Whatever is typed in the form, the URL consists of
    letters, digits, the marks [- _ . ! ~ * ' ( )], [%] and the delimiters
    [: / ? =], with exactly one [?], one [=], one [:] and four [/]: the text
    of the form adds no path segment, query parameter or fragment. *)
Theorem buildUrl_shape :
  forall f,
    all_chars url_char (buildUrl f) = true
    /\ count_char "?" (buildUrl f) = 1%nat
    /\ count_char "=" (buildUrl f) = 1%nat
    /\ count_char ":" (buildUrl f) = 1%nat
    /\ count_char "/" (buildUrl f) = 4%nat.
Proof.
  intros f. split; [apply buildUrl_url_chars|].
  rewrite buildUrl_eq.
  repeat split;
      rewrite !count_char_app, !encodeURIComponent_count by reflexivity;
      reflexivity.
Qed.

Lemma split_at_mark c a1 :
  forall a2 b1 b2,
    count_char c a1 = 0%nat -> count_char c a2 = 0%nat ->
    a1 ++ String c b1 = a2 ++ String c b2 -> a1 = a2 /\ b1 = b2.
Proof.
  induction a1 as [|x a1 IH]; intros [|y a2] b1 b2 H1 H2 H; simpl in *.
  - injection H as ->. auto.
  - injection H as <- _. rewrite Ascii.eqb_refl in H2. discriminate.
  - injection H as -> _. rewrite Ascii.eqb_refl in H1. discriminate.
  - injection H as -> H.
    destruct (Ascii.eqb y c); [discriminate|].
    destruct (IH a2 b1 b2 H1 H2 H) as [-> ->]. auto.
Qed.

(** X14. The request URL determines the request: two states of the form
    that give the same URL have the same slug and the same trimmed
    suburb. *)
Theorem buildUrl_determines_request :
  forall f1 f2,
    buildUrl f1 = buildUrl f2 ->
    getSlug f1 = getSlug f2
    /\ trim (suburb_value f1) = trim (suburb_value f2).
Proof.
  intros f1 f2 H. rewrite !buildUrl_eq in H.
  apply append_inj_l in H.
  change ("?suburb=" ++ ?x) with (String "?" ("suburb=" ++ x)) in H.
  apply split_at_mark in H; try (apply encodeURIComponent_count; reflexivity).
  destruct H as [Hslug Hsub]. apply append_inj_l in Hsub.
  split; now apply encodeURIComponent_inj.
Qed.

Lemma buildUrl_determines_request_witness :
  getSlug {| suburb_value := " Belmont North";
             endpoint_value := "schools";
             custom_slug_value := None |}
  = getSlug {| suburb_value := "Belmont North  ";
               endpoint_value := "__custom__";
               custom_slug_value := Some " schools " |}.
Proof.
  exact (proj1 (buildUrl_determines_request
                  {| suburb_value := " Belmont North";
                     endpoint_value := "schools";
                     custom_slug_value := None |}
                  {| suburb_value := "Belmont North  ";
                     endpoint_value := "__custom__";
                     custom_slug_value := Some " schools " |}
                  ltac:(vm_compute; reflexivity))).
Defined.

Lemma encode_unit_bang c :
  count_char "!" (encode_unit c) = count_char "!" (String c EmptyString).
Proof. destruct c as [[] [] [] [] [] [] [] []]; reflexivity. Qed.

Lemma encodeURIComponent_bang s :
  count_char "!" (encodeURIComponent s) = count_char "!" s.
Proof.
  induction s as [|c s IH]; [reflexivity|].
  cbn [encodeURIComponent]. rewrite count_char_app, encode_unit_bang, IH.
  cbn [count_char]. lia.
Qed.

Lemma buildUrl_bang f :
  count_char "!" (buildUrl f)
  = (count_char "!" (getSlug f) + count_char "!" (trim (suburb_value f)))%nat.
Proof.
  unfold buildUrl.
  replace (if nonempty (suburb_value f) then suburb_value f else "")
    with (suburb_value f) by (now destruct (suburb_value f)).
  cbn [USE_PROXY andb]. change (nonempty PROXY_BASE) with true. cbv iota.
  rewrite !count_char_app, !encodeURIComponent_bang. reflexivity.
Qed.

(** X15. The command [copyCurl] copies is [curl -s] followed by the request
    URL between double quotes.  It has exactly two double quotes and two
    spaces, and no [$], backquote or backslash.  An exclamation mark is not
    encoded: the command has as many as the slug and the trimmed suburb
    text have together. *)
Theorem copyCurl_quoted :
  forall f,
    copyCurl f
    = "curl -s " ++ String dquote (buildUrl f ++ String dquote EmptyString)
    /\ count_char dquote (copyCurl f) = 2%nat
    /\ count_char " " (copyCurl f) = 2%nat
    /\ count_char "$" (copyCurl f) = 0%nat
    /\ count_char "`" (copyCurl f) = 0%nat
    /\ count_char "\" (copyCurl f) = 0%nat
    /\ count_char "!" (copyCurl f)
       = (count_char "!" (getSlug f)
          + count_char "!" (trim (suburb_value f)))%nat.
Proof.
  intros f. split; [reflexivity|].
  pose proof (all_chars_count url_char (buildUrl f)) as Hno.
  specialize (fun c => Hno c (buildUrl_url_chars f)).
  pose proof (buildUrl_bang f) as Hbang.
  assert (Heq : copyCurl f
                = ("curl -s " ++ String dquote EmptyString)
                  ++ buildUrl f ++ String dquote EmptyString)
    by reflexivity.
  rewrite Heq. clear Heq. revert Hno Hbang.
  generalize (count_char "!" (getSlug f)
              + count_char "!" (trim (suburb_value f)))%nat.
  generalize (buildUrl f). intros u n Hno Hbang.
  do 5 (split; [rewrite !count_char_app, Hno by reflexivity; reflexivity|]).
  rewrite !count_char_app, Hbang.
  change (count_char "!" "curl -s ") with 0%nat.
  change (count_char "!" (String dquote "")) with 0%nat. lia.
Qed.

(** ** The bar chart *)

Lemma draw_bars_length pairs : forall i,
  List.length (draw_bars i pairs) = List.length pairs.
Proof. induction pairs as [|p ps IH]; intros i; simpl; auto. Qed.

Lemma draw_bars_nth pairs : forall i0 i b,
  nth_error (draw_bars i0 pairs) i = Some b ->
  exists p, nth_error pairs i = Some p /\ b = draw_bar (i0 + i) p.
Proof.
  induction pairs as [|p ps IH]; intros i0 i b H.
  - destruct i; discriminate.
  - destruct i as [|i]; simpl in H.
    + injection H as <-. exists p. split; [reflexivity|].
      now rewrite Nat.add_0_r.
    + destruct (IH _ _ _ H) as [q [Hq ->]]. exists q. split; [exact Hq|].
      f_equal. lia.
Qed.

Lemma draw_bars_In pairs : forall i0 b,
  In b (draw_bars i0 pairs) -> exists i p, In p pairs /\ b = draw_bar i p.
Proof.
  induction pairs as [|p ps IH]; intros i0 b; simpl; [tauto|].
  intros [<- | H].
  - exists i0, p. auto.
  - destruct (IH _ _ H) as [i [q [Hq ->]]]. exists i, q. auto.
Qed.

Lemma substring_0_length n : forall s,
  (String.length (substring 0 n s) <= n)%nat.
Proof.
  induction n as [|n IH]; intros [|c s]; simpl; try lia.
  specialize (IH s). lia.
Qed.

Lemma substring_0_prefix n : forall s,
  exists rest, s = substring 0 n s ++ rest.
Proof.
  induction n as [|n IH]; intros [|c s]; simpl.
  - exists "". reflexivity.
  - exists (String c s). reflexivity.
  - exists "". reflexivity.
  - destruct (IH s) as [rest Hrest]. exists rest. now f_equal.
Qed.

Lemma chart_label_short s :
  (label_length (chart_label s) <= 34)%nat
  /\ (exists rest, s = fst (chart_label s) ++ rest)
  /\ (snd (chart_label s) = false <-> (String.length s <= 34)%nat)
  /\ (snd (chart_label s) = false -> fst (chart_label s) = s).
Proof.
  unfold chart_label, label_length.
  destruct (34 <? String.length s)%nat eqn:Hlen; cbn [fst snd].
  - apply Nat.ltb_lt in Hlen. pose proof (substring_0_length 31 s).
    repeat split; try lia; try discriminate.
    apply substring_0_prefix.
  - apply Nat.ltb_ge in Hlen.
    repeat split; try lia; auto.
    exists "". now rewrite append_nil_r.
Qed.

Lemma Some_eq {A} (a b : A) : Some a = Some b -> a = b.
Proof. congruence. Qed.

Lemma substring_0_exact n : forall s,
  (n <= String.length s)%nat -> String.length (substring 0 n s) = n.
Proof.
  induction n as [|n IH]; intros [|c s]; simpl; intros H; try lia.
  rewrite IH by lia. reflexivity.
Qed.

Lemma chart_label_long s :
  snd (chart_label s) = true -> String.length (fst (chart_label s)) = 31%nat.
Proof.
  unfold chart_label.
  destruct (34 <? String.length s)%nat eqn:Hlen; cbn [fst snd];
    [|discriminate].
  intros _. apply Nat.ltb_lt in Hlen. apply substring_0_exact. lia.
Qed.

(** X16. [renderChart] hides the chart exactly when it is given no pair.
    Otherwise it draws one bar per pair, in the order of the pairs: bar [i]
    is 22 high with its top at [16 + 30 i], so consecutive bars are 8
    apart, none overlaps another, and all lie inside the canvas, whose
    height is [28 + 30 n] for [n] pairs.  A drawn label has at most 34 code
    units, the ellipsis counted; it is the key itself when the key has at
    most 34, and otherwise the first 31 code units of the key: a text of
    31 code units that the key starts with. *)
Theorem renderChart_layout :
  (forall pairs, renderChart pairs = None <-> pairs = [])
  /\ (forall pairs c,
         renderChart pairs = Some c ->
         List.length (bars c) = List.length pairs
         /\ chart_height c = 28 + 30 * Z.of_nat (List.length pairs)
         /\ (forall i b,
                nth_error (bars c) i = Some b ->
                exists p,
                  nth_error pairs i = Some p
                  /\ bar_y b = 16 + 30 * Z.of_nat i
                  /\ bar_height b = 22
                  /\ bar_y b + bar_height b + 20 <= chart_height c
                  /\ (label_length (bar_label b) <= 34)%nat
                  /\ (exists rest, label p = fst (bar_label b) ++ rest)
                  /\ (snd (bar_label b) = false
                      <-> (String.length (label p) <= 34)%nat)
                  /\ (snd (bar_label b) = false
                      -> fst (bar_label b) = label p)
                  /\ (snd (bar_label b) = true
                      -> String.length (fst (bar_label b)) = 31%nat))
         /\ (forall i j bi bj,
                (i < j)%nat ->
                nth_error (bars c) i = Some bi ->
                nth_error (bars c) j = Some bj ->
                bar_y bi + bar_height bi + 8 <= bar_y bj)).
Proof.
  split.
  - intros pairs. unfold renderChart.
    destruct pairs; simpl; split; congruence.
  - intros pairs c Hc. unfold renderChart in Hc.
    destruct (List.length pairs =? 0)%nat; [discriminate|].
    apply Some_eq in Hc. subst c. cbn [bars chart_height].
    split; [apply draw_bars_length|].
    split; [unfold topPad, rowH, gap; lia|].
    split.
    + intros i b Hb.
      destruct (draw_bars_nth _ _ _ _ Hb) as [p [Hp ->]].
      exists p. split; [exact Hp|].
      assert (Hi : (i < List.length pairs)%nat)
        by (apply nth_error_Some; congruence).
      cbn [draw_bar bar_y bar_height bar_label Nat.add].
      destruct (chart_label_short (label p)) as [H1 [H2 [H3 H4]]].
      pose proof (chart_label_long (label p)) as H5.
      unfold topPad, rowH, gap.
      repeat split; try lia; auto; apply H3.
    + intros i j bi bj Hij Hbi Hbj.
      destruct (draw_bars_nth _ _ _ _ Hbi) as [p [_ ->]].
      destruct (draw_bars_nth _ _ _ _ Hbj) as [q [_ ->]].
      cbn [draw_bar bar_y bar_height Nat.add].
      unfold topPad, rowH, gap. lia.
Qed.

Lemma renderChart_layout_witness :
  exists c,
    renderChart (findNumericPairs sample_numbers) = Some c
    /\ List.length (bars c) = List.length (findNumericPairs sample_numbers).
Proof.
  destruct renderChart_layout as [_ Hlayout].
  eexists. split; [vm_compute; reflexivity|].
  exact (proj1 (Hlayout (findNumericPairs sample_numbers) _
                  ltac:(vm_compute; reflexivity))).
Defined.

Lemma sort_nil_inv {A} (cmp : A -> A -> Num.number) l :
  sort cmp l = [] -> l = [].
Proof.
  intros H. pose proof (Permutation_length (sort_perm cmp l)) as Hlen.
  rewrite H in Hlen. destruct l; [reflexivity|discriminate].
Qed.

Lemma numeric_pairs_nil es :
  numeric_pairs es = [] <->
  forall k v, In (k, v) es ->
              Num.isFinite (numeric v) = false
              \/ Num.eqb (Num.abs (numeric v)) Num.zero = true.
Proof.
  split.
  - intros Hnil k v Hin.
    destruct (Num.isFinite (numeric v)) eqn:Hf; auto.
    destruct (Num.eqb (Num.abs (numeric v)) Num.zero) eqn:Hz; auto.
    pose proof (numeric_pairs_complete es k v Hin Hf Hz) as H.
    rewrite Hnil in H. destruct H.
  - intros H. destruct (numeric_pairs es) as [|p ps] eqn:Hps; auto.
    assert (Hp : In p (numeric_pairs es)) by (rewrite Hps; now left).
    clear Hps. exfalso.
    induction es as [|[k v] es IH]; simpl in Hp; [assumption|].
    destruct (Num.isFinite (numeric v)) eqn:Hf; simpl in Hp.
    + destruct (Num.eqb (Num.abs (numeric v)) Num.zero) eqn:Hz.
      * apply IH; auto. intros k' v' Hin. apply (H k' v'). now right.
      * destruct (H k v (or_introl eq_refl)); congruence.
    + apply IH; auto. intros k' v' Hin. apply (H k' v'). now right.
Qed.

Lemma findNumericPairs_nil data :
  findNumericPairs data = [] <->
  forall k v, get (own (flatten data)) k = Some v ->
              Num.isFinite (numeric v) = false
              \/ Num.eqb (Num.abs (numeric v)) Num.zero = true.
Proof.
  unfold findNumericPairs.
  assert (Hfirst : forall l : list pair, firstn 12 l = [] <-> l = []).
  { intros [|x l]; simpl; split; congruence. }
  rewrite Hfirst. split.
  - intros Hnil k v Hget. apply sort_nil_inv in Hnil.
    apply (proj1 (numeric_pairs_nil _) Hnil k v).
    apply (Permutation_in _ (Permutation_sym (entries_perm _))).
    now apply get_Some_In.
  - intros H.
    assert (Hnil : numeric_pairs (entries (own (flatten data))) = []).
    { apply numeric_pairs_nil. intros k v Hin. apply (H k v).
      apply get_In; [apply flatten_keys_NoDup|].
      now apply (Permutation_in _ (entries_perm _)). }
    now rewrite Hnil.
Qed.

Lemma findNumericPairs_source data p :
  In p (findNumericPairs data) ->
  exists v, get (own (flatten data)) (label p) = Some v /\ value p = numeric v.
Proof.
  intros Hp. unfold findNumericPairs in Hp.
  apply firstn_incl in Hp.
  apply (Permutation_in _ (sort_perm by_magnitude _)) in Hp.
  destruct (numeric_pairs_In _ _ Hp) as [v [Hin Hv]].
  exists v. split; auto.
  apply get_In; [apply flatten_keys_NoDup|].
  now apply (Permutation_in _ (entries_perm _)).
Qed.

(** X17. The chart of a response, as [renderAll] draws it from
    [findNumericPairs]: it is hidden exactly when no entry of the flattened
    response is a finite number other than zero, or a string that reads as
    one.  Otherwise it has between 1 and 12 bars on a canvas between 58 and
    388 high, and every bar shows an entry of the flattened response: its
    label is drawn from the key, its text is the formatted number, and its
    colour says whether the number is at least zero. *)
Theorem renderChart_of_response :
  forall data,
    (renderChart (findNumericPairs data) = None <->
     forall k v, get (own (flatten data)) k = Some v ->
                 Num.isFinite (numeric v) = false
                 \/ Num.eqb (Num.abs (numeric v)) Num.zero = true)
    /\ (forall c,
           renderChart (findNumericPairs data) = Some c ->
           (1 <= List.length (bars c) <= 12)%nat
           /\ 58 <= chart_height c <= 388
           /\ forall b,
               In b (bars c) ->
               exists k v,
                 get (own (flatten data)) k = Some v
                 /\ bar_label b = chart_label k
                 /\ bar_text b = formatNumber (numeric v)
                 /\ bar_color b
                    = if Num.geb (numeric v) Num.zero
                      then "#5b9cff" else "#ff8b5b").
Proof.
  intros data. split.
  - rewrite <- findNumericPairs_nil. unfold renderChart.
    destruct (findNumericPairs data); simpl; split; congruence.
  - intros c Hc. unfold renderChart in Hc.
    destruct (List.length (findNumericPairs data) =? 0)%nat eqn:Hlen;
      [discriminate|].
    apply Nat.eqb_neq in Hlen.
    assert (Hmax : (List.length (findNumericPairs data) <= 12)%nat)
      by (unfold findNumericPairs; apply firstn_le_length).
    apply Some_eq in Hc. subst c. cbn [bars chart_height].
    rewrite draw_bars_length. unfold topPad, rowH, gap.
    split; [lia|]. split; [lia|].
    intros b Hb. destruct (draw_bars_In _ _ _ Hb) as [i [p [Hp ->]]].
    destruct (findNumericPairs_source data p Hp) as [v [Hget Hv]].
    exists (label p), v. cbn [draw_bar bar_label bar_text bar_color].
    rewrite Hv. auto.
Qed.

Lemma renderChart_of_response_witness :
  renderChart (findNumericPairs (JObject [("name", JStr "Testville")])) = None.
Proof.
  destruct (renderChart_of_response (JObject [("name", JStr "Testville")]))
    as [Hhidden _].
  apply Hhidden. intros k v Hget.
  change (own (flatten (JObject [("name", JStr "Testville")])))
    with [("name", JStr "Testville")] in Hget.
  cbn [get] in Hget.
  destruct (String.eqb "name" k); [|discriminate].
  injection Hget as <-. left. vm_compute. reflexivity.
Defined.

(** ** Flattening a flat object *)

Lemma define_new r k v :
  ~ In k (map fst r) -> define r k v = (r ++ [(k, v)])%list.
Proof.
  induction r as [|[k0 v0] r IH]; simpl; intros H; [reflexivity|].
  destruct (String.eqb_spec k0 k) as [->|_]; [tauto|].
  f_equal. apply IH. tauto.
Qed.

Lemma get_absent r k : ~ In k (map fst r) -> get r k = None.
Proof.
  induction r as [|[k0 v0] r IH]; simpl; intros H; [reflexivity|].
  destruct (String.eqb_spec k0 k) as [->|_]; [tauto|]. apply IH. tauto.
Qed.

Lemma each_field_flat summ d r : forall out,
  Forall leaf_entry r ->
  NoDup (map fst (own out) ++ map fst r) ->
  proto out = ObjectPrototype \/ ~ In "__proto__" (map fst r) ->
  own (each_field summ d "" r out)
  = (own out ++ filter (fun kv => negb (String.eqb (fst kv) "__proto__")) r)%list.
Proof.
  induction r as [|[k v] r IH]; intros out Hleaf Hnd Hproto; simpl.
  - now rewrite app_nil_r.
  - inversion Hleaf as [|? ? Hv Hr]; subst.
    rewrite (leaf_not_expanded v Hv).
    change (field_key "" k) with k.
    assert (Hfresh : ~ In k (map fst (own out)))
      by (apply NoDup_remove_2 in Hnd; rewrite in_app_iff in Hnd; tauto).
    assert (Hlater : ~ In k (map fst r)).
    { apply NoDup_remove_2 in Hnd. rewrite in_app_iff in Hnd. tauto. }
    destruct (String.eqb_spec k "__proto__") as [->|Hk]; cbn [negb].
    + destruct Hproto as [Hp | Hno]; [|exfalso; apply Hno; now left].
      assert (Hset : own (set out "__proto__" v) = own out).
      { unfold set. rewrite String.eqb_refl, (get_absent _ _ Hfresh), Hp.
        unfold set_prototype. now destruct v. }
      rewrite IH; auto.
      * now rewrite Hset.
      * rewrite Hset. now apply NoDup_remove_1 in Hnd.
    + rewrite IH; auto.
      * rewrite set_stored by exact Hk. cbn [own].
        rewrite define_new by exact Hfresh. now rewrite <- app_assoc.
      * rewrite set_stored by exact Hk. cbn [own].
        rewrite define_new by exact Hfresh.
        rewrite map_app, <- app_assoc. exact Hnd.
      * rewrite set_stored by exact Hk. cbn [proto].
        destruct Hproto as [Hp | Hno]; [now left|].
        right. intros Hin. apply Hno. now right.
Qed.

Lemma flatten_leaves v : Forall leaf_entry (own (flatten v)).
Proof.
  apply (flattenObject_with_inv (fun _ => true) (fun _ => eq_refl)
           (fun r => Forall leaf_entry (own r))).
  - intros out k x Hx _ Hout. apply set_Forall; auto.
  - apply all_numbers_true.
  - constructor.
Qed.

Lemma flat_object_fixed r depthLimit :
  0 < depthLimit -> NoDup (map fst r) -> Forall leaf_entry r ->
  own (flattenObject depthLimit (JObject r) "" empty)
  = filter (fun kv => negb (String.eqb (fst kv) "__proto__")) r.
Proof.
  intros Hd Hnd Hleaf. unfold flattenObject.
  rewrite flattenObject_with_object
    by (cbn [depth]; rewrite Z.geb_leb; apply Z.leb_gt; lia).
  rewrite each_field_flat; auto.
Qed.

Lemma filter_all {A} (f : A -> bool) l :
  (forall x, In x l -> f x = true) -> filter f l = l.
Proof.
  induction l as [|a l IH]; simpl; intros H; [reflexivity|].
  rewrite (H a) by now left. f_equal. apply IH. intros x Hx. apply H. now right.
Qed.

(** X18. [flattenObject] leaves a flat object as it is, but for a field
    [__proto__]: an object with distinct keys whose values are all leaves is
    flattened, at any depth limit above zero, to the record whose entries
    are the fields of the object other than [__proto__], in the same order,
    dots or brackets in the keys notwithstanding; without a field
    [__proto__] the entries are the fields.  So flattening is idempotent up
    to such an entry: the entries of the flattened record of a response,
    read as an object and flattened again, are the same entries without
    [__proto__]. *)
Theorem flattenObject_flat_object :
  (forall r depthLimit,
      0 < depthLimit -> NoDup (map fst r) -> Forall leaf_entry r ->
      own (flattenObject depthLimit (JObject r) "" empty)
      = filter (fun kv => negb (String.eqb (fst kv) "__proto__")) r)
  /\ (forall r depthLimit,
         0 < depthLimit -> NoDup (map fst r) -> Forall leaf_entry r ->
         ~ In "__proto__" (map fst r) ->
         own (flattenObject depthLimit (JObject r) "" empty) = r)
  /\ (forall v,
         own (flatten (JObject (entries (own (flatten v)))))
         = filter (fun kv => negb (String.eqb (fst kv) "__proto__"))
             (entries (own (flatten v)))).
Proof.
  split; [|split].
  - intros r d. apply flat_object_fixed.
  - intros r d Hd Hnd Hleaf Hno. rewrite flat_object_fixed by assumption.
    apply filter_all. intros [k v] Hin. cbn [fst].
    destruct (String.eqb_spec k "__proto__") as [->|_]; [|reflexivity].
    exfalso. apply Hno. apply (in_map fst) in Hin. exact Hin.
  - intros v. apply flat_object_fixed; [lia| |].
    + apply (Permutation_NoDup (l := map fst (own (flatten v))));
        [|apply flatten_keys_NoDup].
      apply Permutation_map. symmetry. apply entries_perm.
    + apply (Permutation_Forall
               (Permutation_sym (entries_perm (own (flatten v))))).
      apply flatten_leaves.
Qed.

Lemma flattenObject_flat_object_witness :
  own (flattenObject 1
         (JObject [("a.b", num 1); ("__proto__", num 5); ("[0]", JNull)])
         "" empty)
  = [("a.b", num 1); ("[0]", JNull)].
Proof.
  destruct flattenObject_flat_object as [Hflat _].
  apply (Hflat [("a.b", num 1); ("__proto__", num 5); ("[0]", JNull)] 1);
    [lia | |].
  - repeat constructor; simpl; intuition discriminate.
  - repeat constructor.
Defined.

(** ** The endpoints of the dropdown *)

(** X19. For every endpoint of the dropdown other than the custom one, and
    whatever the suburb field holds, the slug of the request is the value of
    the option, and it appears in the request URL as it is, with nothing
    encoded: the URL is the worker's address, [/suburb/], the slug,
    [?suburb=] and the encoded suburb. *)
Theorem buildUrl_endpoint_options :
  forall f,
    In (endpoint_value f) endpoint_slugs ->
    endpoint_value f <> "__custom__" ->
    getSlug f = endpoint_value f
    /\ buildUrl f
       = PROXY_BASE ++ "/suburb/" ++ endpoint_value f ++ "?suburb="
         ++ encodeURIComponent (trim (suburb_value f)).
Proof.
  intros f Hin Hne.
  assert (Hslug : getSlug f = endpoint_value f).
  { unfold getSlug. destruct (String.eqb_spec (endpoint_value f) "__custom__");
      [contradiction|reflexivity]. }
  split; [exact Hslug|].
  rewrite buildUrl_eq, Hslug.
  rewrite (encodeURIComponent_unreserved (endpoint_value f)); [reflexivity|].
  unfold endpoint_slugs in Hin. simpl in Hin.
  repeat (destruct Hin as [<- | Hin]; [reflexivity|]).
  destruct Hin.
Qed.

Lemma buildUrl_endpoint_options_witness :
  buildUrl {| suburb_value := "Belmont North";
              endpoint_value := "market-insights";
              custom_slug_value := None |}
  = "https://mb-proxy-yourname.workers.dev/suburb/market-insights?suburb=Belmont%20North".
Proof.
  exact (proj2 (buildUrl_endpoint_options
                  {| suburb_value := "Belmont North";
                     endpoint_value := "market-insights";
                     custom_slug_value := None |}
                  ltac:(simpl; tauto) ltac:(discriminate))).
Defined.
